(** * obsidian-gsync: the sync core of the Google Drive plugin

    A shallow embedding of [src/syncService.ts], the index builder of
    [src/googleDrive.ts], [src/googleAuth.ts] ([isAuthenticated]) and
    [src/settings.ts], with the properties of the planner, the exclusion
    filter, the executor and the sync session.

    Conventions of the embedding:
    - a JavaScript [number] holding a time stamp or a size is an integer
      ([Z], milliseconds since the epoch for time stamps);
    - a JavaScript string is a [string]; only the ASCII characters ['/'] and
      ['.'] are ever inspected by the code;
    - a [Map<string, FileMetadata>] is an association list in insertion
      order, which is the order a JavaScript [Map] iterates in;
    - [x || 0] on an optional number is [orZero];
    - what lies outside the plugin (Obsidian's vault and adapter, the Drive
      requests, the clock, the saved settings) is an environment that
      answers or throws at every call; notices, console output and the
      status callback are recorded in a trace and do not throw. *)

From Stdlib Require Import String Ascii List ZArith Bool Lia DecimalString.
From Stdlib Require Import Permutation.
Import ListNotations.

Local Open Scope string_scope.
Local Open Scope Z_scope.

Set Warnings "-register-all".

(** ** Strings *)

Module Str.

(** [s.startsWith(p)] *)
Definition startsWith (s p : string) : bool := String.prefix p s.

(** [s.endsWith(p)] *)
Definition endsWith (s p : string) : bool :=
  let n := String.length s in
  let m := String.length p in
  (m <=? n)%nat && String.eqb (String.substring (n - m) m s) p.

(** [s.split(sep)] for a one-character separator: never empty, and
    [split sep ""] is [[""]]. *)
Fixpoint split (sep : ascii) (s : string) : list string :=
  match s with
  | EmptyString => [EmptyString]
  | String c r =>
      if Ascii.eqb c sep then EmptyString :: split sep r
      else match split sep r with
           | [] => [String c EmptyString]
           | h :: t => String c h :: t
           end
  end.

(** [parts.join(sep)] *)
Definition join (sep : string) (parts : list string) : string :=
  String.concat sep parts.

(** [s.includes(c)] for a character. *)
Fixpoint occurs (c : ascii) (s : string) : bool :=
  match s with
  | EmptyString => false
  | String a r => Ascii.eqb a c || occurs c r
  end.

Definition slash : ascii := "/"%char.
Definition dot : ascii := "."%char.

End Str.

(** ** settings.ts *)

Inductive ConflictResolution := CRLocal | CRRemote | CRNewer | CRAsk.

Record GSyncSettings := {
  clientId : string;
  clientSecret : string;
  accessToken : string;
  refreshToken : string;
  tokenExpiry : Z;
  syncFolderId : string;
  syncFolderName : string;
  autoSync : bool;
  autoSyncInterval : Z;
  conflictResolution : ConflictResolution;
  syncOnStartup : bool;
  syncOnSave : bool;
  excludedFolders : list string;
  excludedExtensions : list string;
  includeHiddenFiles : bool;
  lastSyncTime : Z;
  debugMode : bool
}.

Definition DEFAULT_SETTINGS : GSyncSettings := {|
  clientId := "";
  clientSecret := "";
  accessToken := "";
  refreshToken := "";
  tokenExpiry := 0;
  syncFolderId := "";
  syncFolderName := "ObsidianVault";
  autoSync := false;
  autoSyncInterval := 30;
  conflictResolution := CRNewer;
  syncOnStartup := false;
  syncOnSave := false;
  excludedFolders := [".obsidian"; ".git"; ".trash"];
  excludedExtensions := [];
  includeHiddenFiles := false;
  lastSyncTime := 0;
  debugMode := false
|}.

Definition set_lastSyncTime (s : GSyncSettings) (t : Z) : GSyncSettings := {|
  clientId := clientId s;
  clientSecret := clientSecret s;
  accessToken := accessToken s;
  refreshToken := refreshToken s;
  tokenExpiry := tokenExpiry s;
  syncFolderId := syncFolderId s;
  syncFolderName := syncFolderName s;
  autoSync := autoSync s;
  autoSyncInterval := autoSyncInterval s;
  conflictResolution := conflictResolution s;
  syncOnStartup := syncOnStartup s;
  syncOnSave := syncOnSave s;
  excludedFolders := excludedFolders s;
  excludedExtensions := excludedExtensions s;
  includeHiddenFiles := includeHiddenFiles s;
  lastSyncTime := t;
  debugMode := debugMode s
|}.

Definition set_syncFolderId (s : GSyncSettings) (id : string) : GSyncSettings := {|
  clientId := clientId s;
  clientSecret := clientSecret s;
  accessToken := accessToken s;
  refreshToken := refreshToken s;
  tokenExpiry := tokenExpiry s;
  syncFolderId := id;
  syncFolderName := syncFolderName s;
  autoSync := autoSync s;
  autoSyncInterval := autoSyncInterval s;
  conflictResolution := conflictResolution s;
  syncOnStartup := syncOnStartup s;
  syncOnSave := syncOnSave s;
  excludedFolders := excludedFolders s;
  excludedExtensions := excludedExtensions s;
  includeHiddenFiles := includeHiddenFiles s;
  lastSyncTime := lastSyncTime s;
  debugMode := debugMode s
|}.

Record FileMetadata := {
  path : string;
  name : string;
  mtime : Z;
  size : Z;
  isFolder : bool;
  driveId : option string;
  driveMtime : option Z;
  md5Checksum : option string
}.

(** [{ ...file, driveId: id }] *)
Definition with_driveId (f : FileMetadata) (id : option string) : FileMetadata := {|
  path := path f;
  name := name f;
  mtime := mtime f;
  size := size f;
  isFolder := isFolder f;
  driveId := id;
  driveMtime := driveMtime f;
  md5Checksum := md5Checksum f
|}.

Record ConflictInfo := {
  localFile : FileMetadata;
  remoteFile : FileMetadata;
  conflictPath : string
}.

(** [x || 0] on [number | undefined]. *)
Definition orZero (x : option Z) : Z :=
  match x with
  | Some v => v
  | None => 0
  end.

(** ** Map<string, V>: an association list in insertion order *)

Module JsMap.

Definition t (V : Type) : Type := list (string * V).

Definition empty {V} : t V := [].

Fixpoint get {V} (m : t V) (k : string) : option V :=
  match m with
  | [] => None
  | (k', v) :: r => if String.eqb k k' then Some v else get r k
  end.

Definition has {V} (m : t V) (k : string) : bool :=
  match get m k with
  | Some _ => true
  | None => false
  end.

(** [m.set(k, v)]: an existing key keeps its place in the iteration
    order, a new key goes last. *)
Fixpoint set {V} (m : t V) (k : string) (v : V) : t V :=
  match m with
  | [] => [(k, v)]
  | (k', v') :: r =>
      if String.eqb k k' then (k, v) :: r else (k', v') :: set r k v
  end.

Definition keys {V} (m : t V) : list string := map fst m.

(** [other.forEach((value, key) => m.set(key, value))] *)
Definition setAll {V} (m other : t V) : t V :=
  fold_left (fun acc kv => set acc (fst kv) (snd kv)) other m.

End JsMap.

Definition Index := JsMap.t FileMetadata.

(** The shape both index builders produce: keys are unique and every entry
    is stored under its own [path]. *)
Definition index_ok (m : Index) : Prop :=
  NoDup (JsMap.keys m) /\ forall k v, In (k, v) m -> path v = k.

(** ** SyncService.shouldExclude *)

Definition folderRule (folder path : string) : bool :=
  Str.startsWith path folder || Str.startsWith path ("/" ++ folder).

Definition hiddenPart (part : string) : bool :=
  Str.startsWith part "." && negb (String.eqb part ".").

Definition shouldExclude (s : GSyncSettings) (path : string) : bool :=
  if existsb (fun folder => folderRule folder path) (excludedFolders s) then true
  else if existsb (fun ext => Str.endsWith path ext) (excludedExtensions s) then true
  else if negb (includeHiddenFiles s)
       then existsb hiddenPart (Str.split Str.slash path)
       else false.

(** The folder rule in the words of the specification, for comparison with
    [folderRule]: the excluded folder equals the path or is a leading
    sequence of its [/]-separated segments. *)
Fixpoint leadingSegments (xs ys : list string) : bool :=
  match xs, ys with
  | [], _ => true
  | x :: xs', y :: ys' => String.eqb x y && leadingSegments xs' ys'
  | _ :: _, [] => false
  end.

Definition folderRuleBySegments (folder path : string) : bool :=
  leadingSegments (Str.split Str.slash folder) (Str.split Str.slash path).

(** ** SyncService.createSyncPlan *)

Record SyncPlan := {
  uploads : list FileMetadata;
  downloads : list FileMetadata;
  deleteLocal : list FileMetadata;
  deleteRemote : list FileMetadata;
  conflicts : list ConflictInfo
}.

Definition emptyPlan : SyncPlan :=
  {| uploads := []; downloads := []; deleteLocal := []; deleteRemote := [];
     conflicts := [] |}.

(** The five [push] calls. *)
Definition pushUpload (p : SyncPlan) (f : FileMetadata) : SyncPlan :=
  {| uploads := uploads p ++ [f]; downloads := downloads p;
     deleteLocal := deleteLocal p; deleteRemote := deleteRemote p;
     conflicts := conflicts p |}.

Definition pushDownload (p : SyncPlan) (f : FileMetadata) : SyncPlan :=
  {| uploads := uploads p; downloads := downloads p ++ [f];
     deleteLocal := deleteLocal p; deleteRemote := deleteRemote p;
     conflicts := conflicts p |}.

Definition pushDeleteLocal (p : SyncPlan) (f : FileMetadata) : SyncPlan :=
  {| uploads := uploads p; downloads := downloads p;
     deleteLocal := deleteLocal p ++ [f]; deleteRemote := deleteRemote p;
     conflicts := conflicts p |}.

Definition pushDeleteRemote (p : SyncPlan) (f : FileMetadata) : SyncPlan :=
  {| uploads := uploads p; downloads := downloads p;
     deleteLocal := deleteLocal p; deleteRemote := deleteRemote p ++ [f];
     conflicts := conflicts p |}.

Definition pushConflict (p : SyncPlan) (c : ConflictInfo) : SyncPlan :=
  {| uploads := uploads p; downloads := downloads p;
     deleteLocal := deleteLocal p; deleteRemote := deleteRemote p;
     conflicts := conflicts p ++ [c] |}.

(** Body of the first loop, [for (const [path, localFile] of localIndex)]. *)
Definition planLocalEntry (lastSync : Z) (remoteIndex : Index)
    (plan : SyncPlan) (entry : string * FileMetadata) : SyncPlan :=
  let '(p, lf) := entry in
  match JsMap.get remoteIndex p with
  | None =>
      if (lastSync =? 0) || (mtime lf >? lastSync)
      then pushUpload plan lf
      else pushDeleteLocal plan lf
  | Some rf =>
      if negb (isFolder lf) && negb (isFolder rf) then
        let localNewer := mtime lf >? orZero (driveMtime rf) in
        let remoteNewer := orZero (driveMtime rf) >? mtime lf in
        if localNewer && remoteNewer then
          pushConflict plan
            {| localFile := lf; remoteFile := rf; conflictPath := p |}
        else if localNewer && (mtime lf >? lastSync) then
          pushUpload plan (with_driveId lf (driveId rf))
        else if remoteNewer && (orZero (driveMtime rf) >? lastSync) then
          pushDownload plan rf
        else plan
      else plan
  end.

(** Body of the second loop, [for (const [path, remoteFile] of remoteIndex)]. *)
Definition planRemoteEntry (lastSync : Z) (localIndex : Index)
    (plan : SyncPlan) (entry : string * FileMetadata) : SyncPlan :=
  let '(p, rf) := entry in
  if negb (JsMap.has localIndex p) then
    if (lastSync =? 0) || (orZero (driveMtime rf) >? lastSync)
    then pushDownload plan rf
    else pushDeleteRemote plan rf
  else plan.

Definition createSyncPlan (s : GSyncSettings) (localIndex remoteIndex : Index)
    : SyncPlan :=
  let lastSync := lastSyncTime s in
  let plan := fold_left (planLocalEntry lastSync remoteIndex) localIndex emptyPlan in
  fold_left (planRemoteEntry lastSync localIndex) remoteIndex plan.

(** The paths a plan mentions, category by category. *)
Definition planPaths (p : SyncPlan) : list string :=
  map path (uploads p) ++ map path (downloads p) ++
  map path (deleteLocal p) ++ map path (deleteRemote p) ++
  map conflictPath (conflicts p).

Definition inPlan (p : string) (plan : SyncPlan) : Prop := In p (planPaths plan).

(** ** More string operations used by the executor *)

Module StrOps.

(** [s.lastIndexOf(c)], [-1] when [c] does not occur. *)
Fixpoint lastIndexOf (c : ascii) (s : string) : Z :=
  match s with
  | EmptyString => -1
  | String a r =>
      let i := lastIndexOf c r in
      if i >=? 0 then i + 1
      else if Ascii.eqb a c then 0 else -1
  end.

(** [s.substring(0, e)]; a negative [e] counts as [0]. *)
Definition substring0 (s : string) (e : Z) : string :=
  String.substring 0 (Z.to_nat e) s.

(** [file.path.substring(0, file.path.lastIndexOf('/'))] *)
Definition parentPath (p : string) : string :=
  substring0 p (lastIndexOf Str.slash p).

(** [`${n}`] for an integer. *)
Definition ofZ (n : Z) : string :=
  DecimalString.NilZero.string_of_int (Z.to_int n).

(** [s.toLowerCase()] on ASCII letters. *)
Definition lowerChar (c : ascii) : ascii :=
  let n := nat_of_ascii c in
  if ((65 <=? n) && (n <=? 90))%nat then ascii_of_nat (n + 32) else c.

Fixpoint toLowerCase (s : string) : string :=
  match s with
  | EmptyString => EmptyString
  | String c r => String (lowerChar c) (toLowerCase r)
  end.

(** [parts.pop()] leaves [removelast parts] and yields [last parts]. *)
Definition popLast (parts : list string) : string := last parts "".

End StrOps.

(** Lines 810-813 of [resolveConflict]: the name of the local copy kept by
    the ['ask'] policy, from the conflict path and the value of
    [Date.now()]. *)
Definition conflictCopyPath (p : string) (now : Z) : string :=
  let parts := Str.split Str.dot p in
  let ext := if (1 <? Z.of_nat (List.length parts))
             then "." ++ StrOps.popLast parts else "" in
  let parts' := if (1 <? Z.of_nat (List.length parts))
                then removelast parts else parts in
  let base := Str.join "." parts' in
  base ++ "_conflict_" ++ StrOps.ofZ now ++ ext.

(** [getMimeType] *)
Definition mimeTypes : list (string * string) :=
  [ ("md", "text/markdown"); ("txt", "text/plain"); ("json", "application/json");
    ("css", "text/css"); ("js", "application/javascript"); ("png", "image/png");
    ("jpg", "image/jpeg"); ("jpeg", "image/jpeg"); ("gif", "image/gif");
    ("svg", "image/svg+xml"); ("pdf", "application/pdf"); ("mp3", "audio/mpeg");
    ("mp4", "video/mp4"); ("webp", "image/webp"); ("canvas", "application/json") ].

(** What [mimeTypes[ext] || 'application/octet-stream'] evaluates to: a
    string, or, for a name the object literal inherits, the inherited
    value, which is no string. *)
Inductive MimeValue :=
| MimeText (m : string)
| MimeInherited (key : string).

(** The property names of [Object.prototype] that [toLowerCase] leaves
    alone; their values are truthy. *)
Definition inheritedKeys : list string := ["constructor"; "__proto__"].

Definition getMimeType (p : string) : MimeValue :=
  let ext := StrOps.toLowerCase (StrOps.popLast (Str.split Str.dot p)) in
  match JsMap.get mimeTypes ext with
  | Some m => MimeText m
  | None =>
      if existsb (String.eqb ext) inheritedKeys then MimeInherited ext
      else MimeText "application/octet-stream"
  end.

(** ** The collaborators: Obsidian's vault and the Drive endpoint *)

Record TFile := { tfPath : string; tfName : string }.

(** A [TFolder] with its [children], each a [TFile] or a [TFolder]. *)
Inductive TFolder : Type :=
| MkTFolder (folderPath folderName : string) (children : list (TFile + TFolder)).

Record Stat := { statMtime : Z; statSize : Z }.

(** A [DriveFile] as the index builder reads it: [modifiedTime] stands for
    [new Date(file.modifiedTime).getTime()] and [dfSize] for
    [parseInt(file.size || '0')]. *)
Record DriveFile := {
  dfId : string;
  dfName : string;
  dfMimeType : string;
  dfModifiedTime : Z;
  dfSize : Z;
  dfMd5Checksum : option string
}.

(** A remote entry together with what listing it returns when it is a
    folder: the finite unfolding of the answers to [listAllFiles]. *)
Inductive DriveNode : Type :=
| DNode (file : DriveFile) (listing : list DriveNode).

Definition FOLDER_MIME : string := "application/vnd.google-apps.folder".

(** The calls that leave the plugin, indexed by the type of their result.
    Contents of files are strings of bytes. *)
Inductive Call : Type -> Type :=
| VaultGetFiles : Call (list TFile)
| VaultGetRoot : Call TFolder
| AdapterStat (p : string) : Call (option Stat)
| AdapterRead (p : string) : Call string
| AdapterReadBinary (p : string) : Call string
| VaultCreate (p content : string) : Call unit
| AdapterExists (p : string) : Call bool
| VaultCreateFolder (p : string) : Call unit
| AdapterWriteBinary (p content : string) : Call unit
| AdapterList (p : string) : Call (list string * list string)
| AdapterRmdir (p : string) : Call unit
| VaultGetAbstractFileByPath (p : string) : Call (option (TFile + TFolder))
| VaultTrash (f : TFile) : Call unit
| PluginSaveData (s : GSyncSettings) : Call unit
| DriveGetOrCreateSyncFolder (folderName : string) : Call string
| DriveListAllFiles (folderId : string) : Call unit
| DriveDownloadFile (fileId : string) : Call string
| DriveUploadFile (fileName content : string) (mimeType : MimeValue)
    (parentId : string) (existingFileId : option string) : Call unit
| DriveEnsureFolderPath (folderPath rootFolderId : string) : Call string
| DriveMoveToTrash (fileId : string) : Call unit.

Inductive AnyCall : Type :=
| Issued : forall A : Type, Call A -> AnyCall.
Arguments Issued {A} _.

(** A thrown value: the [message] of an [Error] object whose [name] is
    ["Error"], as [new Error(message)] makes them. *)
Definition Error := string.

(** [`${error}`]: [Error.prototype.toString]. *)
Definition errorToString (e : Error) : string :=
  if String.eqb e "" then "Error" else "Error: " ++ e.

Inductive Outcome (A : Type) : Type :=
| Ok (a : A)
| Throw (e : Error).
Arguments Ok {A} a.
Arguments Throw {A} e.

(** An environment over its own state [S]: every call either answers or
    throws, and may change the environment (the clock included). The
    remote tree is what the listings of this run answer. *)
Record Env (S : Type) := {
  perform : forall A, Call A -> S -> Outcome A * S;
  dateNow : S -> Z;
  remoteTree : S -> list DriveNode
}.
Arguments perform {S} _ {A} _ _.
Arguments dateNow {S} _ _.
Arguments remoteTree {S} _ _.

Inductive StatusKind := Idle | Syncing | Failed | Authenticated | Unauthenticated.

Record SyncStatus := {
  status : StatusKind;
  message : string;
  progress : option Z;
  total : option Z
}.

Inductive Event :=
| EvNotice (msg : string)
| EvStatus (st : SyncStatus)
| EvConsoleError (msg : string) (error : option Error)
| EvConsoleLog (msg : string)
| EvCall (c : AnyCall).

(** The plugin's own state and the environment's. [trace] is oldest
    first. *)
Record World (S : Type) := {
  settings : GSyncSettings;
  isSyncing : bool;
  trace : list Event;
  ext : S
}.
Arguments settings {S} _.
Arguments isSyncing {S} _.
Arguments trace {S} _.
Arguments ext {S} _.
Arguments Build_World {S} _ _ _ _.

(** ** Computations: state, exceptions, try/catch/finally

    A thrown exception keeps the effects made before it, as in
    JavaScript. *)

Section Computations.

Context {S : Type}.

Definition M (A : Type) : Type := World S -> Outcome A * World S.

Definition ret {A} (a : A) : M A := fun w => (Ok a, w).

Definition bind {A B} (m : M A) (k : A -> M B) : M B :=
  fun w =>
    match m w with
    | (Ok a, w1) => k a w1
    | (Throw e, w1) => (Throw e, w1)
    end.

Definition throw {A} (e : Error) : M A := fun w => (Throw e, w).

(** [try { body } catch (error) { handler }] *)
Definition tryCatch {A} (body : M A) (handler : Error -> M A) : M A :=
  fun w =>
    match body w with
    | (Ok a, w1) => (Ok a, w1)
    | (Throw e, w1) => handler e w1
    end.

(** [try { body } finally { fin }]: [fin] runs on both exits; its own
    exception replaces the pending one. *)
Definition tryFinally {A} (body : M A) (fin : M unit) : M A :=
  fun w =>
    match body w with
    | (r, w1) =>
        match fin w1 with
        | (Ok _, w2) => (r, w2)
        | (Throw e, w2) => (Throw e, w2)
        end
    end.

Definition gets {A} (f : World S -> A) : M A := fun w => (Ok (f w), w).

Definition modify (f : World S -> World S) : M unit := fun w => (Ok tt, f w).

Definition log (e : Event) : M unit :=
  modify (fun w => Build_World (settings w) (isSyncing w) (trace w ++ [e]) (ext w)).

Definition setSettings (s : GSyncSettings) : M unit :=
  modify (fun w => Build_World s (isSyncing w) (trace w) (ext w)).

Definition setIsSyncing (b : bool) : M unit :=
  modify (fun w => Build_World (settings w) b (trace w) (ext w)).

End Computations.

Declare Scope comp_scope.
Delimit Scope comp_scope with comp.
Notation "x <- m ;; k" := (bind m (fun x => k))
  (at level 61, m at next level, right associativity) : comp_scope.
Notation "m ;; k" := (bind m (fun _ => k))
  (at level 61, right associativity) : comp_scope.
Local Open Scope comp_scope.

(** The test of [GoogleAuthService.isAuthenticated], with [t] the value of
    [Date.now()]. *)
Definition authenticatedAt (s : GSyncSettings) (t : Z) : bool :=
  negb (String.eqb (accessToken s) "") &&
  negb (String.eqb (refreshToken s) "") &&
  (t <? tokenExpiry s).

Section Plugin.

Context {S : Type}.
Variable env : Env S.

(** A call to a collaborator: recorded, then answered by the
    environment. What the Drive service does behind its methods, its
    requests and the refresh of the access token they may trigger, is
    modelled apart ([makeRequest], [refreshAccessToken]); here its calls
    leave [accessToken] and [tokenExpiry] alone, and no statement about
    a run speaks of these two fields. *)
Definition call {A} (c : Call A) : M (S := S) A :=
  fun w =>
    match perform env c (ext w) with
    | (r, s') =>
        (r, Build_World (settings w) (isSyncing w)
              (trace w ++ [EvCall (Issued c)]) s')
    end.

(** [Date.now()] *)
Definition now : M (S := S) Z := gets (fun w => dateNow env (ext w)).

Definition notice (msg : string) : M (S := S) unit := log (EvNotice msg).
Definition consoleError (msg : string) : M (S := S) unit :=
  log (EvConsoleError msg None).

(** [console.error(msg, error)] with the caught value as second
    argument. *)
Definition consoleErrorWith (msg : string) (error : Error) : M (S := S) unit :=
  log (EvConsoleError msg (Some error)).
Definition consoleLog (msg : string) : M (S := S) unit := log (EvConsoleLog msg).

(** [updateStatus]: the registered callback receives the status. *)
Definition updateStatus (st : SyncStatus) : M (S := S) unit := log (EvStatus st).

Definition statusMsg (k : StatusKind) (msg : string) : SyncStatus :=
  {| status := k; message := msg; progress := None; total := None |}.

Definition statusProgress (msg : string) (p t : Z) : SyncStatus :=
  {| status := Syncing; message := msg; progress := Some p; total := Some t |}.

(** [plugin.saveSettings()] *)
Definition saveSettings : M (S := S) unit :=
  s <- gets settings ;; call (PluginSaveData s).

(** [GoogleAuthService.isAuthenticated] *)
Definition isAuthenticated : M (S := S) bool :=
  s <- gets settings ;;
  t <- now ;;
  ret (authenticatedAt s t).

(** [when debugMode, console.log(msg)] *)
Definition debugLog (msg : string) : M (S := S) unit :=
  s <- gets settings ;;
  if debugMode s then consoleLog msg else ret tt.

(** *** GoogleDriveService.buildRemoteFileIndex *)

Definition remoteMetadata (p : string) (file : DriveFile) : FileMetadata :=
  {| path := p;
     name := dfName file;
     mtime := dfModifiedTime file;
     size := dfSize file;
     isFolder := String.eqb (dfMimeType file) FOLDER_MIME;
     driveId := Some (dfId file);
     driveMtime := Some (dfModifiedTime file);
     md5Checksum := dfMd5Checksum file |}.

(** One turn of [for (const file of files)], with [index] the map built
    so far. *)
Fixpoint indexRemoteNode (basePath : string) (index : Index) (n : DriveNode)
    {struct n} : M (S := S) Index :=
  match n with
  | DNode file listing =>
      let p := if String.eqb basePath "" then dfName file
               else basePath ++ "/" ++ dfName file in
      let index1 := JsMap.set index p (remoteMetadata p file) in
      if String.eqb (dfMimeType file) FOLDER_MIME then
        subIndex <-
          (call (DriveListAllFiles (dfId file)) ;;
           (fix loop (ns : list DriveNode) (acc : Index) : M Index :=
              match ns with
              | [] => ret acc
              | n' :: r => acc' <- indexRemoteNode p acc n' ;; loop r acc'
              end) listing JsMap.empty) ;;
        ret (JsMap.setAll index1 subIndex)
      else ret index1
  end.

Fixpoint indexRemoteNodes (basePath : string) (ns : list DriveNode)
    (acc : Index) : M (S := S) Index :=
  match ns with
  | [] => ret acc
  | n :: r => acc' <- indexRemoteNode basePath acc n ;; indexRemoteNodes basePath r acc'
  end.

(** The call made by [sync]: [buildRemoteFileIndex(syncFolderId)] with
    [basePath = '']. *)
Definition buildRemoteFileIndex (folderId : string) : M (S := S) Index :=
  call (DriveListAllFiles folderId) ;;
  files <- gets (fun w => remoteTree env (ext w)) ;;
  indexRemoteNodes "" files JsMap.empty.

(** *** SyncService.buildLocalFileIndex *)

Definition processFile (index : Index) (file : TFile) : M (S := S) Index :=
  s <- gets settings ;;
  if shouldExclude s (tfPath file) then ret index
  else
    st <- call (AdapterStat (tfPath file)) ;;
    match st with
    | Some st =>
        ret (JsMap.set index (tfPath file)
               {| path := tfPath file; name := tfName file;
                  mtime := statMtime st; size := statSize st;
                  isFolder := false;
                  driveId := None; driveMtime := None; md5Checksum := None |})
    | None => ret index
    end.

Definition processFolder (s : GSyncSettings) (index : Index)
    (folderPath folderName : string) : Index :=
  if shouldExclude s folderPath then index
  else if negb (String.eqb folderPath "/") then
    JsMap.set index folderPath
      {| path := folderPath; name := folderName; mtime := 0; size := 0;
         isFolder := true;
         driveId := None; driveMtime := None; md5Checksum := None |}
  else index.

Fixpoint processAllFolders (s : GSyncSettings) (index : Index)
    (folder : TFolder) {struct folder} : Index :=
  match folder with
  | MkTFolder fp fn children =>
      (fix loop (cs : list (TFile + TFolder)) (acc : Index) : Index :=
         match cs with
         | [] => acc
         | inl _ :: r => loop r acc
         | inr d :: r => loop r (processAllFolders s acc d)
         end) children (processFolder s index fp fn)
  end.

Fixpoint processFiles (files : list TFile) (index : Index) : M (S := S) Index :=
  match files with
  | [] => ret index
  | f :: r => index' <- processFile index f ;; processFiles r index'
  end.

Definition buildLocalFileIndex : M (S := S) Index :=
  allFiles <- call VaultGetFiles ;;
  index <- processFiles allFiles JsMap.empty ;;
  root <- call VaultGetRoot ;;
  s <- gets settings ;;
  ret (processAllFolders s index root).

End Plugin.

Section Executor.

Context {S : Type}.
Variable env : Env S.

(** *** Transfers of one item *)

(** The [try] block of [uploadFile]. *)
Definition uploadAttempt (file : FileMetadata) : M (S := S) unit :=
  content <- call env (AdapterReadBinary (path file)) ;;
  let mimeType := getMimeType (path file) in
  let parentPath := StrOps.parentPath (path file) in
  s <- gets settings ;;
  parentId <-
    (if negb (String.eqb parentPath "")
     then call env (DriveEnsureFolderPath parentPath (syncFolderId s))
     else ret (syncFolderId s)) ;;
  call env (DriveUploadFile (name file) content mimeType parentId (driveId file)) ;;
  debugLog ("Uploaded: " ++ path file).

Definition uploadFile (file : FileMetadata) : M (S := S) unit :=
  tryCatch (uploadAttempt file)
    (fun error =>
       consoleErrorWith ("Failed to upload " ++ path file ++ ":") error ;;
       throw error).

(** [!file.driveId] holds for a missing and for an empty id. *)
Definition usableId (id : option string) : option string :=
  match id with
  | Some i => if String.eqb i "" then None else Some i
  | None => None
  end.

(** The [try] block of [downloadFile], with [id] the entry's
    [driveId]. *)
Definition downloadAttempt (id : string) (file : FileMetadata) : M (S := S) unit :=
  content <- call env (DriveDownloadFile id) ;;
  let parentPath := StrOps.parentPath (path file) in
  (if negb (String.eqb parentPath "") then
     ex <- call env (AdapterExists parentPath) ;;
     if negb ex then call env (VaultCreateFolder parentPath) else ret tt
   else ret tt) ;;
  call env (AdapterWriteBinary (path file) content) ;;
  debugLog ("Downloaded: " ++ path file).

Definition downloadFile (file : FileMetadata) : M (S := S) unit :=
  match usableId (driveId file) with
  | None => consoleError ("No drive ID for file: " ++ path file)
  | Some id =>
      tryCatch (downloadAttempt id file)
        (fun error =>
           consoleErrorWith ("Failed to download " ++ path file ++ ":") error ;;
           throw error)
  end.

(** The [try] block of [deleteLocalFile]. *)
Definition deleteLocalAttempt (file : FileMetadata) : M (S := S) unit :=
  (if isFolder file then
     ex <- call env (AdapterExists (path file)) ;;
     if ex then
       l <- call env (AdapterList (path file)) ;;
       if ((List.length (fst l) =? 0) && (List.length (snd l) =? 0))%nat
       then call env (AdapterRmdir (path file))
       else ret tt
     else ret tt
   else
     ex <- call env (AdapterExists (path file)) ;;
     if ex then
       abstractFile <- call env (VaultGetAbstractFileByPath (path file)) ;;
       match abstractFile with
       | Some (inl f) => call env (VaultTrash f)
       | _ => ret tt
       end
     else ret tt) ;;
  debugLog ("Deleted local: " ++ path file).

Definition deleteLocalFile (file : FileMetadata) : M (S := S) unit :=
  tryCatch (deleteLocalAttempt file)
    (fun error =>
       consoleErrorWith ("Failed to delete local " ++ path file ++ ":") error).

(** The [try] block of [deleteRemoteFile], with [id] the entry's
    [driveId]. *)
Definition deleteRemoteAttempt (id : string) (file : FileMetadata) : M (S := S) unit :=
  call env (DriveMoveToTrash id) ;;
  debugLog ("Deleted remote: " ++ path file).

Definition deleteRemoteFile (file : FileMetadata) : M (S := S) unit :=
  match usableId (driveId file) with
  | None => ret tt
  | Some id =>
      tryCatch (deleteRemoteAttempt id file)
        (fun error =>
           consoleErrorWith ("Failed to delete remote " ++ path file ++ ":") error)
  end.

(** *** SyncService.resolveConflict *)

(** The ['ask'] case up to the download: the local content is read and
    written to a new file named after the conflict path. *)
Definition keepLocalCopy (conflict : ConflictInfo) : M (S := S) unit :=
  t <- now env ;;
  let newPath := conflictCopyPath (conflictPath conflict) t in
  content <- call env (AdapterRead (conflictPath conflict)) ;;
  call env (VaultCreate newPath content).

Definition resolveConflict (conflict : ConflictInfo) : M (S := S) unit :=
  s <- gets settings ;;
  match conflictResolution s with
  | CRLocal => uploadFile (localFile conflict)
  | CRRemote => downloadFile (remoteFile conflict)
  | CRNewer =>
      if mtime (localFile conflict) >? orZero (driveMtime (remoteFile conflict))
      then uploadFile (localFile conflict)
      else downloadFile (remoteFile conflict)
  | CRAsk =>
      keepLocalCopy conflict ;;
      downloadFile (remoteFile conflict)
  end.

(** *** SyncService.executeSyncPlan *)

(** A [for ... of] loop whose body advances the [progress] counter. *)
Fixpoint forEach {A} (items : list A) (body : A -> Z -> M (S := S) Z)
    (progress : Z) : M (S := S) Z :=
  match items with
  | [] => ret progress
  | x :: r => p <- body x progress ;; forEach r body p
  end.

Definition conflictStep (total : Z) (c : ConflictInfo) (progress : Z) : M (S := S) Z :=
  let progress := progress + 1 in
  updateStatus (statusProgress ("Resolving conflict: " ++ conflictPath c) progress total) ;;
  resolveConflict c ;;
  ret progress.

Definition uploadStep (total : Z) (file : FileMetadata) (progress : Z) : M (S := S) Z :=
  if isFolder file then ret progress
  else
    let progress := progress + 1 in
    updateStatus (statusProgress ("Uploading: " ++ path file) progress total) ;;
    uploadFile file ;;
    ret progress.

Definition downloadStep (total : Z) (file : FileMetadata) (progress : Z) : M (S := S) Z :=
  if isFolder file then ret progress
  else
    let progress := progress + 1 in
    updateStatus (statusProgress ("Downloading: " ++ path file) progress total) ;;
    downloadFile file ;;
    ret progress.

Definition deleteLocalStep (total : Z) (file : FileMetadata) (progress : Z) : M (S := S) Z :=
  let progress := progress + 1 in
  updateStatus (statusProgress ("Deleting local: " ++ path file) progress total) ;;
  deleteLocalFile file ;;
  ret progress.

Definition deleteRemoteStep (total : Z) (file : FileMetadata) (progress : Z) : M (S := S) Z :=
  let progress := progress + 1 in
  updateStatus (statusProgress ("Deleting remote: " ++ path file) progress total) ;;
  deleteRemoteFile file ;;
  ret progress.

Definition planTotal (plan : SyncPlan) : Z :=
  Z.of_nat (List.length (uploads plan)) + Z.of_nat (List.length (downloads plan)) +
  Z.of_nat (List.length (deleteLocal plan)) + Z.of_nat (List.length (deleteRemote plan)) +
  Z.of_nat (List.length (conflicts plan)).

Definition executeSyncPlan (plan : SyncPlan) (localIndex remoteIndex : Index)
    : M (S := S) unit :=
  let total := planTotal plan in
  p <- forEach (conflicts plan) (conflictStep total) 0 ;;
  p <- forEach (uploads plan) (uploadStep total) p ;;
  p <- forEach (downloads plan) (downloadStep total) p ;;
  p <- forEach (deleteLocal plan) (deleteLocalStep total) p ;;
  _ <- forEach (deleteRemote plan) (deleteRemoteStep total) p ;;
  ret tt.

(** *** SyncService.sync *)

(** The [try] block up to and including [executeSyncPlan]. *)
Definition syncPhases : M (S := S) unit :=
  s <- gets settings ;;
  (if String.eqb (syncFolderId s) "" then
     updateStatus (statusMsg Syncing "Creating sync folder...") ;;
     folderId <- call env (DriveGetOrCreateSyncFolder (syncFolderName s)) ;;
     s <- gets settings ;;
     setSettings (set_syncFolderId s folderId) ;;
     saveSettings env
   else ret tt) ;;
  updateStatus (statusMsg Syncing "Scanning local files...") ;;
  localIndex <- buildLocalFileIndex env ;;
  updateStatus (statusMsg Syncing "Scanning remote files...") ;;
  s <- gets settings ;;
  remoteIndex <- buildRemoteFileIndex env (syncFolderId s) ;;
  updateStatus (statusMsg Syncing "Planning sync...") ;;
  s <- gets settings ;;
  let plan := createSyncPlan s localIndex remoteIndex in
  executeSyncPlan plan localIndex remoteIndex.

(** The rest of the [try] block: the watermark and the final notices. *)
Definition syncCommit : M (S := S) unit :=
  t <- now env ;;
  s <- gets settings ;;
  setSettings (set_lastSyncTime s t) ;;
  saveSettings env ;;
  updateStatus (statusMsg Idle "Sync completed") ;;
  notice "Sync completed successfully".

Definition syncFailed (error : Error) : M (S := S) unit :=
  consoleErrorWith "Sync error:" error ;;
  updateStatus (statusMsg Failed ("Sync failed: " ++ errorToString error)) ;;
  notice ("Sync failed: " ++ errorToString error).

(** The state in which the [try] block starts. *)
Definition syncStart : M (S := S) unit :=
  setIsSyncing true ;;
  updateStatus (statusMsg Syncing "Starting sync...").

Definition sync : M (S := S) unit :=
  busy <- gets isSyncing ;;
  if busy then notice "Sync already in progress"
  else
    auth <- isAuthenticated env ;;
    if negb auth then notice "Please authenticate with Google Drive first"
    else
      syncStart ;;
      tryFinally
        (tryCatch (syncPhases ;; syncCommit) syncFailed)
        (setIsSyncing false).


End Executor.

(** ** A small environment to run the plugin in

    Files are kept by path with their [mtime] and content, the clock
    advances by one millisecond at every call, and [faulty] names the calls
    that throw. *)

Module Sim.

Record State := {
  clock : Z;
  files : JsMap.t (Z * string);
  folders : list string;
  root : TFolder;
  remote : list DriveNode;
  remoteContent : JsMap.t string;
  faulty : forall A, Call A -> bool
}.

Definition tick (st : State) : State :=
  {| clock := clock st + 1; files := files st; folders := folders st;
     root := root st; remote := remote st;
     remoteContent := remoteContent st; faulty := faulty st |}.

Definition withFiles (st : State) (fs : JsMap.t (Z * string)) : State :=
  {| clock := clock st; files := fs; folders := folders st;
     root := root st; remote := remote st;
     remoteContent := remoteContent st; faulty := faulty st |}.

Definition withFolders (st : State) (ds : list string) : State :=
  {| clock := clock st; files := files st; folders := ds;
     root := root st; remote := remote st;
     remoteContent := remoteContent st; faulty := faulty st |}.

Definition remove {V} (m : JsMap.t V) (k : string) : JsMap.t V :=
  filter (fun kv => negb (String.eqb (fst kv) k)) m.

Definition baseName (p : string) : string :=
  StrOps.popLast (Str.split Str.slash p).

Definition inFolder (d p : string) : bool :=
  String.eqb (StrOps.parentPath p) d.

Definition answer {A} (c : Call A) (st : State) : Outcome A * State :=
  match c in Call T return Outcome T * State with
  | VaultGetFiles =>
      (Ok (map (fun kv => {| tfPath := fst kv; tfName := baseName (fst kv) |})
             (files st)), st)
  | VaultGetRoot => (Ok (root st), st)
  | AdapterStat p =>
      (Ok (match JsMap.get (files st) p with
           | Some (m, c) =>
               Some {| statMtime := m; statSize := Z.of_nat (String.length c) |}
           | None => None
           end), st)
  | AdapterRead p | AdapterReadBinary p =>
      match JsMap.get (files st) p with
      | Some (_, c) => (Ok c, st)
      | None => (Throw "ENOENT: no such file", st)
      end
  | VaultCreate p content =>
      if JsMap.has (files st) p then (Throw "File already exists.", st)
      else if negb (String.eqb (StrOps.parentPath p) "") &&
              negb (existsb (String.eqb (StrOps.parentPath p)) (folders st))
      then (Throw "ENOENT: no such directory", st)
      else (Ok tt, withFiles st (JsMap.set (files st) p (clock st, content)))
  | AdapterExists p =>
      (Ok (JsMap.has (files st) p || existsb (String.eqb p) (folders st)), st)
  | VaultCreateFolder p => (Ok tt, withFolders st (folders st ++ [p]))
  | AdapterWriteBinary p content =>
      (Ok tt, withFiles st (JsMap.set (files st) p (clock st, content)))
  | AdapterList p =>
      (Ok (filter (inFolder p) (JsMap.keys (files st)),
           filter (inFolder p) (folders st)), st)
  | AdapterRmdir p =>
      (Ok tt, withFolders st (filter (fun d => negb (String.eqb d p)) (folders st)))
  | VaultGetAbstractFileByPath p =>
      (Ok (if JsMap.has (files st) p
           then Some (inl {| tfPath := p; tfName := baseName p |})
           else None), st)
  | VaultTrash f => (Ok tt, withFiles st (remove (files st) (tfPath f)))
  | PluginSaveData _ => (Ok tt, st)
  | DriveGetOrCreateSyncFolder _ => (Ok "root-id", st)
  | DriveListAllFiles _ => (Ok tt, st)
  | DriveDownloadFile id =>
      match JsMap.get (remoteContent st) id with
      | Some c => (Ok c, st)
      | None => (Throw "Drive API error: 404", st)
      end
  | DriveUploadFile _ _ _ _ _ => (Ok tt, st)
  | DriveEnsureFolderPath p _ => (Ok ("folder:" ++ p), st)
  | DriveMoveToTrash _ => (Ok tt, st)
  end.

Definition env : Env State :=
  {| perform := fun A (c : Call A) st =>
       if faulty st A c then (Throw "Drive API error: 500", tick st)
       else answer c (tick st);
     dateNow := clock;
     remoteTree := remote |}.

Definition noFaults : forall A, Call A -> bool := fun _ _ => false.

(** Moving the remote file [id] to the trash fails. *)
Definition trashFails (id : string) : forall A, Call A -> bool :=
  fun _ c =>
    match c with
    | DriveMoveToTrash fileId => String.eqb fileId id
    | _ => false
    end.

(** Uploading the file named [n] fails. *)
Definition uploadFails (n : string) : forall A, Call A -> bool :=
  fun _ c =>
    match c with
    | DriveUploadFile fileName _ _ _ _ => String.eqb fileName n
    | _ => false
    end.

Definition emptyRoot : TFolder := MkTFolder "/" "" [].

Definition state (t : Z) (fs : JsMap.t (Z * string)) (ds : list string)
    (tree : list DriveNode) (content : JsMap.t string)
    (f : forall A, Call A -> bool) : State :=
  {| clock := t; files := fs; folders := ds; root := emptyRoot;
     remote := tree; remoteContent := content; faulty := f |}.

Definition withRoot (st : State) (r : TFolder) : State :=
  {| clock := clock st; files := files st; folders := folders st;
     root := r; remote := remote st;
     remoteContent := remoteContent st; faulty := faulty st |}.

Definition world (s : GSyncSettings) (busy : bool) (st : State) : World State :=
  Build_World s busy [] st.

(** Settings of a connected plugin whose token expires at [expiry]. *)
Definition connected (s : GSyncSettings) (expiry : Z) : GSyncSettings :=
  {| clientId := clientId s; clientSecret := clientSecret s;
     accessToken := "token"; refreshToken := "refresh"; tokenExpiry := expiry;
     syncFolderId := "root-id"; syncFolderName := syncFolderName s;
     autoSync := autoSync s; autoSyncInterval := autoSyncInterval s;
     conflictResolution := conflictResolution s;
     syncOnStartup := syncOnStartup s; syncOnSave := syncOnSave s;
     excludedFolders := excludedFolders s;
     excludedExtensions := excludedExtensions s;
     includeHiddenFiles := includeHiddenFiles s;
     lastSyncTime := lastSyncTime s; debugMode := debugMode s |}.

Definition mdFile (id n : string) (t : Z) : DriveFile :=
  {| dfId := id; dfName := n; dfMimeType := "text/markdown";
     dfModifiedTime := t; dfSize := 0; dfMd5Checksum := None |}.

Definition folder (id n : string) (t : Z) : DriveFile :=
  {| dfId := id; dfName := n; dfMimeType := FOLDER_MIME;
     dfModifiedTime := t; dfSize := 0; dfMd5Checksum := None |}.

Definition localEntry (p : string) (t : Z) : FileMetadata :=
  {| path := p; name := baseName p; mtime := t; size := 0; isFolder := false;
     driveId := None; driveMtime := None; md5Checksum := None |}.

End Sim.

(** ** What a run leaves in the trace *)

Definition callName {A} (c : Call A) : string :=
  match c with
  | VaultGetFiles => "vault.getFiles"
  | VaultGetRoot => "vault.getRoot"
  | AdapterStat p => "adapter.stat " ++ p
  | AdapterRead p => "adapter.read " ++ p
  | AdapterReadBinary p => "adapter.readBinary " ++ p
  | VaultCreate p _ => "vault.create " ++ p
  | AdapterExists p => "adapter.exists " ++ p
  | VaultCreateFolder p => "vault.createFolder " ++ p
  | AdapterWriteBinary p _ => "adapter.writeBinary " ++ p
  | AdapterList p => "adapter.list " ++ p
  | AdapterRmdir p => "adapter.rmdir " ++ p
  | VaultGetAbstractFileByPath p => "vault.getAbstractFileByPath " ++ p
  | VaultTrash f => "vault.trash " ++ tfPath f
  | PluginSaveData _ => "plugin.saveData"
  | DriveGetOrCreateSyncFolder n => "drive.getOrCreateSyncFolder " ++ n
  | DriveListAllFiles id => "drive.listAllFiles " ++ id
  | DriveDownloadFile id => "drive.downloadFile " ++ id
  | DriveUploadFile n _ _ _ _ => "drive.uploadFile " ++ n
  | DriveEnsureFolderPath p _ => "drive.ensureFolderPath " ++ p
  | DriveMoveToTrash id => "drive.moveToTrash " ++ id
  end.

(** The messages of the status updates, oldest first. *)
Fixpoint statusLog (t : list Event) : list string :=
  match t with
  | [] => []
  | EvStatus st :: r => message st :: statusLog r
  | _ :: r => statusLog r
  end.

(** The calls issued, oldest first. *)
Fixpoint callLog (t : list Event) : list string :=
  match t with
  | [] => []
  | EvCall (Issued c) :: r => callName c :: callLog r
  | _ :: r => callLog r
  end.

(** The first three loops of [executeSyncPlan]: conflicts, uploads,
    downloads. *)
Definition transferLoops {S} (env : Env S) (plan : SyncPlan) : M (S := S) Z :=
  let total := planTotal plan in
  p <- forEach (conflicts plan) (conflictStep env total) 0 ;;
  p <- forEach (uploads plan) (uploadStep env total) p ;;
  forEach (downloads plan) (downloadStep env total) p.

(** The last two loops: local deletions, remote deletions. *)
Definition deleteLoops {S} (env : Env S) (plan : SyncPlan) (p : Z) : M (S := S) Z :=
  let total := planTotal plan in
  p <- forEach (deleteLocal plan) (deleteLocalStep env total) p ;;
  forEach (deleteRemote plan) (deleteRemoteStep env total) p.

(** ** Predicates on computations *)

(** [m] leaves the observation [obs] of the world as it found it, whether
    it returns or throws. *)
Definition preserves {S X A} (obs : World S -> X) (m : M (S := S) A) : Prop :=
  forall w, obs (snd (m w)) = obs w.

(** Observations of the plugin's own state are blind to the trace and to
    the environment. *)
Definition plugin_only {S X} (obs : World S -> X) : Prop :=
  forall s b t t' (e e' : S), obs (Build_World s b t e) = obs (Build_World s b t' e').

(** [m] never throws. *)
Definition succeeds {S A} (m : M (S := S) A) : Prop :=
  forall w, exists a, fst (m w) = Ok a.

(** [m] only adds to the trace. *)
Definition grows {S A} (m : M (S := S) A) : Prop :=
  forall w, exists t, trace (snd (m w)) = (trace w ++ t)%list.

(** The status messages sent so far. *)
Definition statusOf {S} (w : World S) : list string := statusLog (trace w).

(** [settings.lastSyncTime] *)
Definition watermark {S} (w : World S) : Z := lastSyncTime (settings w).

(** ** Concrete inputs *)

Module Scenario.

Definition watermark500 : GSyncSettings := set_lastSyncTime DEFAULT_SETTINGS 500.

Definition file (p : string) (t : Z) (id : option string) (rt : option Z)
    (dir : bool) : FileMetadata :=
  {| path := p; name := p; mtime := t; size := 0; isFolder := dir;
     driveId := id; driveMtime := rt; md5Checksum := None |}.

Definition localC : FileMetadata := file "c.md" 600 None None false.
Definition remoteC : FileMetadata := file "c.md" 700 (Some "id-c") (Some 700) false.

Definition localTie : FileMetadata := file "c.md" 600 None None false.
Definition remoteTie : FileMetadata := file "c.md" 600 (Some "id-c") (Some 600) false.

Definition localNote : FileMetadata := file "docs" 600 None None false.
Definition remoteDir : FileMetadata := file "docs" 700 (Some "id-d") (Some 700) true.

(** A connected plugin with the default filters, and a remote tree that
    holds [.obsidian/workspace.json]. *)
Definition connectedDefaults : GSyncSettings :=
  Sim.connected DEFAULT_SETTINGS 1000000.

Definition remoteWithObsidian : list DriveNode :=
  [ DNode (Sim.folder "id-o" ".obsidian" 100)
      [ DNode (Sim.mdFile "id-w" "workspace.json" 100) [] ] ].

Definition worldWithObsidian : World Sim.State :=
  Sim.world connectedDefaults false
    (Sim.state 1000 [] [] remoteWithObsidian [("id-w", "{}")] Sim.noFaults).

Definition remoteObsidianFolder : FileMetadata :=
  remoteMetadata ".obsidian" (Sim.folder "id-o" ".obsidian" 100).

Definition remoteWorkspace : FileMetadata :=
  remoteMetadata ".obsidian/workspace.json" (Sim.mdFile "id-w" "workspace.json" 100).

(** The folder rule alone: [.git] excluded, hidden files included. *)
Definition excludeGitOnly : GSyncSettings :=
  {| clientId := ""; clientSecret := ""; accessToken := ""; refreshToken := "";
     tokenExpiry := 0; syncFolderId := ""; syncFolderName := "ObsidianVault";
     autoSync := false; autoSyncInterval := 30; conflictResolution := CRNewer;
     syncOnStartup := false; syncOnSave := false;
     excludedFolders := [".git"]; excludedExtensions := [];
     includeHiddenFiles := true; lastSyncTime := 0; debugMode := false |}.

(** Two local files to upload; the upload of [a.md] is refused. *)
Definition twoUploads : SyncPlan :=
  {| uploads := [Sim.localEntry "a.md" 600; Sim.localEntry "b.md" 600];
     downloads := []; deleteLocal := []; deleteRemote := []; conflicts := [] |}.

Definition twoLocalFiles : JsMap.t (Z * string) :=
  [("a.md", (600, "alpha")); ("b.md", (600, "beta"))].

Definition worldUploadFails : World Sim.State :=
  Sim.world (set_lastSyncTime connectedDefaults 500) false
    (Sim.state 1000 twoLocalFiles [] [] [] (Sim.uploadFails "a.md")).

(** Two remote deletions; trashing [x.md] is refused. *)
Definition remoteX : FileMetadata := file "x.md" 100 (Some "id-x") (Some 100) false.
Definition remoteY : FileMetadata := file "y.md" 100 (Some "id-y") (Some 100) false.

Definition twoRemoteDeletes : SyncPlan :=
  {| uploads := []; downloads := []; deleteLocal := [];
     deleteRemote := [remoteX; remoteY]; conflicts := [] |}.

Definition worldTrashFails : World Sim.State :=
  Sim.world (set_lastSyncTime connectedDefaults 500) false
    (Sim.state 1000 [] [] [] [] (Sim.trashFails "id-x")).

(** Scenario A: first run, local [a.md], empty remote, clock at 1000. *)
Definition worldFirstRun : World Sim.State :=
  Sim.world connectedDefaults false
    (Sim.state 1000 [("a.md", (100, "alpha"))] [] [] [] Sim.noFaults).


(** The [ask] policy. *)
Definition askPolicy : GSyncSettings :=
  {| clientId := ""; clientSecret := ""; accessToken := "token";
     refreshToken := "refresh"; tokenExpiry := 1000000;
     syncFolderId := "root-id"; syncFolderName := "ObsidianVault";
     autoSync := false; autoSyncInterval := 30; conflictResolution := CRAsk;
     syncOnStartup := false; syncOnSave := false;
     excludedFolders := [".obsidian"; ".git"; ".trash"]; excludedExtensions := [];
     includeHiddenFiles := false; lastSyncTime := 500; debugMode := false |}.

(** Scenario D: the conflict of scenario C under [ask]. *)
Definition conflictC : ConflictInfo :=
  {| localFile := localC; remoteFile := remoteC; conflictPath := "c.md" |}.

Definition worldConflictC : World Sim.State :=
  Sim.world askPolicy false
    (Sim.state 1000 [("c.md", (600, "local text"))] [] []
       [("id-c", "remote text")] Sim.noFaults).




(** Scenarios A and B of the planner. *)
Definition localA : FileMetadata := file "a.md" 100 None None false.
Definition remoteB : FileMetadata := file "b.md" 400 (Some "id-b") (Some 400) false.

(** A vault with a note, a folder of notes and Obsidian's own folder. *)
Definition vaultTree : TFolder :=
  MkTFolder "/" ""
    [ inl {| tfPath := "a.md"; tfName := "a.md" |};
      inr (MkTFolder "notes" "notes" []);
      inr (MkTFolder ".obsidian" ".obsidian"
             [ inl {| tfPath := ".obsidian/app.json"; tfName := "app.json" |} ]) ].

Definition worldVault : World Sim.State :=
  Sim.world connectedDefaults false
    (Sim.withRoot
       (Sim.state 1000
          [("a.md", (100, "alpha")); (".obsidian/app.json", (100, "{}"))]
          ["notes"; ".obsidian"] [] [] Sim.noFaults)
       vaultTree).

Definition vaultIndex : Index :=
  [ ("a.md",
     {| path := "a.md"; name := "a.md"; mtime := 100; size := 5;
        isFolder := false; driveId := None; driveMtime := None;
        md5Checksum := None |});
    ("notes",
     {| path := "notes"; name := "notes"; mtime := 0; size := 0;
        isFolder := true; driveId := None; driveMtime := None;
        md5Checksum := None |}) ].

End Scenario.

(** ** Words for the planner's tests *)

(** [lastSyncTime === 0 || t > lastSyncTime]: the test both loops apply to
    an entry the other side lacks. *)
Definition changedSince (lastSync t : Z) : bool :=
  (lastSync =? 0) || (t >? lastSync).

(** [remoteFile.driveMtime || 0] *)
Definition remoteTime (rf : FileMetadata) : Z := orZero (driveMtime rf).

(** ** What a run reports: progress *)

(** The status updates sent so far. *)
Fixpoint statuses (t : list Event) : list SyncStatus :=
  match t with
  | [] => []
  | EvStatus st :: r => st :: statuses r
  | _ :: r => statuses r
  end.

(** The [progress]/[total] pairs of the status updates. *)
Definition progressLog (t : list Event) : list (option Z * option Z) :=
  map (fun st => (progress st, total st)) (statuses t).

(** The pairs [p+1 / total], ..., [p+k / total]. *)
Definition ticks (p : Z) (k : nat) (t : Z) : list (option Z * option Z) :=
  map (fun i => (Some (p + Z.of_nat i), Some t)) (seq 1 k).

(** The entries of a plan, counted as [executeSyncPlan] counts them. *)
Definition planEntries (plan : SyncPlan) : nat :=
  (List.length (conflicts plan) + List.length (uploads plan) +
   List.length (downloads plan) + List.length (deleteLocal plan) +
   List.length (deleteRemote plan))%nat.

(** The settings without the two fields a run may write. *)
Definition forgetRunState (s : GSyncSettings) : GSyncSettings :=
  set_syncFolderId (set_lastSyncTime s 0) "".

(** ** main.ts: the command "Force Upload All" *)

Section Commands.

Context {S : Type}.
Variable env : Env S.

Definition forceUploadAll : M (S := S) unit :=
  auth <- isAuthenticated env ;;
  if negb auth then notice "Please configure Google Drive authentication first"
  else
    s <- gets settings ;;
    let originalTime := lastSyncTime s in
    setSettings (set_lastSyncTime s 0) ;;
    notice "Starting full upload..." ;;
    sync env ;;
    s' <- gets settings ;;
    if lastSyncTime s' =? 0
    then setSettings (set_lastSyncTime s' originalTime)
    else ret tt.

End Commands.

(** ** googleAuth.ts *)

Record OAuthCredentials := {
  credClientId : string;
  credClientSecret : string
}.

(** [hasCredentials] *)
Definition hasCredentials (c : option OAuthCredentials) : bool :=
  match c with
  | Some cr => negb (String.eqb (credClientId cr) "") &&
               negb (String.eqb (credClientSecret cr) "")
  | None => false
  end.

(** The answer of the token endpoint: [response.status] and the fields of
    [response.json] the code reads. *)
Record TokenResponse := {
  trStatus : Z;
  trAccessToken : string;
  trRefreshToken : option string;
  trExpiresIn : Z
}.

Inductive TokenGrant :=
| RefreshGrant (c : OAuthCredentials) (refreshToken : string)
| CodeGrant (c : OAuthCredentials) (code codeVerifier : string).

Record HttpRequest := {
  reqUrl : string;
  reqMethod : string;
  reqHeaders : JsMap.t string;
  reqBody : option string
}.

Record HttpResponse := {
  hrStatus : Z;
  hrText : string
}.

(** [requestUrl], by what it is asked for. *)
Record Net (S : Type) := {
  tokenRequest : TokenGrant -> S -> Outcome TokenResponse * S;
  revokeRequest : string -> S -> Outcome unit * S;
  requestUrl : HttpRequest -> S -> Outcome HttpResponse * S
}.
Arguments tokenRequest {S} _ _ _.
Arguments revokeRequest {S} _ _ _.
Arguments requestUrl {S} _ _ _.

Definition set_accessToken (s : GSyncSettings) (v : string) : GSyncSettings := {|
  clientId := clientId s; clientSecret := clientSecret s;
  accessToken := v; refreshToken := refreshToken s; tokenExpiry := tokenExpiry s;
  syncFolderId := syncFolderId s; syncFolderName := syncFolderName s;
  autoSync := autoSync s; autoSyncInterval := autoSyncInterval s;
  conflictResolution := conflictResolution s;
  syncOnStartup := syncOnStartup s; syncOnSave := syncOnSave s;
  excludedFolders := excludedFolders s; excludedExtensions := excludedExtensions s;
  includeHiddenFiles := includeHiddenFiles s;
  lastSyncTime := lastSyncTime s; debugMode := debugMode s
|}.

Definition set_refreshToken (s : GSyncSettings) (v : string) : GSyncSettings := {|
  clientId := clientId s; clientSecret := clientSecret s;
  accessToken := accessToken s; refreshToken := v; tokenExpiry := tokenExpiry s;
  syncFolderId := syncFolderId s; syncFolderName := syncFolderName s;
  autoSync := autoSync s; autoSyncInterval := autoSyncInterval s;
  conflictResolution := conflictResolution s;
  syncOnStartup := syncOnStartup s; syncOnSave := syncOnSave s;
  excludedFolders := excludedFolders s; excludedExtensions := excludedExtensions s;
  includeHiddenFiles := includeHiddenFiles s;
  lastSyncTime := lastSyncTime s; debugMode := debugMode s
|}.

Definition set_tokenExpiry (s : GSyncSettings) (v : Z) : GSyncSettings := {|
  clientId := clientId s; clientSecret := clientSecret s;
  accessToken := accessToken s; refreshToken := refreshToken s; tokenExpiry := v;
  syncFolderId := syncFolderId s; syncFolderName := syncFolderName s;
  autoSync := autoSync s; autoSyncInterval := autoSyncInterval s;
  conflictResolution := conflictResolution s;
  syncOnStartup := syncOnStartup s; syncOnSave := syncOnSave s;
  excludedFolders := excludedFolders s; excludedExtensions := excludedExtensions s;
  includeHiddenFiles := includeHiddenFiles s;
  lastSyncTime := lastSyncTime s; debugMode := debugMode s
|}.

(** The settings without the two fields a token refresh may write. *)
Definition forgetAccess (s : GSyncSettings) : GSyncSettings :=
  set_accessToken (set_tokenExpiry s 0) "".

Section Auth.

Context {S : Type}.
Variable env : Env S.
Variable net : Net S.

(** A request: answered by the network, which may change with it. *)
Definition request {A} (r : S -> Outcome A * S) : M (S := S) A :=
  fun w =>
    match r (ext w) with
    | (o, s') => (o, Build_World (settings w) (isSyncing w) (trace w) s')
    end.

(** [settings.f = v] *)
Definition assign (f : GSyncSettings -> GSyncSettings) : M (S := S) unit :=
  s <- gets settings ;; setSettings (f s).

Definition refreshAccessToken (credentials : option OAuthCredentials)
    : M (S := S) bool :=
  s <- gets settings ;;
  match credentials with
  | None => ret false
  | Some c =>
      if String.eqb (refreshToken s) "" then ret false
      else
        tryCatch
          (response <- request (tokenRequest net (RefreshGrant c (refreshToken s))) ;;
           if negb (trStatus response =? 200) then ret false
           else
             assign (fun s => set_accessToken s (trAccessToken response)) ;;
             t <- now env ;;
             assign (fun s => set_tokenExpiry s (t + trExpiresIn response * 1000)) ;;
             saveSettings env ;;
             ret true)
          (fun error =>
             consoleErrorWith "Failed to refresh access token:" error ;;
             ret false)
  end.

Definition getValidAccessToken (credentials : option OAuthCredentials)
    : M (S := S) (option string) :=
  s <- gets settings ;;
  if String.eqb (accessToken s) "" then ret None
  else
    t <- now env ;;
    if t >=? tokenExpiry s - 300000 then
      refreshed <- refreshAccessToken credentials ;;
      if negb refreshed then ret None
      else s' <- gets settings ;; ret (Some (accessToken s'))
    else s' <- gets settings ;; ret (Some (accessToken s')).

Definition exchangeCodeForTokens (c : OAuthCredentials) (code codeVerifier : string)
    : M (S := S) unit :=
  response <- request (tokenRequest net (CodeGrant c code codeVerifier)) ;;
  if negb (trStatus response =? 200) then
    consoleError ("Token exchange failed: " ++ StrOps.ofZ (trStatus response)) ;;
    throw "Failed to exchange code for tokens"
  else
    assign (fun s => set_accessToken s (trAccessToken response)) ;;
    assign (fun s =>
              match usableId (trRefreshToken response) with
              | Some r => set_refreshToken s r
              | None => set_refreshToken s (refreshToken s)
              end) ;;
    t <- now env ;;
    assign (fun s => set_tokenExpiry s (t + trExpiresIn response * 1000)) ;;
    saveSettings env ;;
    notice "Successfully connected to Google Drive!".

(** [completeAuthFlow]: the result and the new value of
    [this.codeVerifier]. *)
Definition completeAuthFlow (credentials : option OAuthCredentials)
    (codeVerifier : option string) (code : string)
    : M (S := S) (bool * option string) :=
  match credentials with
  | None =>
      notice "Please configure your Google OAuth credentials first" ;;
      ret (false, codeVerifier)
  | Some c =>
      match usableId codeVerifier with
      | None =>
          notice "Please start the authentication flow first" ;;
          ret (false, codeVerifier)
      | Some v =>
          tryCatch
            (exchangeCodeForTokens c code v ;; ret (true, None))
            (fun error =>
               consoleErrorWith "Auth flow error:" error ;;
               notice "Authentication failed. Please try again." ;;
               ret (false, None))
      end
  end.

Definition revokeAccess : M (S := S) unit :=
  s <- gets settings ;;
  (if negb (String.eqb (accessToken s) "")
   then tryCatch (request (revokeRequest net (accessToken s))) (fun _ => ret tt)
   else ret tt) ;;
  assign (fun s => set_accessToken s "") ;;
  assign (fun s => set_refreshToken s "") ;;
  assign (fun s => set_tokenExpiry s 0) ;;
  assign (fun s => set_syncFolderId s "") ;;
  saveSettings env ;;
  notice "Disconnected from Google Drive".

(** *** googleDrive.ts: requests *)

Definition getAccessToken (credentials : option OAuthCredentials)
    : M (S := S) string :=
  token <- getValidAccessToken credentials ;;
  match usableId token with
  | None => throw "Not authenticated with Google Drive"
  | Some t => ret t
  end.

Definition makeRequest (credentials : option OAuthCredentials)
    (url method : string) (body : option string) (headers : JsMap.t string)
    (contentType : option string) : M (S := S) HttpResponse :=
  token <- getAccessToken credentials ;;
  let requestHeaders :=
    JsMap.setAll [("Authorization", "Bearer " ++ token)] headers in
  let requestHeaders :=
    match usableId contentType with
    | Some ct => JsMap.set requestHeaders "Content-Type" ct
    | None => requestHeaders
    end in
  response <- request (requestUrl net
                         {| reqUrl := url; reqMethod := method;
                            reqHeaders := requestHeaders; reqBody := body |}) ;;
  if hrStatus response >=? 400 then
    consoleError ("Drive API error: " ++ StrOps.ofZ (hrStatus response) ++ " "
                  ++ hrText response) ;;
    throw ("Drive API error: " ++ StrOps.ofZ (hrStatus response))
  else ret response.

End Auth.

(** *** googleDrive.ts: listAllFiles

    [listFiles] answers one page and the token of the next. The loop is a
    [do ... while (pageToken)]; [fuel] bounds the number of pages asked
    for, and [None] is the answer of a loop that runs out of it. *)

Section Pagination.

Context {S : Type}.
Variable listFiles : string -> option string -> M (S := S) (list DriveFile * option string).

Fixpoint listAllFilesFrom (fuel : nat) (folderId : string)
    (pageToken : option string) (allFiles : list DriveFile)
    : M (S := S) (option (list DriveFile)) :=
  match fuel with
  | O => ret None
  | Datatypes.S n =>
      result <- listFiles folderId pageToken ;;
      let allFiles := (allFiles ++ fst result)%list in
      match usableId (snd result) with
      | Some next => listAllFilesFrom n folderId (Some next) allFiles
      | None => ret (Some allFiles)
      end
  end.

Definition listAllFiles (fuel : nat) (folderId : string)
    : M (S := S) (option (list DriveFile)) :=
  listAllFilesFrom fuel folderId None [].

End Pagination.

(** A server that answers [page tok] for the page token [tok]: the listing
    that starts at [tok] ends after [n] pages with [files]. *)
Inductive Paged (page : option string -> list DriveFile * option string)
    : option string -> nat -> list DriveFile -> Prop :=
| PagedLast tok :
    usableId (snd (page tok)) = None ->
    Paged page tok 1 (fst (page tok))
| PagedMore tok next n rest :
    usableId (snd (page tok)) = Some next ->
    Paged page (Some next) n rest ->
    Paged page tok (Datatypes.S n) (fst (page tok) ++ rest)%list.

(** ** settingsTab.ts: the comma-separated lists

    The text of the text area and the items made of it are taken as
    sequences of UTF-16 code units, so that [trim] is the one of
    [String.prototype]. *)

Module ListSetting.

Definition Text := list N.

(** White space as [trim] sees it: the code points [WhiteSpace] and
    [LineTerminator] of ECMAScript (tab, line feed, vertical tab, form
    feed, carriage return, space, U+00A0, U+1680, U+2000 to U+200A,
    U+2028, U+2029, U+202F, U+205F, U+3000, U+FEFF). *)
Definition isSpace (c : N) : bool :=
  ((9 <=? c) && (c <=? 13) || (c =? 32) || (c =? 160) || (c =? 5760) ||
   (8192 <=? c) && (c <=? 8202) || (c =? 8232) || (c =? 8233) ||
   (c =? 8239) || (c =? 8287) || (c =? 12288) || (c =? 65279))%N.

Fixpoint trimStart (a : Text) : Text :=
  match a with
  | [] => []
  | c :: r => if isSpace c then trimStart r else a
  end.

Fixpoint trimEnd (a : Text) : Text :=
  match a with
  | [] => []
  | c :: r =>
      match trimEnd r with
      | [] => if isSpace c then [] else [c]
      | r' => c :: r'
      end
  end.

(** [s.trim()] *)
Definition trim (a : Text) : Text := trimEnd (trimStart a).

Definition comma : N := 44.
Definition space : N := 32.

(** [s.split(sep)] for a separator of one code unit: never empty. *)
Fixpoint split (sep : N) (s : Text) : list Text :=
  match s with
  | [] => [[]]
  | c :: r =>
      if (c =? sep)%N then [] :: split sep r
      else match split sep r with
           | [] => [[c]]
           | h :: t => (c :: h) :: t
           end
  end.

(** [parts.join(sep)] *)
Fixpoint join (sep : Text) (parts : list Text) : Text :=
  match parts with
  | [] => []
  | [x] => x
  | x :: r => (x ++ sep ++ join sep r)%list
  end.

(** [s.includes(c)] for one code unit. *)
Definition occurs (c : N) (s : Text) : bool := existsb (N.eqb c) s.

(** [s.length > 0] *)
Definition nonEmpty (s : Text) : bool :=
  match s with
  | [] => false
  | _ :: _ => true
  end.

(** [value.split(',').map(s => s.trim()).filter(s => s.length > 0)] *)
Definition parse (value : Text) : list Text :=
  filter nonEmpty (map trim (split comma value)).

(** [list.join(', ')] *)
Definition show (l : list Text) : Text := join [comma; space] l.

(** An item as [parse] yields them. *)
Definition clean (x : Text) : Prop :=
  x <> [] /\ trim x = x /\ occurs comma x = false.

(** A text that does not start with white space. *)
Definition headOk (a : Text) : Prop :=
  match a with
  | [] => True
  | c :: _ => isSpace c = false
  end.

(** The code units of a text of ASCII characters. *)
Definition units (s : string) : Text :=
  map (fun c => N.of_nat (nat_of_ascii c)) (list_ascii_of_string s).

End ListSetting.

(** The progress reported so far. *)
Definition progressOf {S} (w : World S) : list (option Z * option Z) :=
  progressLog (trace w).

(** [m], started with the counter at [p], reports [p+1], [p+2], ... for at
    most [n] entries, out of [t], and returns the counter unless it
    throws. *)
Definition counts {S} (n : nat) (t p : Z) (m : M (S := S) Z) : Prop :=
  forall w, exists k,
    (k <= n)%nat /\
    progressOf (snd (m w)) = (progressOf w ++ ticks p k t)%list /\
    (fst (m w) = Ok (p + Z.of_nat k) \/ exists e, fst (m w) = Throw e).

(** The calls issued so far. *)
Definition callsOf {S} (w : World S) : list string := callLog (trace w).

(** The state in which "Force Upload All" calls [sync]. *)
Definition forceStart {S} (w : World S) : World S :=
  snd ((s <- gets settings ;;
        setSettings (set_lastSyncTime s 0) ;;
        notice "Starting full upload...") w).

(** The calls that remove something: a local folder, a local file, a
    Drive entry. *)
Definition isDeletion {A} (c : Call A) : bool :=
  match c with
  | AdapterRmdir _ | VaultTrash _ | DriveMoveToTrash _ => true
  | _ => false
  end.

Fixpoint deletions (t : list Event) : list string :=
  match t with
  | [] => []
  | EvCall (Issued c) :: r =>
      if isDeletion c then callName c :: deletions r else deletions r
  | _ :: r => deletions r
  end.

(** The removals issued so far. *)
Definition deleted {S} (w : World S) : list string := deletions (trace w).

(** ** settingsTab.ts: the button "Reset Sync State"

    The handler ends with [this.display()], which redraws the tab and is
    left out. *)

Section SettingsTab.

Context {S : Type}.
Variable env : Env S.

Definition resetSyncState : M (S := S) unit :=
  s <- gets settings ;;
  setSettings (set_lastSyncTime s 0) ;;
  s <- gets settings ;;
  setSettings (set_syncFolderId s "") ;;
  saveSettings env ;;
  notice "Sync state reset. Next sync will be a full sync.".

End SettingsTab.

(** ** More concrete inputs *)

Module Examples.

(** The default settings with one excluded extension. *)
Definition excludeTmp : GSyncSettings :=
  {| clientId := ""; clientSecret := ""; accessToken := ""; refreshToken := "";
     tokenExpiry := 0; syncFolderId := ""; syncFolderName := "ObsidianVault";
     autoSync := false; autoSyncInterval := 30; conflictResolution := CRNewer;
     syncOnStartup := false; syncOnSave := false;
     excludedFolders := [".obsidian"; ".git"; ".trash"];
     excludedExtensions := [".tmp"];
     includeHiddenFiles := false; lastSyncTime := 0; debugMode := false |}.

(** The folder [.obsidian] of [Scenario.worldVault], which holds
    [app.json]. *)
Definition obsidianFolder : FileMetadata :=
  Scenario.file ".obsidian" 0 None None true.

(** A listing of two pages. *)
Definition fileA : DriveFile := Sim.mdFile "id-a" "a.md" 100.
Definition fileB : DriveFile := Sim.mdFile "id-b" "b.md" 400.

Definition twoPages (tok : option string) : list DriveFile * option string :=
  match tok with
  | None => ([fileA], Some "page-2")
  | Some _ => ([fileB], None)
  end.

Definition pagedListFiles (folderId : string) (tok : option string)
    : M (S := unit) (list DriveFile * option string) :=
  ret (twoPages tok).

Definition quietWorld : World unit := Build_World DEFAULT_SETTINGS false [] tt.

(** Two remote files to download; in [Scenario.worldTrashFails] the Drive
    has no content for either. *)
Definition twoDownloads : SyncPlan :=
  {| uploads := []; downloads := [Scenario.remoteX; Scenario.remoteY];
     deleteLocal := []; deleteRemote := []; conflicts := [] |}.

End Examples.

(** * Properties *)

(** ** Maps *)

Module JsMapFacts.

Lemma get_In {V} (m : JsMap.t V) k v :
  JsMap.get m k = Some v -> In (k, v) m.
Proof.
  induction m as [|[k' v'] r IH]; simpl; [discriminate|].
  destruct (String.eqb_spec k k') as [->|Hne].
  - intros [= ->]. now left.
  - intros H. right. auto.
Qed.

Lemma In_get {V} (m : JsMap.t V) k v :
  NoDup (JsMap.keys m) -> In (k, v) m -> JsMap.get m k = Some v.
Proof.
  induction m as [|[k' v'] r IH]; simpl; [tauto|].
  intros Hnd [H|H].
  - inversion H; subst. now rewrite String.eqb_refl.
  - inversion Hnd as [|? ? Hk Hr]; subst.
    destruct (String.eqb_spec k k') as [->|Hne]; [|auto].
    exfalso. apply Hk. change k' with (fst (k', v)). now apply in_map.
Qed.

Lemma has_true {V} (m : JsMap.t V) k :
  JsMap.has m k = true <-> exists v, JsMap.get m k = Some v.
Proof.
  unfold JsMap.has. destruct (JsMap.get m k) as [v|].
  - split; [eauto|reflexivity].
  - split; [discriminate|]. intros [v H]. discriminate.
Qed.

Lemma keys_set {V} (m : JsMap.t V) k v q :
  In q (JsMap.keys (JsMap.set m k v)) <-> q = k \/ In q (JsMap.keys m).
Proof.
  unfold JsMap.keys. induction m as [|[k' v'] r IH]; simpl.
  - intuition.
  - destruct (String.eqb_spec k k') as [->|Hne]; simpl; intuition.
Qed.

Lemma keys_setAll {V} (other m : JsMap.t V) q :
  In q (JsMap.keys (JsMap.setAll m other)) <->
  In q (JsMap.keys m) \/ In q (JsMap.keys other).
Proof.
  unfold JsMap.setAll. revert m.
  induction other as [|[k v] r IH]; intros m; simpl.
  - unfold JsMap.keys. simpl. tauto.
  - rewrite IH, keys_set. unfold JsMap.keys. simpl. intuition.
Qed.

End JsMapFacts.

Lemma single_index_ok (p : string) (f : FileMetadata) :
  path f = p -> index_ok [(p, f)].
Proof.
  intros H. split.
  - repeat constructor. simpl. tauto.
  - intros k v [E|[]]. inversion E; subst. reflexivity.
Qed.

(** An invariant of the accumulator of a [for ... of] loop. *)
Lemma fold_left_invariant {A B} (P : A -> Prop) (f : A -> B -> A) (l : list B) :
  forall a, P a -> (forall a b, In b l -> P a -> P (f a b)) -> P (fold_left f l a).
Proof.
  induction l as [|b r IH]; intros a Ha Hstep; simpl; [exact Ha|].
  apply IH.
  - apply Hstep; [now left|exact Ha].
  - intros a' b' Hb. apply Hstep. now right.
Qed.

(** ** The planner *)

Section PlannerFacts.

Lemma inPlan_pushUpload p plan f :
  inPlan p (pushUpload plan f) <-> inPlan p plan \/ path f = p.
Proof.
  unfold inPlan, planPaths. simpl.
  rewrite map_app, !in_app_iff. simpl. tauto.
Qed.

Lemma inPlan_pushDownload p plan f :
  inPlan p (pushDownload plan f) <-> inPlan p plan \/ path f = p.
Proof.
  unfold inPlan, planPaths. simpl.
  rewrite map_app, !in_app_iff. simpl. tauto.
Qed.

Lemma inPlan_pushDeleteLocal p plan f :
  inPlan p (pushDeleteLocal plan f) <-> inPlan p plan \/ path f = p.
Proof.
  unfold inPlan, planPaths. simpl.
  rewrite map_app, !in_app_iff. simpl. tauto.
Qed.

Lemma inPlan_pushDeleteRemote p plan f :
  inPlan p (pushDeleteRemote plan f) <-> inPlan p plan \/ path f = p.
Proof.
  unfold inPlan, planPaths. simpl.
  rewrite map_app, !in_app_iff. simpl. tauto.
Qed.

Lemma inPlan_pushConflict p plan c :
  inPlan p (pushConflict plan c) <-> inPlan p plan \/ conflictPath c = p.
Proof.
  unfold inPlan, planPaths. simpl.
  rewrite map_app, !in_app_iff. simpl. tauto.
Qed.

(** No two time stamps are each strictly greater than the other. *)
Lemma newer_exclusive (a b : Z) : (a >? b) && (b >? a) = false.
Proof.
  destruct (Z.gtb_spec a b), (Z.gtb_spec b a); simpl; try reflexivity; lia.
Qed.

(** A turn of the first loop on another key leaves [p] out of the plan. *)
Lemma planLocalEntry_other lastSync (L R : Index) plan k lf p :
  index_ok R -> path lf = k -> k <> p ->
  ~ inPlan p plan -> ~ inPlan p (planLocalEntry lastSync R plan (k, lf)).
Proof.
  intros [_ HR] Hlf Hne Hplan. unfold planLocalEntry.
  destruct (JsMap.get R k) as [rf|] eqn:Hget.
  - apply JsMapFacts.get_In, HR in Hget.
    destruct (negb (isFolder lf) && negb (isFolder rf)); [|exact Hplan].
    rewrite newer_exclusive.
    destruct (_ && _).
    + rewrite inPlan_pushUpload. simpl. intuition congruence.
    + destruct (_ && _); [|exact Hplan].
      rewrite inPlan_pushDownload. intuition congruence.
  - destruct (_ || _).
    + rewrite inPlan_pushUpload. intuition congruence.
    + rewrite inPlan_pushDeleteLocal. intuition congruence.
Qed.

Lemma planRemoteEntry_other lastSync (L : Index) plan k rf p :
  path rf = k -> k <> p ->
  ~ inPlan p plan -> ~ inPlan p (planRemoteEntry lastSync L plan (k, rf)).
Proof.
  intros Hrf Hne Hplan. unfold planRemoteEntry.
  destruct (negb (JsMap.has L k)); [|exact Hplan].
  destruct (_ || _).
  - rewrite inPlan_pushDownload. intuition congruence.
  - rewrite inPlan_pushDeleteRemote. intuition congruence.
Qed.

(** The second loop skips every path the local index has. *)
Lemma planRemote_skips_local lastSync (L R : Index) plan p :
  index_ok R -> JsMap.has L p = true ->
  ~ inPlan p plan ->
  ~ inPlan p (fold_left (planRemoteEntry lastSync L) R plan).
Proof.
  intros [_ HR] Hhas Hplan.
  apply fold_left_invariant with (P := fun pl => ~ inPlan p pl); [exact Hplan|].
  intros pl [k rf] Hin Hpl.
  destruct (String.eqb_spec k p) as [->|Hne].
  - unfold planRemoteEntry. rewrite Hhas. exact Hpl.
  - apply planRemoteEntry_other; auto.
Qed.

(** A path on which the first loop pushes nothing is in no category. *)
Lemma untouched_path_not_planned s (L R : Index) p lf :
  index_ok L -> index_ok R ->
  JsMap.get L p = Some lf ->
  (forall plan, planLocalEntry (lastSyncTime s) R plan (p, lf) = plan) ->
  ~ inPlan p (createSyncPlan s L R).
Proof.
  intros HL HR Hl Hskip. unfold createSyncPlan.
  apply planRemote_skips_local; [exact HR| |].
  - apply JsMapFacts.has_true. eauto.
  - destruct HL as [HndL HpL].
    apply fold_left_invariant with (P := fun pl => ~ inPlan p pl).
    + unfold inPlan, planPaths. simpl. tauto.
    + intros pl [k v] Hin Hpl.
      destruct (String.eqb_spec k p) as [->|Hne].
      * apply (JsMapFacts.In_get _ _ _ HndL) in Hin.
        assert (v = lf) by congruence. subst v.
        rewrite Hskip. exact Hpl.
      * apply planLocalEntry_other; auto.
Qed.

End PlannerFacts.

Section PlannerClaims.

(** C8. Whatever the two indices and the watermark, the plan has no
    conflicts: the test [localNewer && remoteNewer] asks for two time
    stamps each strictly greater than the other. *)
Theorem createSyncPlan_conflicts_empty (s : GSyncSettings) (L R : Index) :
  conflicts (createSyncPlan s L R) = [].
Proof.
  unfold createSyncPlan.
  apply fold_left_invariant with (P := fun pl => conflicts pl = []).
  - apply fold_left_invariant with (P := fun pl => conflicts pl = []);
      [reflexivity|].
    intros pl [k lf] _ Hpl. unfold planLocalEntry.
    destruct (JsMap.get R k) as [rf|].
    + destruct (negb (isFolder lf) && negb (isFolder rf)); [|exact Hpl].
      rewrite newer_exclusive.
      destruct (_ && _); [exact Hpl|].
      destruct (_ && _); exact Hpl.
    + destruct (_ || _); exact Hpl.
  - intros pl [k rf] _ Hpl. unfold planRemoteEntry.
    destruct (negb (JsMap.has L k)); [|exact Hpl].
    destruct (_ || _); exact Hpl.
Qed.

(** C6. A path that is a file in both indices with the local [mtime] equal
    to the remote modification time is in no category of the plan,
    whatever the watermark. *)
Theorem equal_mtimes_not_planned (s : GSyncSettings) (L R : Index)
    (p : string) (lf rf : FileMetadata) :
  index_ok L -> index_ok R ->
  JsMap.get L p = Some lf -> JsMap.get R p = Some rf ->
  isFolder lf = false -> isFolder rf = false ->
  mtime lf = orZero (driveMtime rf) ->
  ~ inPlan p (createSyncPlan s L R).
Proof.
  intros HL HR Hl Hr Hlf Hrf Heq.
  apply (untouched_path_not_planned s L R p lf HL HR Hl).
  intros plan. unfold planLocalEntry.
  rewrite Hr, Hlf, Hrf, <- Heq. simpl.
  now rewrite Z.gtb_ltb, Z.ltb_irrefl.
Qed.

(** C9. A path present in both indices where either entry is a folder is
    in no category of the plan. *)
Theorem kind_mismatch_not_planned (s : GSyncSettings) (L R : Index)
    (p : string) (lf rf : FileMetadata) :
  index_ok L -> index_ok R ->
  JsMap.get L p = Some lf -> JsMap.get R p = Some rf ->
  isFolder lf = true \/ isFolder rf = true ->
  ~ inPlan p (createSyncPlan s L R).
Proof.
  intros HL HR Hl Hr Hkind.
  apply (untouched_path_not_planned s L R p lf HL HR Hl).
  intros plan. unfold planLocalEntry. rewrite Hr.
  destruct Hkind as [H|H]; rewrite H; simpl; [reflexivity|].
  now rewrite andb_false_r.
Qed.

End PlannerClaims.

(** C1. Scenario C on the code: watermark 500, local [c.md] modified at
    600, remote [c.md] modified at 700. The plan holds one download and no
    conflict. *)
Theorem scenario_c_plan :
  createSyncPlan Scenario.watermark500
    [("c.md", Scenario.localC)] [("c.md", Scenario.remoteC)]
  = {| uploads := []; downloads := [Scenario.remoteC];
       deleteLocal := []; deleteRemote := []; conflicts := [] |}.
Proof. reflexivity. Qed.

Lemma equal_mtimes_not_planned_witness :
  ~ inPlan "c.md"
      (createSyncPlan Scenario.watermark500
         [("c.md", Scenario.localTie)] [("c.md", Scenario.remoteTie)]).
Proof.
  apply (equal_mtimes_not_planned Scenario.watermark500
           [("c.md", Scenario.localTie)] [("c.md", Scenario.remoteTie)]
           "c.md" Scenario.localTie Scenario.remoteTie).
  - apply single_index_ok. reflexivity.
  - apply single_index_ok. reflexivity.
  - reflexivity.
  - reflexivity.
  - reflexivity.
  - reflexivity.
  - reflexivity.
Defined.

Lemma kind_mismatch_not_planned_witness :
  ~ inPlan "docs"
      (createSyncPlan Scenario.watermark500
         [("docs", Scenario.localNote)] [("docs", Scenario.remoteDir)]).
Proof.
  apply (kind_mismatch_not_planned Scenario.watermark500
           [("docs", Scenario.localNote)] [("docs", Scenario.remoteDir)]
           "docs" Scenario.localNote Scenario.remoteDir).
  - apply single_index_ok. reflexivity.
  - apply single_index_ok. reflexivity.
  - reflexivity.
  - reflexivity.
  - right. reflexivity.
Defined.

(** ** Reasoning about computations *)

Section Preservation.

Context {S X : Type}.
Variable obs : World S -> X.

Lemma preserves_ret {A} (a : A) : preserves obs (ret a).
Proof. intros w. reflexivity. Qed.

Lemma preserves_throw {A} (e : Error) : preserves obs (@throw S A e).
Proof. intros w. reflexivity. Qed.

Lemma preserves_gets {A} (f : World S -> A) : preserves obs (gets f).
Proof. intros w. reflexivity. Qed.

Lemma preserves_bind {A B} (m : M A) (k : A -> M B) :
  preserves obs m -> (forall a, preserves obs (k a)) -> preserves obs (bind m k).
Proof.
  intros Hm Hk w. unfold bind. specialize (Hm w).
  destruct (m w) as [[a|e] w1]; simpl in *.
  - now rewrite Hk.
  - exact Hm.
Qed.

Lemma preserves_tryCatch {A} (body : M A) (handler : Error -> M A) :
  preserves obs body -> (forall e, preserves obs (handler e)) ->
  preserves obs (tryCatch body handler).
Proof.
  intros Hb Hh w. unfold tryCatch. specialize (Hb w).
  destruct (body w) as [[a|e] w1]; simpl in *.
  - exact Hb.
  - now rewrite Hh.
Qed.

Lemma preserves_tryFinally {A} (body : M A) (fin : M unit) :
  preserves obs body -> preserves obs fin -> preserves obs (tryFinally body fin).
Proof.
  intros Hb Hf w. unfold tryFinally. specialize (Hb w).
  destruct (body w) as [r w1]. specialize (Hf w1).
  destruct (fin w1) as [[[]|e] w2]; simpl in *; congruence.
Qed.

Lemma preserves_call (env : Env S) {A} (c : Call A) :
  plugin_only obs -> preserves obs (call env c).
Proof.
  intros Hp w. unfold call.
  destruct (perform env c (ext w)) as [r s']. simpl.
  destruct w as [s b t e]. simpl. apply Hp.
Qed.

Lemma preserves_log (ev : Event) : plugin_only obs -> preserves obs (log ev).
Proof.
  intros Hp w. unfold log, modify. simpl.
  destruct w as [s b t e]. simpl. apply Hp.
Qed.

End Preservation.

(** One step of a preservation proof: split the computation at its
    outermost combinator, or on the value it branches on. *)
Ltac preserve_step :=
  match goal with
  | |- preserves _ (ret _) => apply preserves_ret
  | |- preserves _ (throw _) => apply preserves_throw
  | |- preserves _ (gets _) => apply preserves_gets
  | |- preserves _ (bind _ _) => apply preserves_bind; [|intros ?]
  | |- preserves _ (tryCatch _ _) => apply preserves_tryCatch; [|intros ?]
  | |- preserves _ (tryFinally _ _) => apply preserves_tryFinally
  | |- preserves _ (if ?b then _ else _) => destruct b
  | |- preserves _ (match ?x with _ => _ end) => destruct x
  | |- preserves _ (let _ := _ in _) => cbv zeta
  end.

Section PluginState.

Context {S : Type}.
Variable env : Env S.

Lemma settings_plugin_only : plugin_only (S := S) settings.
Proof. intros s b t t' e e'. reflexivity. Qed.

Lemma watermark_plugin_only :
  plugin_only (S := S) (fun w => lastSyncTime (settings w)).
Proof. intros s b t t' e e'. reflexivity. Qed.

Lemma flag_plugin_only : plugin_only (S := S) isSyncing.
Proof. intros s b t t' e e'. reflexivity. Qed.

End PluginState.

Section PluginOnly.

Context {S X : Type}.
Variable env : Env S.
Variable obs : World S -> X.
Hypothesis obs_plugin : plugin_only obs.

Ltac preserve :=
  unfold notice, consoleError, consoleErrorWith, consoleLog, updateStatus, debugLog,
    saveSettings, now;
  repeat first
    [ preserve_step
    | apply preserves_call; exact obs_plugin
    | apply preserves_log; exact obs_plugin ].

Lemma preserves_uploadFile f : preserves obs (uploadFile env f).
Proof. unfold uploadFile, uploadAttempt. preserve. Qed.

Lemma preserves_downloadFile f : preserves obs (downloadFile env f).
Proof. unfold downloadFile, downloadAttempt. preserve. Qed.

Lemma preserves_deleteLocalFile f : preserves obs (deleteLocalFile env f).
Proof. unfold deleteLocalFile, deleteLocalAttempt. preserve. Qed.

Lemma preserves_deleteRemoteFile f : preserves obs (deleteRemoteFile env f).
Proof. unfold deleteRemoteFile, deleteRemoteAttempt. preserve. Qed.

Lemma preserves_resolveConflict c : preserves obs (resolveConflict env c).
Proof.
  unfold resolveConflict, keepLocalCopy. preserve;
    first [ apply preserves_uploadFile | apply preserves_downloadFile ].
Qed.

Lemma preserves_forEach {A} (items : list A) (body : A -> Z -> M Z) :
  (forall x p, preserves obs (body x p)) ->
  forall p, preserves obs (forEach items body p).
Proof.
  intros Hb. induction items as [|x r IH]; intros p; simpl.
  - apply preserves_ret.
  - apply preserves_bind; [apply Hb|exact IH].
Qed.

Lemma preserves_executeSyncPlan plan L R :
  preserves obs (executeSyncPlan env plan L R).
Proof.
  unfold executeSyncPlan. cbv zeta.
  repeat (apply preserves_bind; [apply preserves_forEach; intros x p|intros ?]).
  - unfold conflictStep. preserve. apply preserves_resolveConflict.
  - unfold uploadStep. preserve. apply preserves_uploadFile.
  - unfold downloadStep. preserve. apply preserves_downloadFile.
  - unfold deleteLocalStep. preserve. apply preserves_deleteLocalFile.
  - unfold deleteRemoteStep. preserve. apply preserves_deleteRemoteFile.
  - apply preserves_ret.
Qed.

Lemma preserves_processFile index f : preserves obs (processFile env index f).
Proof. unfold processFile. preserve. Qed.

Lemma preserves_processFiles files :
  forall index, preserves obs (processFiles env files index).
Proof.
  induction files as [|f r IH]; intros index; simpl.
  - apply preserves_ret.
  - apply preserves_bind; [apply preserves_processFile|exact (fun a => IH a)].
Qed.

Lemma preserves_buildLocalFileIndex : preserves obs (buildLocalFileIndex env).
Proof.
  unfold buildLocalFileIndex. preserve. apply preserves_processFiles.
Qed.

Lemma preserves_indexRemoteNode :
  forall n basePath index, preserves obs (indexRemoteNode env basePath index n).
Proof.
  fix IH 1. intros [file listing] basePath index. simpl.
  destruct (String.eqb (dfMimeType file) FOLDER_MIME); [|apply preserves_ret].
  apply preserves_bind; [|intros ?; apply preserves_ret].
  apply preserves_bind; [apply preserves_call; exact obs_plugin|intros _].
  generalize (@JsMap.empty FileMetadata).
  induction listing as [|n' r IHr]; intros acc.
  - apply preserves_ret.
  - apply preserves_bind; [apply IH|exact (fun a => IHr a)].
Qed.

Lemma preserves_indexRemoteNodes ns :
  forall basePath acc, preserves obs (indexRemoteNodes env basePath ns acc).
Proof.
  induction ns as [|n r IH]; intros basePath acc; simpl.
  - apply preserves_ret.
  - apply preserves_bind; [apply preserves_indexRemoteNode|intros a; apply IH].
Qed.

Lemma preserves_buildRemoteFileIndex id :
  preserves obs (buildRemoteFileIndex env id).
Proof.
  unfold buildRemoteFileIndex. preserve. apply preserves_indexRemoteNodes.
Qed.

End PluginOnly.

(** ** The exclusion filter and the index builders *)

Section LocalIndex.

Context {S : Type}.
Variable env : Env S.

Lemma processFile_keys index f w idx w' (s : GSyncSettings) :
  settings w = s ->
  processFile env index f w = (Ok idx, w') ->
  (forall k, In k (JsMap.keys index) -> shouldExclude s k = false) ->
  forall k, In k (JsMap.keys idx) -> shouldExclude s k = false.
Proof.
  intros Hs Hrun Hidx. unfold processFile, bind, gets in Hrun.
  rewrite Hs in Hrun.
  destruct (shouldExclude s (tfPath f)) eqn:Hex.
  - inversion Hrun; subst. exact Hidx.
  - destruct (call env (AdapterStat (tfPath f)) w) as [[[st|]|e] w1];
      inversion Hrun; subst; [|exact Hidx].
    intros k Hk. apply JsMapFacts.keys_set in Hk as [->|Hk]; auto.
Qed.

Lemma processFiles_keys files :
  forall index w idx w' (s : GSyncSettings),
    settings w = s ->
    processFiles env files index w = (Ok idx, w') ->
    (forall k, In k (JsMap.keys index) -> shouldExclude s k = false) ->
    forall k, In k (JsMap.keys idx) -> shouldExclude s k = false.
Proof.
  induction files as [|f r IH]; intros index w idx w' s Hs Hrun Hidx; simpl in Hrun.
  - inversion Hrun; subst. exact Hidx.
  - unfold bind in Hrun.
    destruct (processFile env index f w) as [[index1|e] w1] eqn:Hf; [|discriminate].
    assert (Hs1 : settings w1 = s).
    { rewrite <- Hs. change w1 with (snd (Ok index1, w1)). rewrite <- Hf.
      apply (preserves_processFile env settings settings_plugin_only). }
    apply (IH index1 w1 idx w' s Hs1 Hrun).
    exact (processFile_keys index f w index1 w1 s Hs Hf Hidx).
Qed.

Lemma processFolder_keys s index fp fn :
  (forall k, In k (JsMap.keys index) -> shouldExclude s k = false) ->
  forall k, In k (JsMap.keys (processFolder s index fp fn)) ->
            shouldExclude s k = false.
Proof.
  intros Hidx k. unfold processFolder.
  destruct (shouldExclude s fp) eqn:Hex; [apply Hidx|].
  destruct (negb (String.eqb fp "/")); [|apply Hidx].
  intros Hk. apply JsMapFacts.keys_set in Hk as [->|Hk]; auto.
Qed.

Lemma processAllFolders_keys s :
  forall folder index,
    (forall k, In k (JsMap.keys index) -> shouldExclude s k = false) ->
    forall k, In k (JsMap.keys (processAllFolders s index folder)) ->
              shouldExclude s k = false.
Proof.
  fix IH 1. intros [fp fn children] index Hidx. simpl.
  generalize (processFolder s index fp fn) (processFolder_keys s index fp fn Hidx).
  induction children as [|[f|d] r IHr]; intros acc Hacc.
  - exact Hacc.
  - apply IHr. exact Hacc.
  - apply IHr. apply IH. exact Hacc.
Qed.

(** The local half of exclusion: no key of the local index is a path the
    filter excludes. *)
Theorem local_index_has_no_excluded_path (w : World S) idx w' :
  buildLocalFileIndex env w = (Ok idx, w') ->
  forall k, In k (JsMap.keys idx) -> shouldExclude (settings w) k = false.
Proof.
  unfold buildLocalFileIndex, bind, gets. intros Hrun.
  destruct (call env VaultGetFiles w) as [[allFiles|e] w1] eqn:H1; [|discriminate].
  assert (Hs1 : settings w1 = settings w).
  { change w1 with (snd (Ok allFiles, w1)). rewrite <- H1.
    apply (preserves_call settings env VaultGetFiles settings_plugin_only). }
  destruct (processFiles env allFiles JsMap.empty w1) as [[index|e] w2] eqn:H2;
    [|discriminate].
  assert (Hs2 : settings w2 = settings w).
  { rewrite <- Hs1. change w2 with (snd (Ok index, w2)). rewrite <- H2.
    apply (preserves_processFiles env settings settings_plugin_only). }
  destruct (call env VaultGetRoot w2) as [[root|e] w3] eqn:H3; [|discriminate].
  assert (Hs3 : settings w3 = settings w).
  { rewrite <- Hs2. change w3 with (snd (Ok root, w3)). rewrite <- H3.
    apply (preserves_call settings env VaultGetRoot settings_plugin_only). }
  inversion Hrun; subst. rewrite Hs3.
  apply processAllFolders_keys.
  eapply processFiles_keys; [exact Hs1|exact H2|].
  intros k [].
Qed.

End LocalIndex.

(** C2. The remote index of a tree that holds [.obsidian/workspace.json],
    under the default filters: both excluded paths are keys of the index,
    and a first run plans to download them. *)
Theorem remote_index_keeps_excluded_paths :
  shouldExclude Scenario.connectedDefaults ".obsidian/workspace.json" = true /\
  fst (buildRemoteFileIndex Sim.env "root-id" Scenario.worldWithObsidian)
  = Ok [ (".obsidian", Scenario.remoteObsidianFolder);
         (".obsidian/workspace.json", Scenario.remoteWorkspace) ] /\
  downloads
    (createSyncPlan Scenario.connectedDefaults []
       [ (".obsidian", Scenario.remoteObsidianFolder);
         (".obsidian/workspace.json", Scenario.remoteWorkspace) ])
  = [ Scenario.remoteObsidianFolder; Scenario.remoteWorkspace ].
Proof. repeat split; reflexivity. Qed.

(** ** The executor *)

Section ExecutorFacts.

Context {S : Type}.
Variable env : Env S.

Lemma succeeds_ret {A} (a : A) : succeeds (S := S) (ret a).
Proof. intros w. now exists a. Qed.

Lemma succeeds_log ev : succeeds (S := S) (log ev).
Proof. intros w. now exists tt. Qed.

(** A [catch] block that never throws makes the whole [try] statement
    safe. *)
Lemma succeeds_tryCatch {A} (body : M A) (handler : Error -> M A) :
  (forall e, succeeds (S := S) (handler e)) -> succeeds (S := S) (tryCatch body handler).
Proof.
  intros Hh w. unfold tryCatch.
  destruct (body w) as [[a|e] w1].
  - now exists a.
  - apply Hh.
Qed.

Lemma succeeds_bind {A B} (m : M A) (k : A -> M B) :
  succeeds (S := S) m -> (forall a, succeeds (S := S) (k a)) -> succeeds (S := S) (bind m k).
Proof.
  intros Hm Hk w. unfold bind. destruct (Hm w) as [a Ha].
  destruct (m w) as [[a'|e] w1]; simpl in Ha; [|discriminate].
  apply Hk.
Qed.

Lemma deleteLocalFile_succeeds f : succeeds (S := S) (deleteLocalFile env f).
Proof.
  unfold deleteLocalFile, deleteLocalAttempt. apply succeeds_tryCatch.
  intros e. apply succeeds_log.
Qed.

Lemma deleteRemoteFile_succeeds f : succeeds (S := S) (deleteRemoteFile env f).
Proof.
  unfold deleteRemoteFile, deleteRemoteAttempt. destruct (usableId (driveId f)).
  - apply succeeds_tryCatch. intros e. apply succeeds_log.
  - apply succeeds_ret.
Qed.

(** *** Status updates *)

Lemma statusLog_app t1 t2 :
  statusLog (t1 ++ t2) = (statusLog t1 ++ statusLog t2)%list.
Proof.
  induction t1 as [|ev r IH]; simpl; [reflexivity|].
  destruct ev; simpl; now rewrite IH.
Qed.

Lemma status_call {A} (c : Call A) : preserves (S := S) statusOf (call env c).
Proof.
  intros w. unfold call, statusOf.
  destruct (perform env c (ext w)) as [r s']. simpl.
  rewrite statusLog_app. simpl. apply app_nil_r.
Qed.

Lemma status_consoleError msg : preserves (S := S) statusOf (consoleError msg).
Proof.
  intros w. unfold statusOf. simpl. rewrite statusLog_app. apply app_nil_r.
Qed.

Lemma status_consoleErrorWith msg e :
  preserves (S := S) statusOf (consoleErrorWith msg e).
Proof.
  intros w. unfold statusOf. simpl. rewrite statusLog_app. apply app_nil_r.
Qed.

Lemma status_consoleLog msg : preserves (S := S) statusOf (consoleLog msg).
Proof.
  intros w. unfold statusOf. simpl. rewrite statusLog_app. apply app_nil_r.
Qed.

Ltac quiet :=
  unfold debugLog;
  repeat first
    [ preserve_step
    | apply status_call
    | apply status_consoleError
    | apply status_consoleErrorWith
    | apply status_consoleLog ].

Lemma status_deleteLocalFile f :
  preserves (S := S) statusOf (deleteLocalFile env f).
Proof. unfold deleteLocalFile, deleteLocalAttempt. quiet. Qed.

Lemma status_deleteRemoteFile f :
  preserves (S := S) statusOf (deleteRemoteFile env f).
Proof. unfold deleteRemoteFile, deleteRemoteAttempt. quiet. Qed.

Lemma status_updateStatus st (w : World S) :
  statusOf (snd (updateStatus st w)) = (statusOf w ++ [message st])%list.
Proof. unfold statusOf. simpl. now rewrite statusLog_app. Qed.

(** [executeSyncPlan] is the transfer loops followed by the deletion
    loops. *)
Lemma executeSyncPlan_split plan L R w :
  executeSyncPlan env plan L R w =
  match transferLoops env plan w with
  | (Ok p, w1) =>
      match deleteLoops env plan p w1 with
      | (Ok _, w2) => (Ok tt, w2)
      | (Throw e, w2) => (Throw e, w2)
      end
  | (Throw e, w1) => (Throw e, w1)
  end.
Proof.
  unfold executeSyncPlan, transferLoops, deleteLoops. cbv zeta. unfold bind.
  destruct (forEach (conflicts plan) _ 0 w) as [[p1|e] w1]; [|reflexivity].
  destruct (forEach (uploads plan) _ p1 w1) as [[p2|e] w2]; [|reflexivity].
  destruct (forEach (downloads plan) _ p2 w2) as [[p3|e] w3]; [|reflexivity].
  destruct (forEach (deleteLocal plan) _ p3 w3) as [[p4|e] w4]; [|reflexivity].
  destruct (forEach (deleteRemote plan) _ p4 w4) as [[p5|e] w5]; reflexivity.
Qed.

(** A loop stops at the first entry whose step throws. *)
Lemma forEach_stops_at_throw {A} (body : A -> Z -> M (S := S) Z)
    pre x rest p w p' w0 e w1 :
  forEach pre body p w = (Ok p', w0) ->
  body x p' w0 = (Throw e, w1) ->
  forEach (pre ++ x :: rest) body p w = (Throw e, w1).
Proof.
  revert p w. induction pre as [|y r IH]; intros p w Hpre Hx; simpl in *.
  - inversion Hpre; subst. unfold bind. now rewrite Hx.
  - unfold bind in *. destruct (body y p w) as [[q|e'] w']; [|discriminate].
    now apply IH.
Qed.

(** *** What the trace gains *)

Lemma grows_ret {A} (a : A) : grows (S := S) (ret a).
Proof. intros w. exists []. symmetry. apply app_nil_r. Qed.

Lemma grows_throw {A} e : grows (S := S) (@throw S A e).
Proof. intros w. exists []. symmetry. apply app_nil_r. Qed.

Lemma grows_gets {A} (f : World S -> A) : grows (gets f).
Proof. intros w. exists []. symmetry. apply app_nil_r. Qed.

Lemma grows_log ev : grows (S := S) (log ev).
Proof. intros w. now exists [ev]. Qed.

Lemma grows_call {A} (c : Call A) : grows (call env c).
Proof.
  intros w. unfold call. destruct (perform env c (ext w)) as [r s'].
  now exists [EvCall (Issued c)].
Qed.

Lemma grows_bind {A B} (m : M (S := S) A) (k : A -> M B) :
  grows m -> (forall a, grows (k a)) -> grows (bind m k).
Proof.
  intros Hm Hk w. unfold bind. destruct (Hm w) as [t1 H1].
  destruct (m w) as [[a|e] w1]; simpl in H1.
  - destruct (Hk a w1) as [t2 H2]. exists (t1 ++ t2)%list.
    now rewrite H2, H1, app_assoc.
  - now exists t1.
Qed.

Lemma grows_tryCatch {A} (body : M (S := S) A) (handler : Error -> M A) :
  grows body -> (forall e, grows (handler e)) -> grows (tryCatch body handler).
Proof.
  intros Hb Hh w. unfold tryCatch. destruct (Hb w) as [t1 H1].
  destruct (body w) as [[a|e] w1]; simpl in H1.
  - now exists t1.
  - destruct (Hh e w1) as [t2 H2]. exists (t1 ++ t2)%list.
    now rewrite H2, H1, app_assoc.
Qed.

Ltac grow :=
  unfold notice, consoleError, consoleErrorWith, consoleLog, updateStatus,
    debugLog, now;
  repeat first
    [ apply grows_ret | apply grows_throw | apply grows_gets
    | apply grows_log | apply grows_call
    | apply grows_bind; [|intros ?]
    | apply grows_tryCatch; [|intros ?]
    | match goal with
      | |- grows (if ?b then _ else _) => destruct b
      | |- grows (match ?x with _ => _ end) => destruct x
      end ].

Lemma grows_deleteLocalFile f : grows (deleteLocalFile env f).
Proof. unfold deleteLocalFile, deleteLocalAttempt. grow. Qed.

Lemma grows_deleteRemoteFile f : grows (deleteRemoteFile env f).
Proof. unfold deleteRemoteFile, deleteRemoteAttempt. grow. Qed.

(** A computation that starts with the call [c]. *)
Lemma call_first {A B} (c : Call A) (k : A -> M (S := S) B) :
  (forall a, grows (k a)) ->
  forall w, exists t,
    trace (snd ((x <- call env c ;; k x)%comp w))
    = (trace w ++ EvCall (Issued c) :: t)%list.
Proof.
  intros Hk w. unfold bind, call.
  destruct (perform env c (ext w)) as [[a|e] s1]; cbn [snd trace].
  - destruct (Hk a (Build_World (settings w) (isSyncing w)
                      (trace w ++ [EvCall (Issued c)]) s1)) as [t Ht].
    exists t. rewrite Ht. cbn [trace]. now rewrite <- app_assoc.
  - exists []. reflexivity.
Qed.

(** Whatever comes after a computation leaves what it has added. *)
Lemma first_event_kept {A B} ev (m : M (S := S) A) (k : A -> M B) :
  (forall w, exists t, trace (snd (m w)) = (trace w ++ ev :: t)%list) ->
  (forall a, grows (k a)) ->
  forall w, exists t, trace (snd (bind m k w)) = (trace w ++ ev :: t)%list.
Proof.
  intros Hm Hk w. unfold bind. destruct (Hm w) as [t1 H1].
  destruct (m w) as [[a|e] w1]; cbn [snd] in H1.
  - destruct (Hk a w1) as [t2 H2]. exists (t1 ++ t2)%list.
    rewrite H2, H1, <- app_assoc. reflexivity.
  - now exists t1.
Qed.

Lemma first_event_caught {A} ev (body : M (S := S) A) (handler : Error -> M A) :
  (forall w, exists t, trace (snd (body w)) = (trace w ++ ev :: t)%list) ->
  (forall e, grows (handler e)) ->
  forall w, exists t,
    trace (snd (tryCatch body handler w)) = (trace w ++ ev :: t)%list.
Proof.
  intros Hb Hh w. unfold tryCatch. destruct (Hb w) as [t1 H1].
  destruct (body w) as [[a|e] w1]; cbn [snd] in H1.
  - now exists t1.
  - destruct (Hh e w1) as [t2 H2]. exists (t1 ++ t2)%list.
    rewrite H2, H1, <- app_assoc. reflexivity.
Qed.

(** Every local deletion starts by asking whether the path exists. *)
Lemma deleteLocalFile_attempts f w :
  exists t,
    trace (snd (deleteLocalFile env f w))
    = (trace w ++ EvCall (Issued (AdapterExists (path f))) :: t)%list.
Proof.
  unfold deleteLocalFile, deleteLocalAttempt.
  apply first_event_caught; [|intros e; grow].
  apply first_event_kept; [|intros a; grow].
  destruct (isFolder f); apply call_first; intros a; grow.
Qed.

(** Every remote deletion of an entry with an id asks the Drive to trash
    it. *)
Lemma deleteRemoteFile_attempts f id w :
  usableId (driveId f) = Some id ->
  exists t,
    trace (snd (deleteRemoteFile env f w))
    = (trace w ++ EvCall (Issued (DriveMoveToTrash id)) :: t)%list.
Proof.
  intros Hid. unfold deleteRemoteFile, deleteRemoteAttempt. rewrite Hid.
  apply first_event_caught; [|intros e; grow].
  apply call_first. intros a. grow.
Qed.

(** A loop of deletions runs to its end, announces every entry and
    attempts every entry. *)
Lemma delete_loop_attempts (label : string)
    (step : FileMetadata -> Z -> M (S := S) Z) (del : FileMetadata -> M unit)
    (attempt : FileMetadata -> Event -> Prop) total :
  (forall f p, step f p =
     (updateStatus (statusProgress (label ++ path f) (p + 1) total) ;;
      del f ;; ret (p + 1))%comp) ->
  (forall f, succeeds (S := S) (del f)) ->
  (forall f, preserves (S := S) statusOf (del f)) ->
  (forall f, grows (del f)) ->
  (forall f ev w, attempt f ev ->
     exists t, trace (snd (del f w)) = (trace w ++ ev :: t)%list) ->
  forall items p w, exists p' w' t,
    forEach items step p w = (Ok p', w') /\
    trace w' = (trace w ++ t)%list /\
    statusLog t = map (fun f => (label ++ path f)%string) items /\
    forall f ev, In f items -> attempt f ev -> In ev t.
Proof.
  intros Hstep Hsafe Hquiet Hgrows Hatt.
  induction items as [|f r IH]; intros p w; simpl.
  - exists p, w, []. repeat split; [symmetry; apply app_nil_r|]. intros f ev [].
  - rewrite Hstep. unfold bind at 1. unfold bind at 1.
    set (w0 := snd (updateStatus (statusProgress (label ++ path f) (p + 1) total) w)).
    change (updateStatus (statusProgress (label ++ path f) (p + 1) total) w)
      with (@Ok unit tt, w0).
    cbv iota beta. unfold bind at 1.
    destruct (Hsafe f w0) as [[] Hok]. pose proof (Hquiet f w0) as Hq.
    assert (Hgrow : exists t, trace (snd (del f w0)) = (trace w0 ++ t)%list /\
                      forall ev, attempt f ev -> In ev t).
    { destruct (Hgrows f w0) as [t Ht]. exists t. split; [exact Ht|].
      intros ev Hev. destruct (Hatt f ev w0 Hev) as [t' Ht'].
      rewrite Ht in Ht'. apply app_inv_head in Ht'. subst t. now left. }
    destruct Hgrow as (t1 & Ht1 & Hin1).
    destruct (del f w0) as [[[]|e] w1]; cbn [fst snd] in *; [|discriminate].
    unfold ret at 1.
    destruct (IH (p + 1) w1) as (p' & w' & t2 & Hrun & Htr & Hst & Hin2).
    exists p', w', (EvStatus (statusProgress (label ++ path f) (p + 1) total)
                      :: t1 ++ t2)%list.
    split; [exact Hrun|]. split; [|split].
    + rewrite Htr, Ht1. unfold w0. cbn [updateStatus log modify snd trace].
      rewrite <- !app_assoc. reflexivity.
    + cbn [statusLog map message statusProgress]. f_equal.
      rewrite statusLog_app, Hst.
      assert (Hnil : statusLog t1 = []).
      { unfold statusOf in Hq. rewrite Ht1, statusLog_app in Hq.
        rewrite <- (app_nil_r (statusLog (trace w0))) in Hq at 2.
        now apply app_inv_head in Hq. }
      now rewrite Hnil.
    + intros g ev [<-|Hg] Hev.
      * right. apply in_or_app. left. now apply Hin1.
      * right. apply in_or_app. right. now apply (Hin2 g).
Qed.

End ExecutorFacts.

(** ** The session *)

Section SessionFacts.

Context {S : Type}.
Variable env : Env S.

Lemma preserves_store_folder_id folderId :
  preserves (S := S) watermark
    (s <- gets settings ;;
     setSettings (set_syncFolderId s folderId) ;;
     saveSettings env)%comp.
Proof.
  intros w. unfold bind at 1. unfold gets at 1. unfold bind at 1.
  unfold setSettings at 1, modify at 1.
  set (w1 := Build_World _ _ _ _).
  change (watermark w) with (watermark w1).
  unfold saveSettings.
  apply (preserves_bind (S := S) watermark); [apply preserves_gets|intros s].
  apply preserves_call. exact watermark_plugin_only.
Qed.

Lemma preserves_syncPhases : preserves (S := S) watermark (syncPhases env).
Proof.
  unfold syncPhases.
  apply preserves_bind; [apply preserves_gets|intros s].
  apply preserves_bind.
  - destruct (String.eqb (syncFolderId s) ""); [|apply preserves_ret].
    apply preserves_bind; [apply preserves_log; exact watermark_plugin_only|intros _].
    apply preserves_bind; [apply preserves_call; exact watermark_plugin_only|intros id].
    apply preserves_store_folder_id.
  - intros _.
    apply preserves_bind; [apply preserves_log; exact watermark_plugin_only|intros _].
    apply preserves_bind;
      [apply preserves_buildLocalFileIndex; exact watermark_plugin_only|intros li].
    apply preserves_bind; [apply preserves_log; exact watermark_plugin_only|intros _].
    apply preserves_bind; [apply preserves_gets|intros s1].
    apply preserves_bind;
      [apply preserves_buildRemoteFileIndex; exact watermark_plugin_only|intros ri].
    apply preserves_bind; [apply preserves_log; exact watermark_plugin_only|intros _].
    apply preserves_bind; [apply preserves_gets|intros s2].
    apply preserves_executeSyncPlan. exact watermark_plugin_only.
Qed.

Lemma preserves_syncFailed e : preserves (S := S) watermark (syncFailed e).
Proof.
  unfold syncFailed, consoleError, consoleErrorWith, updateStatus, notice.
  repeat (apply preserves_bind; [|intros _]);
    apply preserves_log; exact watermark_plugin_only.
Qed.

(** [syncCommit] stores the value of [Date.now()] it reads, whether or not
    saving the settings succeeds afterwards. *)
Lemma syncCommit_watermark w :
  watermark (snd (syncCommit env w)) = dateNow env (ext w).
Proof.
  unfold syncCommit. unfold bind at 1. unfold now at 1, gets at 1.
  unfold bind at 1. unfold gets at 1. unfold bind at 1.
  unfold setSettings at 1, modify at 1.
  set (w1 := Build_World _ _ _ _).
  change (dateNow env (ext w)) with (watermark w1).
  apply (preserves_bind (S := S) watermark).
  - unfold saveSettings.
    apply preserves_bind; [apply preserves_gets|intros s].
    apply preserves_call. exact watermark_plugin_only.
  - intros _. unfold updateStatus, notice.
    apply preserves_bind; [|intros _]; apply preserves_log;
      exact watermark_plugin_only.
Qed.

(** The three ways through [sync]. *)
Lemma sync_unfold w :
  sync env w =
  if isSyncing w then notice "Sync already in progress" w
  else if negb (authenticatedAt (settings w) (dateNow env (ext w)))
       then notice "Please authenticate with Google Drive first" w
       else tryFinally
              (tryCatch (syncPhases env ;; syncCommit env)%comp syncFailed)
              (setIsSyncing false)
              (snd (syncStart w)).
Proof.
  unfold sync, bind at 1, gets at 1.
  destruct (isSyncing w); [reflexivity|].
  unfold bind at 1, isAuthenticated, bind at 1, gets at 1, bind at 1, now, gets at 1, ret at 1.
  destruct (negb (authenticatedAt (settings w) (dateNow env (ext w)))); reflexivity.
Qed.


Lemma tryFinally_settings {A} (body : M (S := S) A) b w :
  settings (snd (tryFinally body (setIsSyncing b) w)) = settings (snd (body w)).
Proof.
  unfold tryFinally. destruct (body w) as [r w1]. reflexivity.
Qed.

(** The watermark after the [try] statement of [sync], started in [w0]. *)
Lemma sync_body_watermark w0 :
  watermark (snd (tryCatch (syncPhases env ;; syncCommit env)%comp syncFailed w0)) =
  match syncPhases env w0 with
  | (Ok _, w1) => dateNow env (ext w1)
  | (Throw _, _) => watermark w0
  end.
Proof.
  unfold tryCatch, bind. pose proof (preserves_syncPhases w0) as Hp.
  destruct (syncPhases env w0) as [[[]|e] w1]; simpl in Hp.
  - pose proof (syncCommit_watermark w1) as Hc.
    destruct (syncCommit env w1) as [[[]|e] w2]; simpl in Hc.
    + exact Hc.
    + rewrite preserves_syncFailed. exact Hc.
  - rewrite preserves_syncFailed. exact Hp.
Qed.

End SessionFacts.

(** ** The executor and the session under failures *)

Section ExecutorClaims.

Context {S : Type}.
Variable env : Env S.

Lemma deleteLoops_attempt plan p w :
  exists p' w' t,
    deleteLoops env plan p w = (Ok p', w') /\
    trace w' = (trace w ++ t)%list /\
    statusLog t =
      (map (fun f => ("Deleting local: " ++ path f)%string) (deleteLocal plan)
       ++ map (fun f => ("Deleting remote: " ++ path f)%string) (deleteRemote plan))%list /\
    (forall f, In f (deleteLocal plan) ->
       In (EvCall (Issued (AdapterExists (path f)))) t) /\
    (forall f id, In f (deleteRemote plan) -> usableId (driveId f) = Some id ->
       In (EvCall (Issued (DriveMoveToTrash id))) t).
Proof.
  unfold deleteLoops. cbv zeta. unfold bind.
  destruct (delete_loop_attempts "Deleting local: "
              (deleteLocalStep env (planTotal plan)) (deleteLocalFile env)
              (fun f ev => ev = EvCall (Issued (AdapterExists (path f))))
              (planTotal plan) (fun f p => eq_refl)
              (deleteLocalFile_succeeds env) (status_deleteLocalFile env))
    with (items := deleteLocal plan) (p := p) (w := w)
    as (p1 & w1 & t1 & H1 & T1 & S1 & A1).
  { apply grows_deleteLocalFile. }
  { intros f ev w0 ->. apply deleteLocalFile_attempts. }
  rewrite H1.
  destruct (delete_loop_attempts "Deleting remote: "
              (deleteRemoteStep env (planTotal plan)) (deleteRemoteFile env)
              (fun f ev => exists id, usableId (driveId f) = Some id /\
                                      ev = EvCall (Issued (DriveMoveToTrash id)))
              (planTotal plan) (fun f p => eq_refl)
              (deleteRemoteFile_succeeds env) (status_deleteRemoteFile env))
    with (items := deleteRemote plan) (p := p1) (w := w1)
    as (p2 & w2 & t2 & H2 & T2 & S2 & A2).
  { apply grows_deleteRemoteFile. }
  { intros f ev w0 (id & Hid & ->). now apply deleteRemoteFile_attempts. }
  exists p2, w2, (t1 ++ t2)%list.
  split; [exact H2|]. split; [now rewrite T2, T1, app_assoc|].
  split; [now rewrite statusLog_app, S1, S2|]. split.
  - intros f Hf. apply in_or_app. left. now apply (A1 f).
  - intros f id Hf Hid. apply in_or_app. right. apply (A2 f); [exact Hf|].
    now exists id.
Qed.

(** A step whose transfer throws, throws. *)
Lemma conflictStep_throws total c p (w0 : World S) e w1 :
  resolveConflict env c
    (snd (updateStatus
            (statusProgress ("Resolving conflict: " ++ conflictPath c) (p + 1) total) w0))
  = (Throw e, w1) ->
  conflictStep env total c p w0 = (Throw e, w1).
Proof.
  intros H. unfold conflictStep. cbv zeta. unfold bind at 1.
  change (updateStatus (statusProgress ("Resolving conflict: " ++ conflictPath c)
                          (p + 1) total) w0)
    with (@Ok unit tt,
          snd (updateStatus (statusProgress ("Resolving conflict: " ++ conflictPath c)
                               (p + 1) total) w0)).
  cbv iota beta. unfold bind at 1. now rewrite H.
Qed.

Lemma uploadStep_throws total f p (w0 : World S) e w1 :
  isFolder f = false ->
  uploadFile env f
    (snd (updateStatus (statusProgress ("Uploading: " ++ path f) (p + 1) total) w0))
  = (Throw e, w1) ->
  uploadStep env total f p w0 = (Throw e, w1).
Proof.
  intros Hf H. unfold uploadStep. rewrite Hf. cbv zeta. unfold bind at 1.
  change (updateStatus (statusProgress ("Uploading: " ++ path f) (p + 1) total) w0)
    with (@Ok unit tt,
          snd (updateStatus (statusProgress ("Uploading: " ++ path f) (p + 1) total) w0)).
  cbv iota beta. unfold bind at 1. now rewrite H.
Qed.

Lemma downloadStep_throws total f p (w0 : World S) e w1 :
  isFolder f = false ->
  downloadFile env f
    (snd (updateStatus (statusProgress ("Downloading: " ++ path f) (p + 1) total) w0))
  = (Throw e, w1) ->
  downloadStep env total f p w0 = (Throw e, w1).
Proof.
  intros Hf H. unfold downloadStep. rewrite Hf. cbv zeta. unfold bind at 1.
  change (updateStatus (statusProgress ("Downloading: " ++ path f) (p + 1) total) w0)
    with (@Ok unit tt,
          snd (updateStatus (statusProgress ("Downloading: " ++ path f) (p + 1) total) w0)).
  cbv iota beta. unfold bind at 1. now rewrite H.
Qed.

(** C3. Failures during [executeSyncPlan].

    Deletions: whatever the [try] block of [deleteLocalFile] or
    [deleteRemoteFile] throws is caught, handed to [console.error] with
    the path, and not thrown again; once the conflict, upload and download
    loops are through, [executeSyncPlan] returns normally, and every entry
    of [deleteLocal] and [deleteRemote] has been announced and attempted
    (the first call of its deletion has been issued).

    Transfers: whatever the [try] block of [uploadFile] or [downloadFile]
    throws is caught, handed to [console.error] with the path, and thrown
    again; [resolveConflict] ends as the transfer it makes ends; and the
    first conflict, upload or download that throws ends [executeSyncPlan]
    with that exception, in the state of the throw, so that no later
    entry is attempted. *)
Theorem executeSyncPlan_failure_handling (plan : SyncPlan) (L R : Index)
    (w : World S) :
  (forall f w0,
     match deleteLocalAttempt env f w0 with
     | (Ok _, w1) => deleteLocalFile env f w0 = (Ok tt, w1)
     | (Throw e, w1) =>
         deleteLocalFile env f w0
         = (Ok tt,
            snd (consoleErrorWith ("Failed to delete local " ++ path f ++ ":") e w1))
     end) /\
  (forall f w0,
     match usableId (driveId f) with
     | None => deleteRemoteFile env f w0 = (Ok tt, w0)
     | Some id =>
         match deleteRemoteAttempt env id f w0 with
         | (Ok _, w1) => deleteRemoteFile env f w0 = (Ok tt, w1)
         | (Throw e, w1) =>
             deleteRemoteFile env f w0
             = (Ok tt,
                snd (consoleErrorWith ("Failed to delete remote " ++ path f ++ ":")
                       e w1))
         end
     end) /\
  (forall f w0 e w1,
     uploadAttempt env f w0 = (Throw e, w1) ->
     uploadFile env f w0
     = (Throw e,
        snd (consoleErrorWith ("Failed to upload " ++ path f ++ ":") e w1))) /\
  (forall f id w0 e w1,
     usableId (driveId f) = Some id ->
     downloadAttempt env id f w0 = (Throw e, w1) ->
     downloadFile env f w0
     = (Throw e,
        snd (consoleErrorWith ("Failed to download " ++ path f ++ ":") e w1))) /\
  (forall c w0,
     resolveConflict env c w0 =
     match conflictResolution (settings w0) with
     | CRLocal => uploadFile env (localFile c) w0
     | CRRemote => downloadFile env (remoteFile c) w0
     | CRNewer =>
         if mtime (localFile c) >? orZero (driveMtime (remoteFile c))
         then uploadFile env (localFile c) w0
         else downloadFile env (remoteFile c) w0
     | CRAsk =>
         match keepLocalCopy env c w0 with
         | (Ok _, w1) => downloadFile env (remoteFile c) w1
         | (Throw e, w1) => (Throw e, w1)
         end
     end) /\
  (forall pre c rest p w0 e w1,
     conflicts plan = (pre ++ c :: rest)%list ->
     forEach pre (conflictStep env (planTotal plan)) 0 w = (Ok p, w0) ->
     resolveConflict env c
       (snd (updateStatus
               (statusProgress ("Resolving conflict: " ++ conflictPath c) (p + 1)
                  (planTotal plan)) w0))
     = (Throw e, w1) ->
     executeSyncPlan env plan L R w = (Throw e, w1)) /\
  (forall p0 wc pre f rest p w0 e w1,
     forEach (conflicts plan) (conflictStep env (planTotal plan)) 0 w = (Ok p0, wc) ->
     uploads plan = (pre ++ f :: rest)%list ->
     forEach pre (uploadStep env (planTotal plan)) p0 wc = (Ok p, w0) ->
     isFolder f = false ->
     uploadFile env f
       (snd (updateStatus
               (statusProgress ("Uploading: " ++ path f) (p + 1) (planTotal plan)) w0))
     = (Throw e, w1) ->
     executeSyncPlan env plan L R w = (Throw e, w1)) /\
  (forall p0 wc p1 wu pre f rest p w0 e w1,
     forEach (conflicts plan) (conflictStep env (planTotal plan)) 0 w = (Ok p0, wc) ->
     forEach (uploads plan) (uploadStep env (planTotal plan)) p0 wc = (Ok p1, wu) ->
     downloads plan = (pre ++ f :: rest)%list ->
     forEach pre (downloadStep env (planTotal plan)) p1 wu = (Ok p, w0) ->
     isFolder f = false ->
     downloadFile env f
       (snd (updateStatus
               (statusProgress ("Downloading: " ++ path f) (p + 1) (planTotal plan)) w0))
     = (Throw e, w1) ->
     executeSyncPlan env plan L R w = (Throw e, w1)) /\
  (forall p w1,
     transferLoops env plan w = (Ok p, w1) ->
     exists w2 t,
       executeSyncPlan env plan L R w = (Ok tt, w2) /\
       trace w2 = (trace w1 ++ t)%list /\
       statusLog t =
         (map (fun f => ("Deleting local: " ++ path f)%string) (deleteLocal plan)
          ++ map (fun f => ("Deleting remote: " ++ path f)%string)
               (deleteRemote plan))%list /\
       (forall f, In f (deleteLocal plan) ->
          In (EvCall (Issued (AdapterExists (path f)))) t) /\
       (forall f id, In f (deleteRemote plan) -> usableId (driveId f) = Some id ->
          In (EvCall (Issued (DriveMoveToTrash id))) t)).
Proof.
  assert (Habort : forall e w1,
             transferLoops env plan w = (Throw e, w1) ->
             executeSyncPlan env plan L R w = (Throw e, w1)).
  { intros e w1 H. rewrite executeSyncPlan_split, H. reflexivity. }
  split; [|split; [|split; [|split; [|split; [|split; [|split; [|split]]]]]]].
  - intros f w0. unfold deleteLocalFile, tryCatch.
    destruct (deleteLocalAttempt env f w0) as [[[]|e] w1]; reflexivity.
  - intros f w0. unfold deleteRemoteFile, tryCatch.
    destruct (usableId (driveId f)) as [id|]; [|reflexivity].
    destruct (deleteRemoteAttempt env id f w0) as [[[]|e] w1]; reflexivity.
  - intros f w0 e w1 H. unfold uploadFile, tryCatch. rewrite H. reflexivity.
  - intros f id w0 e w1 Hid H. unfold downloadFile, tryCatch.
    rewrite Hid, H. reflexivity.
  - intros c w0. unfold resolveConflict. unfold bind at 1, gets at 1.
    destruct (conflictResolution (settings w0)); try reflexivity.
    now destruct (mtime (localFile c) >? orZero (driveMtime (remoteFile c))).
  - intros pre c rest p w0 e w1 Hc Hpre Hthrow. apply Habort.
    unfold transferLoops. cbv zeta. rewrite Hc. unfold bind at 1.
    now rewrite (forEach_stops_at_throw _ pre c rest 0 w p w0 e w1 Hpre
                   (conflictStep_throws _ c p w0 e w1 Hthrow)).
  - intros p0 wc pre f rest p w0 e w1 Hc Hu Hpre Hf Hthrow. apply Habort.
    unfold transferLoops. cbv zeta. unfold bind at 1. rewrite Hc, Hu.
    unfold bind at 1.
    now rewrite (forEach_stops_at_throw _ pre f rest p0 wc p w0 e w1 Hpre
                   (uploadStep_throws _ f p w0 e w1 Hf Hthrow)).
  - intros p0 wc p1 wu pre f rest p w0 e w1 Hc Hu Hd Hpre Hf Hthrow. apply Habort.
    unfold transferLoops. cbv zeta. unfold bind at 1. rewrite Hc.
    unfold bind at 1. rewrite Hu, Hd.
    exact (forEach_stops_at_throw _ pre f rest p1 wu p w0 e w1 Hpre
             (downloadStep_throws _ f p w0 e w1 Hf Hthrow)).
  - intros p w1 H. rewrite executeSyncPlan_split, H.
    destruct (deleteLoops_attempt plan p w1) as (p' & w2 & t & Hd & Ht & Hs & Hl & Hr).
    rewrite Hd. exists w2, t. auto.
Qed.

(** [syncCommit] hands the settings with the new [lastSyncTime] to
    [saveData] before anything else is traced. *)
Lemma syncCommit_saves (w1 : World S) :
  exists t,
    trace (snd (syncCommit env w1))
    = (trace w1
       ++ EvCall (Issued (PluginSaveData
                            (set_lastSyncTime (settings w1) (dateNow env (ext w1)))))
       :: t)%list.
Proof.
  unfold syncCommit, saveSettings, now, setSettings, modify, updateStatus, notice,
    log, modify, bind, gets, call.
  cbn [settings isSyncing trace ext].
  destruct (perform env (PluginSaveData
                           (set_lastSyncTime (settings w1) (dateNow env (ext w1))))
              (ext w1)) as [[[]|e] s1]; cbn [snd trace].
  - eexists. rewrite <- !app_assoc. reflexivity.
  - exists []. reflexivity.
Qed.

(** C4. The watermark after [sync]. A call rejected as busy or as
    unauthenticated leaves it alone. Otherwise, when the phases up to and
    including [executeSyncPlan] return, it is the value [Date.now()] has
    once they have returned, and the first thing the run then does is to
    call [saveData] with the settings that hold this value; when one of
    the phases throws, the watermark is unchanged. *)
Theorem sync_watermark (w : World S) :
  watermark (snd (sync env w)) =
  (if isSyncing w then watermark w
   else if negb (authenticatedAt (settings w) (dateNow env (ext w)))
        then watermark w
        else match syncPhases env (snd (syncStart w)) with
             | (Ok _, w1) => dateNow env (ext w1)
             | (Throw _, _) => watermark w
             end) /\
  (forall w1,
     isSyncing w = false ->
     authenticatedAt (settings w) (dateNow env (ext w)) = true ->
     syncPhases env (snd (syncStart w)) = (Ok tt, w1) ->
     exists t,
       trace (snd (sync env w))
       = (trace w1
          ++ EvCall (Issued (PluginSaveData
                               (set_lastSyncTime (settings w1)
                                  (dateNow env (ext w1)))))
          :: t)%list).
Proof.
  split.
  - rewrite sync_unfold.
    destruct (isSyncing w); [reflexivity|].
    destruct (negb (authenticatedAt (settings w) (dateNow env (ext w))));
      [reflexivity|].
    unfold watermark at 1. rewrite tryFinally_settings.
    fold (watermark (snd (tryCatch (syncPhases env;; syncCommit env)%comp
                            syncFailed (snd (syncStart w))))).
    rewrite sync_body_watermark. reflexivity.
  - intros w1 Hidle Hauth Hphases. rewrite sync_unfold, Hidle, Hauth.
    cbn [negb]. unfold tryFinally, tryCatch, bind. rewrite Hphases.
    destruct (syncCommit_saves w1) as [t Ht].
    destruct (syncCommit env w1) as [[[]|e] w2]; cbn [snd] in Ht.
    + exists t. exact Ht.
    + eexists. unfold syncFailed, consoleErrorWith, updateStatus, notice, log,
        modify, bind, setIsSyncing.
      cbn [snd trace]. rewrite Ht, <- !app_assoc. reflexivity.
Qed.


End ExecutorClaims.

(** An upload is refused: the run throws and [b.md] is never announced. *)
Lemma upload_failure_stops_the_run :
  fst (executeSyncPlan Sim.env Scenario.twoUploads [] [] Scenario.worldUploadFails)
  = Throw "Drive API error: 500" /\
  statusLog (trace (snd (executeSyncPlan Sim.env Scenario.twoUploads [] []
                           Scenario.worldUploadFails)))
  = ["Uploading: a.md"].
Proof. split; reflexivity. Qed.

Lemma executeSyncPlan_failure_handling_witness :
  executeSyncPlan Sim.env Scenario.twoUploads [] [] Scenario.worldUploadFails
  = (Throw "Drive API error: 500",
     snd (uploadFile Sim.env (Sim.localEntry "a.md" 600)
            (snd (updateStatus (statusProgress "Uploading: a.md" 1 2)
                    Scenario.worldUploadFails)))) /\
  executeSyncPlan Sim.env Examples.twoDownloads [] [] Scenario.worldTrashFails
  = (Throw "Drive API error: 404",
     snd (downloadFile Sim.env Scenario.remoteX
            (snd (updateStatus (statusProgress "Downloading: x.md" 1 2)
                    Scenario.worldTrashFails)))) /\
  exists w2 t,
    executeSyncPlan Sim.env Scenario.twoRemoteDeletes [] [] Scenario.worldTrashFails
    = (Ok tt, w2) /\
    trace w2 = (trace Scenario.worldTrashFails ++ t)%list /\
    statusLog t = ["Deleting remote: x.md"; "Deleting remote: y.md"] /\
    (forall f, In f ([] : list FileMetadata) ->
       In (EvCall (Issued (AdapterExists (path f)))) t) /\
    (forall f id, In f [Scenario.remoteX; Scenario.remoteY] ->
       usableId (driveId f) = Some id ->
       In (EvCall (Issued (DriveMoveToTrash id))) t).
Proof.
  split.
  - apply (executeSyncPlan_failure_handling Sim.env Scenario.twoUploads [] []
             Scenario.worldUploadFails)
      with (p0 := 0) (wc := Scenario.worldUploadFails) (pre := [])
           (f := Sim.localEntry "a.md" 600) (rest := [Sim.localEntry "b.md" 600])
           (p := 0) (w0 := Scenario.worldUploadFails);
      reflexivity.
  - split.
    + apply (executeSyncPlan_failure_handling Sim.env Examples.twoDownloads [] []
               Scenario.worldTrashFails)
        with (p0 := 0) (wc := Scenario.worldTrashFails)
             (p1 := 0) (wu := Scenario.worldTrashFails) (pre := [])
             (f := Scenario.remoteX) (rest := [Scenario.remoteY])
             (p := 0) (w0 := Scenario.worldTrashFails);
        reflexivity.
    + apply (executeSyncPlan_failure_handling Sim.env Scenario.twoRemoteDeletes [] []
               Scenario.worldTrashFails) with (p := 0).
      reflexivity.
Defined.

(** A first run without failures started at 1000 ends with the watermark at
    1006; a run in which an upload is refused leaves the watermark at
    500. *)
Lemma watermark_is_not_the_start_time :
  (dateNow Sim.env (ext Scenario.worldFirstRun) = 1000 /\
   statusLog (trace (snd (sync Sim.env Scenario.worldFirstRun)))
   = ["Starting sync..."; "Scanning local files..."; "Scanning remote files...";
      "Planning sync..."; "Uploading: a.md"; "Sync completed"] /\
   lastSyncTime (settings (snd (sync Sim.env Scenario.worldFirstRun))) = 1006) /\
  (lastSyncTime (settings Scenario.worldUploadFails) = 500 /\
   statusLog (trace (snd (sync Sim.env Scenario.worldUploadFails)))
   = ["Starting sync..."; "Scanning local files..."; "Scanning remote files...";
      "Planning sync..."; "Uploading: a.md";
      "Sync failed: Error: Drive API error: 500"] /\
   lastSyncTime (settings (snd (sync Sim.env Scenario.worldUploadFails))) = 500).
Proof. repeat split; reflexivity. Qed.



(** C5. The folder rule on the excluded folder [.git] and the path
    [.github/workflows.md], with hidden files included: [.git] is not a
    leading segment of the path, yet the code excludes the path. *)
Theorem folder_rule_excludes_github :
  folderRuleBySegments ".git" ".github/workflows.md" = false /\
  folderRule ".git" ".github/workflows.md" = true /\
  shouldExclude Scenario.excludeGitOnly ".github/workflows.md" = true.
Proof. repeat split; reflexivity. Qed.


(** ** Paths and their segments *)

Section Segments.

Variable sep : ascii.

Lemma split_nonempty s : Str.split sep s <> [].
Proof.
  destruct s as [|a r]; simpl; [discriminate|].
  destruct (Ascii.eqb a sep); [discriminate|].
  destruct (Str.split sep r); discriminate.
Qed.

Lemma split_single s : Str.occurs sep s = false -> Str.split sep s = [s].
Proof.
  induction s as [|a r IH]; simpl; [reflexivity|].
  destruct (Ascii.eqb a sep); simpl; [discriminate|].
  intros H. now rewrite (IH H).
Qed.

Lemma split_app a b :
  Str.split sep (a ++ String sep b) = (Str.split sep a ++ Str.split sep b)%list.
Proof.
  induction a as [|c r IH]; simpl.
  - now rewrite Ascii.eqb_refl.
  - destruct (Ascii.eqb c sep); rewrite IH; [reflexivity|].
    pose proof (split_nonempty r) as Hne.
    destruct (Str.split sep r); [contradiction|reflexivity].
Qed.

Lemma join_split s : Str.join (String sep "") (Str.split sep s) = s.
Proof.
  unfold Str.join. induction s as [|c r IH]; simpl; [reflexivity|].
  pose proof (split_nonempty r) as Hne.
  destruct (Ascii.eqb_spec c sep) as [->|Hc].
  - destruct (Str.split sep r) as [|h t]; [contradiction|].
    simpl in *. now rewrite IH.
  - destruct (Str.split sep r) as [|h t]; [contradiction|].
    destruct t as [|h2 t2]; simpl in *; now rewrite <- IH.
Qed.

(** A leading run of segments is a prefix of the string. *)
Lemma leadingSegments_prefix :
  forall folder p,
    leadingSegments (Str.split sep folder) (Str.split sep p) = true ->
    String.prefix folder p = true.
Proof.
  induction folder as [|c r IH]; intros p H.
  - destruct p; reflexivity.
  - pose proof (split_nonempty r) as Hr.
    simpl in H. destruct (Ascii.eqb_spec c sep) as [->|Hc].
    + destruct p as [|a q]; simpl in H.
      * destruct (Str.split sep r); [contradiction|discriminate].
      * destruct (Ascii.eqb_spec a sep) as [->|Ha].
        -- simpl in H. simpl. destruct (ascii_dec sep sep); [|contradiction].
           now apply IH.
        -- destruct (Str.split sep q); discriminate.
    + destruct (Str.split sep r) as [|h t] eqn:Er; [contradiction|].
      destruct p as [|a q]; simpl in H; [discriminate|].
      pose proof (split_nonempty q) as Hq.
      destruct (Ascii.eqb_spec a sep) as [->|Ha]; [discriminate|].
      destruct (Str.split sep q) as [|h' t'] eqn:Eq; [contradiction|].
      simpl in H. destruct (Ascii.eqb_spec c a) as [->|Hca]; [|discriminate].
      simpl. destruct (ascii_dec a a); [|contradiction].
      apply IH. rewrite Eq. exact H.
Qed.

End Segments.

(** Every path the segment-wise reading of the folder rule excludes is
    excluded by the code as well. *)
Theorem segment_match_is_excluded (s : GSyncSettings) (folder p : string) :
  In folder (excludedFolders s) ->
  folderRuleBySegments folder p = true ->
  shouldExclude s p = true.
Proof.
  intros Hin Hseg. unfold shouldExclude.
  assert (H : existsb (fun f => folderRule f p) (excludedFolders s) = true).
  { apply existsb_exists. exists folder. split; [exact Hin|].
    unfold folderRule, Str.startsWith.
    now rewrite (leadingSegments_prefix Str.slash folder p Hseg). }
  now rewrite H.
Qed.

Lemma segment_match_is_excluded_witness :
  shouldExclude DEFAULT_SETTINGS ".git/config" = true.
Proof.
  apply (segment_match_is_excluded DEFAULT_SETTINGS ".git" ".git/config").
  - simpl. tauto.
  - reflexivity.
Defined.

(** The copy kept by the [ask] policy, for a path that ends in an
    extension without a further dot: marker and time stamp go before the
    extension. *)
Theorem conflictCopyPath_with_extension (base ext : string) (t : Z) :
  Str.occurs Str.dot ext = false ->
  conflictCopyPath (base ++ "." ++ ext) t
  = base ++ "_conflict_" ++ StrOps.ofZ t ++ "." ++ ext.
Proof.
  intros Hext. unfold conflictCopyPath.
  change (base ++ "." ++ ext) with (base ++ String Str.dot ext).
  rewrite split_app, (split_single _ _ Hext).
  pose proof (split_nonempty Str.dot base) as Hne.
  assert (Hlen : (1 <? Z.of_nat (List.length (Str.split Str.dot base ++ [ext])%list))
                 = true).
  { rewrite length_app. simpl.
    destruct (Str.split Str.dot base); [contradiction|].
    simpl. apply Z.ltb_lt. lia. }
  rewrite Hlen. unfold StrOps.popLast.
  rewrite last_last, removelast_last.
  change "." with (String Str.dot "") at 1.
  rewrite join_split. reflexivity.
Qed.

Lemma conflictCopyPath_with_extension_witness :
  conflictCopyPath "notes/c.md" 1000 = "notes/c_conflict_1000.md".
Proof.
  apply (conflictCopyPath_with_extension "notes/c" "md" 1000). reflexivity.
Defined.

(** Scenario D: under [ask], [c.md] is copied to [c_conflict_1000.md] with
    the local text, then overwritten with the remote text. *)
Theorem scenario_d_keeps_both :
  fst (resolveConflict Sim.env Scenario.conflictC Scenario.worldConflictC) = Ok tt /\
  callLog (trace (snd (resolveConflict Sim.env Scenario.conflictC
                         Scenario.worldConflictC)))
  = ["adapter.read c.md"; "vault.create c_conflict_1000.md";
     "drive.downloadFile id-c"; "adapter.writeBinary c.md"] /\
  Sim.files (ext (snd (resolveConflict Sim.env Scenario.conflictC
                         Scenario.worldConflictC)))
  = [("c.md", (1004, "remote text")); ("c_conflict_1000.md", (1002, "local text"))].
Proof. repeat split; reflexivity. Qed.

(** Scenario A: a first run uploads the local file. *)
Theorem scenario_a_plan :
  createSyncPlan DEFAULT_SETTINGS [("a.md", Scenario.localA)] []
  = {| uploads := [Scenario.localA]; downloads := [];
       deleteLocal := []; deleteRemote := []; conflicts := [] |}.
Proof. reflexivity. Qed.

(** Scenario B: a remote file older than the watermark and absent locally
    is deleted remotely. *)
Theorem scenario_b_plan :
  createSyncPlan Scenario.watermark500 [] [("b.md", Scenario.remoteB)]
  = {| uploads := []; downloads := [];
       deleteLocal := []; deleteRemote := [Scenario.remoteB]; conflicts := [] |}.
Proof. reflexivity. Qed.

(** ** The indices the builders return *)

Section IndexShape.

Lemma set_entries {V} (m : JsMap.t V) k v k' v' :
  In (k', v') (JsMap.set m k v) -> (k' = k /\ v' = v) \/ In (k', v') m.
Proof.
  induction m as [|[k0 v0] r IH]; simpl.
  - intros [H|[]]. inversion H. now left.
  - destruct (String.eqb_spec k k0) as [->|Hne]; simpl.
    + intros [H|H]; [inversion H; now left|right; now right].
    + intros [H|H]; [right; now left|].
      destruct (IH H) as [?|?]; [now left|right; now right].
Qed.

Lemma set_NoDup {V} (m : JsMap.t V) k v :
  NoDup (JsMap.keys m) -> NoDup (JsMap.keys (JsMap.set m k v)).
Proof.
  induction m as [|[k0 v0] r IH]; simpl; intros Hnd.
  - repeat constructor. simpl. tauto.
  - inversion Hnd as [|? ? Hk Hr]; subst.
    destruct (String.eqb_spec k k0) as [->|Hne]; simpl.
    + constructor; assumption.
    + constructor; [|now apply IH].
      intros Hin. apply JsMapFacts.keys_set in Hin as [->|Hin]; [now apply Hne|].
      now apply Hk.
Qed.

Lemma set_index_ok (m : Index) k v :
  index_ok m -> path v = k -> index_ok (JsMap.set m k v).
Proof.
  intros [Hnd Hp] Hv. split.
  - now apply set_NoDup.
  - intros k' v' Hin. apply set_entries in Hin as [[-> ->]|Hin]; auto.
Qed.

Lemma setAll_index_ok (other m : Index) :
  index_ok m -> (forall k v, In (k, v) other -> path v = k) ->
  index_ok (JsMap.setAll m other).
Proof.
  unfold JsMap.setAll. revert m.
  induction other as [|[k v] r IH]; intros m Hm Ho; simpl; [exact Hm|].
  apply IH.
  - apply set_index_ok; [exact Hm|]. apply Ho. now left.
  - intros k' v' Hin. apply Ho. now right.
Qed.

Lemma empty_index_ok : index_ok JsMap.empty.
Proof. split; [constructor|intros k v []]. Qed.

Context {S : Type}.
Variable env : Env S.

Lemma processFiles_index_ok files :
  forall index w idx w',
    processFiles env files index w = (Ok idx, w') ->
    index_ok index -> index_ok idx.
Proof.
  induction files as [|f r IH]; intros index w idx w' Hrun Hok; simpl in Hrun.
  - inversion Hrun; subst. exact Hok.
  - unfold bind in Hrun.
    destruct (processFile env index f w) as [[index1|e] w1] eqn:Hf; [|discriminate].
    apply (IH index1 w1 idx w' Hrun).
    unfold processFile, bind, gets in Hf.
    destruct (shouldExclude (settings w) (tfPath f)).
    + inversion Hf; subst. exact Hok.
    + destruct (call env (AdapterStat (tfPath f)) w) as [[[st|]|e] w2];
        inversion Hf; subst; [|exact Hok].
      apply set_index_ok; [exact Hok|reflexivity].
Qed.

Lemma processAllFolders_index_ok s :
  forall folder index, index_ok index -> index_ok (processAllFolders s index folder).
Proof.
  fix IH 1. intros [fp fn children] index Hok. simpl.
  assert (Hf : index_ok (processFolder s index fp fn)).
  { unfold processFolder. destruct (shouldExclude s fp); [exact Hok|].
    destruct (negb (String.eqb fp "/")); [|exact Hok].
    apply set_index_ok; [exact Hok|reflexivity]. }
  revert Hf. generalize (processFolder s index fp fn).
  induction children as [|[f|d] r IHr]; intros acc Hacc.
  - exact Hacc.
  - apply IHr. exact Hacc.
  - apply IHr. apply IH. exact Hacc.
Qed.

Lemma indexRemoteNode_index_ok :
  forall n basePath index w idx w',
    indexRemoteNode env basePath index n w = (Ok idx, w') ->
    index_ok index -> index_ok idx.
Proof.
  fix IH 1. intros [file listing] basePath index w idx w' Hrun Hok.
  simpl in Hrun.
  set (p := if String.eqb basePath "" then dfName file
            else basePath ++ "/" ++ dfName file) in *.
  assert (H1 : index_ok (JsMap.set index p (remoteMetadata p file))).
  { apply set_index_ok; [exact Hok|reflexivity]. }
  destruct (String.eqb (dfMimeType file) FOLDER_MIME).
  - unfold bind at 1 in Hrun. unfold bind at 1 in Hrun.
    destruct (call env (DriveListAllFiles (dfId file)) w) as [[[]|e] w1];
      [|discriminate].
    assert (Hloop : forall ns acc w2 sub w3,
               (fix loop (ns : list DriveNode) (acc : Index) : M Index :=
                  match ns with
                  | [] => ret acc
                  | n' :: r => bind (indexRemoteNode env p acc n') (fun acc' => loop r acc')
                  end) ns acc w2 = (Ok sub, w3) ->
               (forall n', In n' ns -> In n' listing) ->
               index_ok acc -> index_ok sub).
    { clear Hrun. induction ns as [|n' r IHr]; intros acc w2 sub w3 Hl Hsub Hacc.
      - inversion Hl; subst. exact Hacc.
      - unfold bind in Hl.
        destruct (indexRemoteNode env p acc n' w2) as [[acc'|e] w4] eqn:Hn;
          [|discriminate].
        apply (IHr acc' w4 sub w3 Hl); [intros n0 H0; apply Hsub; now right|].
        exact (IH n' p acc w2 acc' w4 Hn Hacc). }
    match type of Hrun with
    | context [?loop listing JsMap.empty w1] =>
        destruct (loop listing JsMap.empty w1) as [[sub|e] w5] eqn:Hsub
    end; [|discriminate].
    inversion Hrun; subst.
    apply setAll_index_ok; [exact H1|].
    apply (Hloop listing JsMap.empty w1 sub w' Hsub (fun _ H => H) empty_index_ok).
  - inversion Hrun; subst. exact H1.
Qed.

Lemma indexRemoteNodes_index_ok ns :
  forall basePath acc w idx w',
    indexRemoteNodes env basePath ns acc w = (Ok idx, w') ->
    index_ok acc -> index_ok idx.
Proof.
  induction ns as [|n r IH]; intros basePath acc w idx w' Hrun Hok; simpl in Hrun.
  - inversion Hrun; subst. exact Hok.
  - unfold bind in Hrun.
    destruct (indexRemoteNode env basePath acc n w) as [[acc'|e] w1] eqn:Hn;
      [|discriminate].
    apply (IH basePath acc' w1 idx w' Hrun).
    exact (indexRemoteNode_index_ok n basePath acc w acc' w1 Hn Hok).
Qed.

(** Both builders return maps in which every entry is stored under its own
    path. *)
Theorem built_indices_are_ok (w : World S) :
  (forall idx w', buildLocalFileIndex env w = (Ok idx, w') -> index_ok idx) /\
  (forall id idx w', buildRemoteFileIndex env id w = (Ok idx, w') -> index_ok idx).
Proof.
  split.
  - intros idx w' Hrun. unfold buildLocalFileIndex, bind, gets in Hrun.
    destruct (call env VaultGetFiles w) as [[allFiles|e] w1]; [|discriminate].
    destruct (processFiles env allFiles JsMap.empty w1) as [[index|e] w2] eqn:H2;
      [|discriminate].
    destruct (call env VaultGetRoot w2) as [[root|e] w3]; [|discriminate].
    inversion Hrun; subst.
    apply processAllFolders_index_ok.
    exact (processFiles_index_ok allFiles _ w1 index w2 H2 empty_index_ok).
  - intros id idx w' Hrun. unfold buildRemoteFileIndex, bind, gets in Hrun.
    destruct (call env (DriveListAllFiles id) w) as [[[]|e] w1]; [|discriminate].
    exact (indexRemoteNodes_index_ok _ "" JsMap.empty w1 idx w' Hrun empty_index_ok).
Qed.

End IndexShape.

(** The vault of [Scenario.worldVault]: [.obsidian] and its file stay out
    of the local index. *)
Lemma local_index_has_no_excluded_path_witness :
  fst (buildLocalFileIndex Sim.env Scenario.worldVault) = Ok Scenario.vaultIndex /\
  shouldExclude (settings Scenario.worldVault) "notes" = false.
Proof.
  split; [reflexivity|].
  apply (local_index_has_no_excluded_path Sim.env Scenario.worldVault
           Scenario.vaultIndex
           (snd (buildLocalFileIndex Sim.env Scenario.worldVault))).
  - reflexivity.
  - simpl. tauto.
Defined.

Lemma built_indices_are_ok_witness :
  index_ok Scenario.vaultIndex /\
  index_ok [ (".obsidian", Scenario.remoteObsidianFolder);
             (".obsidian/workspace.json", Scenario.remoteWorkspace) ].
Proof.
  split.
  - apply (built_indices_are_ok Sim.env Scenario.worldVault) with
      (w' := snd (buildLocalFileIndex Sim.env Scenario.worldVault)).
    reflexivity.
  - apply (built_indices_are_ok Sim.env Scenario.worldWithObsidian) with
      (id := "root-id")
      (w' := snd (buildRemoteFileIndex Sim.env "root-id" Scenario.worldWithObsidian)).
    reflexivity.
Defined.

(** ** The plan, category by category *)

Section PlanByCategory.

Context {X : Type}.
Variable proj : SyncPlan -> list X.

(** A loop whose turns only append to a list fills it with what each turn
    appends, in order. *)
Lemma fold_appends (step : SyncPlan -> string * FileMetadata -> SyncPlan)
    (l : list (string * FileMetadata)) :
  (forall plan e, proj (step plan e) = (proj plan ++ proj (step emptyPlan e))%list) ->
  forall p0,
    proj (fold_left step l p0)
    = (proj p0 ++ flat_map (fun e => proj (step emptyPlan e)) l)%list.
Proof.
  intros Hstep. induction l as [|e r IH]; intros p0; simpl.
  - now rewrite app_nil_r.
  - rewrite IH, Hstep, <- app_assoc. reflexivity.
Qed.

(** A loop whose turns leave a list alone leaves it alone. *)
Lemma fold_keeps (step : SyncPlan -> string * FileMetadata -> SyncPlan)
    (l : list (string * FileMetadata)) :
  (forall plan e, proj (step plan e) = proj plan) ->
  forall p0, proj (fold_left step l p0) = proj p0.
Proof.
  intros Hstep. induction l as [|e r IH]; intros p0; simpl; [reflexivity|].
  now rewrite IH, Hstep.
Qed.

End PlanByCategory.

Ltac plan_cases :=
  repeat match goal with
    | |- context [match ?x with _ => _ end] => destruct x
    end;
  simpl; rewrite ?app_nil_r; reflexivity.

Section PlannerMore.

Variable s : GSyncSettings.
Variables L R : Index.

Let ls := lastSyncTime s.

Lemma uploads_local_turn plan e :
  uploads (planLocalEntry ls R plan e)
  = (uploads plan ++ uploads (planLocalEntry ls R emptyPlan e))%list.
Proof. destruct e as [k lf]. unfold planLocalEntry. plan_cases. Qed.

Lemma downloads_local_turn plan e :
  downloads (planLocalEntry ls R plan e)
  = (downloads plan ++ downloads (planLocalEntry ls R emptyPlan e))%list.
Proof. destruct e as [k lf]. unfold planLocalEntry. plan_cases. Qed.

Lemma deleteLocal_local_turn plan e :
  deleteLocal (planLocalEntry ls R plan e)
  = (deleteLocal plan ++ deleteLocal (planLocalEntry ls R emptyPlan e))%list.
Proof. destruct e as [k lf]. unfold planLocalEntry. plan_cases. Qed.

Lemma deleteRemote_local_turn plan e :
  deleteRemote (planLocalEntry ls R plan e) = deleteRemote plan.
Proof. destruct e as [k lf]. unfold planLocalEntry. plan_cases. Qed.

Lemma uploads_remote_turn plan e :
  uploads (planRemoteEntry ls L plan e) = uploads plan.
Proof. destruct e as [k rf]. unfold planRemoteEntry. plan_cases. Qed.

Lemma deleteLocal_remote_turn plan e :
  deleteLocal (planRemoteEntry ls L plan e) = deleteLocal plan.
Proof. destruct e as [k rf]. unfold planRemoteEntry. plan_cases. Qed.

Lemma downloads_remote_turn plan e :
  downloads (planRemoteEntry ls L plan e)
  = (downloads plan ++ downloads (planRemoteEntry ls L emptyPlan e))%list.
Proof. destruct e as [k rf]. unfold planRemoteEntry. plan_cases. Qed.

Lemma deleteRemote_remote_turn plan e :
  deleteRemote (planRemoteEntry ls L plan e)
  = (deleteRemote plan ++ deleteRemote (planRemoteEntry ls L emptyPlan e))%list.
Proof. destruct e as [k rf]. unfold planRemoteEntry. plan_cases. Qed.

Lemma uploads_of_plan :
  uploads (createSyncPlan s L R)
  = flat_map (fun e => uploads (planLocalEntry ls R emptyPlan e)) L.
Proof.
  unfold createSyncPlan. fold ls.
  rewrite (fold_keeps uploads _ R uploads_remote_turn).
  now rewrite (fold_appends uploads _ L uploads_local_turn).
Qed.

Lemma deleteLocal_of_plan :
  deleteLocal (createSyncPlan s L R)
  = flat_map (fun e => deleteLocal (planLocalEntry ls R emptyPlan e)) L.
Proof.
  unfold createSyncPlan. fold ls.
  rewrite (fold_keeps deleteLocal _ R deleteLocal_remote_turn).
  now rewrite (fold_appends deleteLocal _ L deleteLocal_local_turn).
Qed.

Lemma downloads_of_plan :
  downloads (createSyncPlan s L R)
  = (flat_map (fun e => downloads (planLocalEntry ls R emptyPlan e)) L
     ++ flat_map (fun e => downloads (planRemoteEntry ls L emptyPlan e)) R)%list.
Proof.
  unfold createSyncPlan. fold ls.
  rewrite (fold_appends downloads _ R downloads_remote_turn).
  now rewrite (fold_appends downloads _ L downloads_local_turn).
Qed.

Lemma deleteRemote_of_plan :
  deleteRemote (createSyncPlan s L R)
  = flat_map (fun e => deleteRemote (planRemoteEntry ls L emptyPlan e)) R.
Proof.
  unfold createSyncPlan. fold ls.
  rewrite (fold_appends deleteRemote _ R deleteRemote_remote_turn).
  now rewrite (fold_keeps deleteRemote _ L deleteRemote_local_turn).
Qed.

End PlannerMore.


Section PlanDisjoint.

Lemma perm_insert {A} (l1 l2 rest : list A) (a : A) :
  Permutation (l1 ++ (l2 ++ [a]) ++ rest) (a :: l1 ++ l2 ++ rest).
Proof.
  replace (l1 ++ (l2 ++ [a]) ++ rest)%list with ((l1 ++ l2) ++ a :: rest)%list
    by (rewrite <- !app_assoc; reflexivity).
  replace (l1 ++ l2 ++ rest)%list with ((l1 ++ l2) ++ rest)%list
    by (rewrite <- app_assoc; reflexivity).
  apply Permutation_sym, Permutation_middle.
Qed.

Lemma paths_pushUpload plan f :
  Permutation (planPaths (pushUpload plan f)) (path f :: planPaths plan).
Proof.
  unfold planPaths. simpl. rewrite map_app. simpl.
  apply (perm_insert [] (map path (uploads plan))).
Qed.

Lemma paths_pushDownload plan f :
  Permutation (planPaths (pushDownload plan f)) (path f :: planPaths plan).
Proof.
  unfold planPaths. simpl. rewrite map_app. simpl.
  apply (perm_insert (map path (uploads plan)) (map path (downloads plan))).
Qed.

Lemma perm_insert3 {A} (l1 l2 l3 rest : list A) (a : A) :
  Permutation (l1 ++ l2 ++ (l3 ++ [a]) ++ rest) (a :: l1 ++ l2 ++ l3 ++ rest).
Proof.
  transitivity (l1 ++ a :: l2 ++ l3 ++ rest)%list.
  - apply Permutation_app_head, perm_insert.
  - apply Permutation_sym, Permutation_middle.
Qed.

Lemma perm_insert4 {A} (l1 l2 l3 l4 rest : list A) (a : A) :
  Permutation (l1 ++ l2 ++ l3 ++ (l4 ++ [a]) ++ rest)
    (a :: l1 ++ l2 ++ l3 ++ l4 ++ rest).
Proof.
  transitivity (l1 ++ a :: l2 ++ l3 ++ l4 ++ rest)%list.
  - apply Permutation_app_head, perm_insert3.
  - apply Permutation_sym, Permutation_middle.
Qed.

Lemma paths_pushDeleteLocal plan f :
  Permutation (planPaths (pushDeleteLocal plan f)) (path f :: planPaths plan).
Proof.
  unfold planPaths. simpl. rewrite map_app. simpl. apply perm_insert3.
Qed.

Lemma paths_pushDeleteRemote plan f :
  Permutation (planPaths (pushDeleteRemote plan f)) (path f :: planPaths plan).
Proof.
  unfold planPaths. simpl. rewrite map_app. simpl. apply perm_insert4.
Qed.

(** Pushing a path the plan does not mention keeps its paths distinct. *)
Lemma NoDup_push plan plan' q :
  Permutation (planPaths plan') (q :: planPaths plan) ->
  NoDup (planPaths plan) -> ~ inPlan q plan ->
  NoDup (planPaths plan') /\
  forall x, inPlan x plan' -> inPlan x plan \/ x = q.
Proof.
  intros Hperm Hnd Hq. split.
  - apply (Permutation_NoDup (Permutation_sym Hperm)). now constructor.
  - intros x Hx. apply (Permutation_in _ Hperm) in Hx as [<-|Hx]; auto.
Qed.

End PlanDisjoint.

Section PlannerProperties.

Variable s : GSyncSettings.
Variables L R : Index.

Let ls := lastSyncTime s.
Let plan := createSyncPlan s L R.

Lemma local_turn_pushes_key pl k v :
  index_ok R -> path v = k ->
  NoDup (planPaths pl) -> ~ inPlan k pl ->
  NoDup (planPaths (planLocalEntry ls R pl (k, v))) /\
  forall q, inPlan q (planLocalEntry ls R pl (k, v)) -> inPlan q pl \/ q = k.
Proof.
  intros [_ HR] Hv Hnd Hk. subst k. unfold planLocalEntry.
  destruct (JsMap.get R (path v)) as [rf|] eqn:Hget.
  - apply JsMapFacts.get_In, HR in Hget.
    destruct (negb (isFolder v) && negb (isFolder rf)); [|auto].
    rewrite newer_exclusive.
    destruct (_ && _).
    + apply (NoDup_push pl); [|exact Hnd|exact Hk].
      apply (paths_pushUpload pl (with_driveId v (driveId rf))).
    + destruct (_ && _); [|auto].
      apply (NoDup_push pl); [|exact Hnd|exact Hk].
      rewrite <- Hget. apply paths_pushDownload.
  - destruct (_ || _).
    + apply (NoDup_push pl); [|exact Hnd|exact Hk]. apply paths_pushUpload.
    + apply (NoDup_push pl); [|exact Hnd|exact Hk]. apply paths_pushDeleteLocal.
Qed.

Lemma remote_turn_pushes_key pl k v :
  path v = k ->
  NoDup (planPaths pl) -> (JsMap.has L k = false -> ~ inPlan k pl) ->
  NoDup (planPaths (planRemoteEntry ls L pl (k, v))) /\
  forall q, inPlan q (planRemoteEntry ls L pl (k, v)) ->
            inPlan q pl \/ (q = k /\ JsMap.has L k = false).
Proof.
  intros Hv Hnd Hk. subst k. unfold planRemoteEntry.
  destruct (JsMap.has L (path v)) eqn:Hhas; simpl; [auto|].
  specialize (Hk eq_refl).
  destruct (_ || _).
  - destruct (NoDup_push pl (pushDownload pl v) (path v)) as [H1 H2];
      [apply paths_pushDownload|exact Hnd|exact Hk|].
    split; [exact H1|]. intros q Hq. destruct (H2 q Hq); auto.
  - destruct (NoDup_push pl (pushDeleteRemote pl v) (path v)) as [H1 H2];
      [apply paths_pushDeleteRemote|exact Hnd|exact Hk|].
    split; [exact H1|]. intros q Hq. destruct (H2 q Hq); auto.
Qed.

Lemma key_has (m : Index) k : In k (JsMap.keys m) -> JsMap.has m k = true.
Proof.
  unfold JsMap.keys, JsMap.has. induction m as [|[k' v'] r IH]; simpl; [tauto|].
  destruct (String.eqb_spec k k') as [->|Hne]; [reflexivity|].
  intros [H|H]; [congruence|]. now apply IH.
Qed.

(** Disjointness: no path is planned twice, in one category or in two. *)
Theorem plan_paths_distinct :
  index_ok L -> index_ok R -> NoDup (planPaths (createSyncPlan s L R)).
Proof.
  intros [HndL HpL] [HndR HpR]. unfold createSyncPlan. fold ls.
  (* The local loop, restricted to the entries of [L]. *)
  assert (Hlocal :
    forall l, (forall k v, In (k, v) l -> path v = k) -> NoDup (map fst l) ->
      NoDup (planPaths (fold_left (planLocalEntry ls R) l emptyPlan)) /\
      forall q, inPlan q (fold_left (planLocalEntry ls R) l emptyPlan) ->
                In q (map fst l)).
  { intros l Hl Hnd.
    assert (Hstep : forall l0,
      (forall k v, In (k, v) l0 -> path v = k) -> NoDup (map fst l0) ->
      forall pl, NoDup (planPaths pl) ->
        (forall q, inPlan q pl -> ~ In q (map fst l0)) ->
        NoDup (planPaths (fold_left (planLocalEntry ls R) l0 pl)) /\
        forall q, inPlan q (fold_left (planLocalEntry ls R) l0 pl) ->
                  inPlan q pl \/ In q (map fst l0)).
    { induction l0 as [|[k v] r IH]; intros Hp Hn pl Hpl Hfresh; simpl.
      - split; [exact Hpl|auto].
      - inversion Hn as [|? ? Hk Hr]; subst.
        destruct (local_turn_pushes_key pl k v (conj HndR HpR)) as [H1 H2];
          [apply Hp; now left|exact Hpl|intros Hin; apply (Hfresh k Hin); now left|].
        destruct (IH (fun k0 v0 H => Hp k0 v0 (or_intror H)) Hr _ H1) as [H3 H4].
        { intros q Hq Hqr. destruct (H2 q Hq) as [Hq0| ->].
          - apply (Hfresh q Hq0). now right.
          - now apply Hk. }
        split; [exact H3|]. intros q Hq.
        destruct (H4 q Hq) as [Hq1|Hq1]; [|right; now right].
        destruct (H2 q Hq1) as [?| ->]; [now left|right; now left]. }
    destruct (Hstep l Hl Hnd emptyPlan) as [H1 H2].
    - constructor.
    - intros q [].
    - split; [exact H1|]. intros q Hq. destruct (H2 q Hq) as [[]|H]; exact H. }
  destruct (Hlocal L HpL HndL) as [Hnd1 Hin1].
  assert (Hremote : forall l,
    (forall k v, In (k, v) l -> path v = k) -> NoDup (map fst l) ->
    forall pl, NoDup (planPaths pl) ->
      (forall q, inPlan q pl -> JsMap.has L q = false -> ~ In q (map fst l)) ->
      NoDup (planPaths (fold_left (planRemoteEntry ls L) l pl))).
  { induction l as [|[k v] r IH]; intros Hp Hn pl Hpl Hfresh; simpl; [exact Hpl|].
    inversion Hn as [|? ? Hk Hr]; subst.
    destruct (remote_turn_pushes_key pl k v) as [H1 H2];
      [apply Hp; now left|exact Hpl
      |intros Hm Hin; apply (Hfresh k Hin Hm); now left|].
    apply (IH (fun k0 v0 H => Hp k0 v0 (or_intror H)) Hr _ H1).
    intros q Hq Hm Hqr. destruct (H2 q Hq) as [Hq0|[-> _]].
    - apply (Hfresh q Hq0 Hm). now right.
    - now apply Hk. }
  apply (Hremote R HpR HndR _ Hnd1).
  intros q Hq Hm. apply Hin1, key_has in Hq. congruence.
Qed.

Lemma flat_map_nil {A B} (f : A -> list B) (l : list A) :
  (forall a, f a = []) -> flat_map f l = [].
Proof.
  intros Hf. induction l as [|a r IH]; simpl; [reflexivity|].
  now rewrite Hf, IH.
Qed.

Lemma zero_watermark_plan :
  lastSyncTime s = 0 ->
  deleteLocal (createSyncPlan s L R) = [] /\
  deleteRemote (createSyncPlan s L R) = [].
Proof.
  intros Hz. rewrite deleteLocal_of_plan, deleteRemote_of_plan, Hz. split.
  - apply flat_map_nil. intros [k lf]. unfold planLocalEntry. simpl. plan_cases.
  - apply flat_map_nil. intros [k rf]. unfold planRemoteEntry. simpl. plan_cases.
Qed.

(** A run whose watermark is zero plans no deletion, on either side. *)
Theorem first_run_never_deletes :
  lastSyncTime s = 0 ->
  deleteLocal (createSyncPlan s L R) = [] /\
  deleteRemote (createSyncPlan s L R) = [].
Proof. exact zero_watermark_plan. Qed.

(** An entry only the local index has is uploaded when the watermark is
    zero or older than its [mtime], and is deleted locally otherwise. *)
Theorem local_only_entry_decision (p : string) (lf : FileMetadata) :
  JsMap.get L p = Some lf -> JsMap.get R p = None ->
  In lf (if changedSince (lastSyncTime s) (mtime lf)
         then uploads (createSyncPlan s L R)
         else deleteLocal (createSyncPlan s L R)).
Proof.
  intros Hl Hr. apply JsMapFacts.get_In in Hl.
  unfold changedSince. destruct (_ || _) eqn:Hc.
  - rewrite uploads_of_plan. apply in_flat_map. exists (p, lf).
    split; [exact Hl|]. unfold planLocalEntry. rewrite Hr, Hc. simpl. now left.
  - rewrite deleteLocal_of_plan. apply in_flat_map. exists (p, lf).
    split; [exact Hl|]. unfold planLocalEntry. rewrite Hr, Hc. simpl. now left.
Qed.

(** An entry only the remote index has is downloaded when the watermark is
    zero or older than its remote time, and is deleted remotely
    otherwise. *)
Theorem remote_only_entry_decision (p : string) (rf : FileMetadata) :
  JsMap.get R p = Some rf -> JsMap.get L p = None ->
  In rf (if changedSince (lastSyncTime s) (remoteTime rf)
         then downloads (createSyncPlan s L R)
         else deleteRemote (createSyncPlan s L R)).
Proof.
  intros Hr Hl. apply JsMapFacts.get_In in Hr.
  assert (Hhas : JsMap.has L p = false) by (unfold JsMap.has; now rewrite Hl).
  unfold changedSince, remoteTime. destruct (_ || _) eqn:Hc.
  - rewrite downloads_of_plan. apply in_or_app. right.
    apply in_flat_map. exists (p, rf).
    split; [exact Hr|]. unfold planRemoteEntry. rewrite Hhas, Hc. simpl. now left.
  - rewrite deleteRemote_of_plan. apply in_flat_map. exists (p, rf).
    split; [exact Hr|]. unfold planRemoteEntry. rewrite Hhas, Hc. simpl. now left.
Qed.

(** A file both indices have: the strictly newer side wins if it changed
    after the watermark; the upload carries the remote id; in every other
    case the path is left out of the plan. *)
Theorem both_files_decision (p : string) (lf rf : FileMetadata) :
  index_ok L -> index_ok R ->
  JsMap.get L p = Some lf -> JsMap.get R p = Some rf ->
  isFolder lf = false -> isFolder rf = false ->
  if (mtime lf >? remoteTime rf) && (mtime lf >? lastSyncTime s)
  then In (with_driveId lf (driveId rf)) (uploads (createSyncPlan s L R))
  else if (remoteTime rf >? mtime lf) && (remoteTime rf >? lastSyncTime s)
       then In rf (downloads (createSyncPlan s L R))
       else ~ inPlan p (createSyncPlan s L R).
Proof.
  intros HL HR Hl Hr Hlf Hrf. unfold remoteTime.
  destruct ((mtime lf >? orZero (driveMtime rf)) && (mtime lf >? lastSyncTime s))
    eqn:Hup;
    [|destruct ((orZero (driveMtime rf) >? mtime lf)
                && (orZero (driveMtime rf) >? lastSyncTime s)) eqn:Hdown].
  - rewrite uploads_of_plan. apply in_flat_map. exists (p, lf).
    split; [now apply JsMapFacts.get_In|].
    unfold planLocalEntry. rewrite Hr, Hlf, Hrf, newer_exclusive. simpl.
    rewrite Hup. simpl. now left.
  - rewrite downloads_of_plan. apply in_or_app. left.
    apply in_flat_map. exists (p, lf).
    split; [now apply JsMapFacts.get_In|].
    unfold planLocalEntry. rewrite Hr, Hlf, Hrf, newer_exclusive. simpl.
    rewrite Hup, Hdown. simpl. now left.
  - apply (untouched_path_not_planned s L R p lf HL HR Hl).
    intros pl. unfold planLocalEntry.
    rewrite Hr, Hlf, Hrf, newer_exclusive. simpl. now rewrite Hup, Hdown.
Qed.

End PlannerProperties.

Section PlannerProvenance.

Variable s : GSyncSettings.
Variables L R : Index.

Lemma changedSince_false ls t :
  changedSince ls t = false <-> ls <> 0 /\ t <= ls.
Proof.
  unfold changedSince. rewrite orb_false_iff, Z.eqb_neq, Z.gtb_ltb, Z.ltb_ge.
  tauto.
Qed.

Lemma entry_get (m : Index) k v :
  index_ok m -> In (k, v) m -> path v = k /\ JsMap.get m (path v) = Some v.
Proof.
  intros [Hnd Hp] Hin. pose proof (Hp k v Hin) as Hk. split; [exact Hk|].
  rewrite Hk. now apply JsMapFacts.In_get.
Qed.

(** Where deletions come from. A local deletion is an entry of the local
    index whose path the remote index lacks, planned on a later run for an
    [mtime] not after the watermark; a remote deletion is the mirror
    image. *)
Theorem deletion_provenance :
  index_ok L -> index_ok R ->
  (forall f, In f (deleteLocal (createSyncPlan s L R)) ->
     JsMap.get L (path f) = Some f /\ JsMap.get R (path f) = None /\
     lastSyncTime s <> 0 /\ mtime f <= lastSyncTime s) /\
  (forall f, In f (deleteRemote (createSyncPlan s L R)) ->
     JsMap.get R (path f) = Some f /\ JsMap.get L (path f) = None /\
     lastSyncTime s <> 0 /\ remoteTime f <= lastSyncTime s).
Proof.
  intros HL HR. split; intros f Hf.
  - rewrite deleteLocal_of_plan in Hf. apply in_flat_map in Hf as [[k lf] [Hin Hf]].
    destruct (entry_get L k lf HL Hin) as [Hk Hget].
    unfold planLocalEntry in Hf.
    destruct (JsMap.get R k) as [rf|] eqn:Hr.
    + exfalso. revert Hf. rewrite newer_exclusive.
      repeat match goal with
        | |- context [if ?b then _ else _] => destruct b
        end; simpl; intros [].
    + revert Hf.
      destruct ((lastSyncTime s =? 0) || (mtime lf >? lastSyncTime s)) eqn:Hc;
        simpl; [intros []|].
      intros [<-|[]]. rewrite <- Hk in Hr.
      apply changedSince_false in Hc. tauto.
  - rewrite deleteRemote_of_plan in Hf.
    apply in_flat_map in Hf as [[k rf] [Hin Hf]].
    destruct (entry_get R k rf HR Hin) as [Hk Hget].
    unfold planRemoteEntry in Hf.
    revert Hf.
    destruct (JsMap.has L k) eqn:Hhas; simpl; [intros []|].
    destruct ((lastSyncTime s =? 0) || (orZero (driveMtime rf) >? lastSyncTime s))
      eqn:Hc; simpl; [intros []|].
    intros [<-|[]]. rewrite <- Hk in Hhas.
    apply changedSince_false in Hc.
    split; [exact Hget|]. split; [|exact Hc].
    unfold JsMap.has in Hhas.
    destruct (JsMap.get L (path rf)); [discriminate|reflexivity].
Qed.

End PlannerProvenance.

Section OneSidedPlans.

Variable s : GSyncSettings.

Lemma conflicts_of_plan (L R : Index) : conflicts (createSyncPlan s L R) = [].
Proof.
  unfold createSyncPlan.
  rewrite (fold_keeps conflicts), (fold_keeps conflicts); [reflexivity| |].
  - intros pl [k lf]. unfold planLocalEntry.
    destruct (JsMap.get R k) as [rf|]; [rewrite newer_exclusive|]; plan_cases.
  - intros pl [k rf]. unfold planRemoteEntry. plan_cases.
Qed.

Lemma plan_ext (p q : SyncPlan) :
  uploads p = uploads q -> downloads p = downloads q ->
  deleteLocal p = deleteLocal q -> deleteRemote p = deleteRemote q ->
  conflicts p = conflicts q -> p = q.
Proof. destruct p, q. simpl. congruence. Qed.

Lemma flat_map_filter {A B} (t : A -> bool) (g : A -> B) (l : list A) :
  flat_map (fun a => if t a then [g a] else []) l = map g (filter t l).
Proof.
  induction l as [|a r IH]; simpl; [reflexivity|].
  destruct (t a); simpl; now rewrite IH.
Qed.

Lemma flat_map_ext_all {A B} (f g : A -> list B) (l : list A) :
  (forall a, f a = g a) -> flat_map f l = flat_map g l.
Proof.
  intros H. induction l as [|a r IH]; simpl; [reflexivity|]. now rewrite H, IH.
Qed.

(** With one index empty the plan is the other index split by
    [changedSince], in index order: against an empty remote index every
    local entry is uploaded or deleted locally; against an empty local
    index every remote entry is downloaded or deleted remotely. *)
Theorem one_sided_plans (I : Index) :
  createSyncPlan s I []
  = {| uploads :=
         map snd (filter (fun e => changedSince (lastSyncTime s) (mtime (snd e))) I);
       downloads := [];
       deleteLocal :=
         map snd (filter (fun e => negb (changedSince (lastSyncTime s) (mtime (snd e)))) I);
       deleteRemote := [];
       conflicts := [] |} /\
  createSyncPlan s [] I
  = {| uploads := [];
       downloads :=
         map snd (filter (fun e => changedSince (lastSyncTime s) (remoteTime (snd e))) I);
       deleteLocal := [];
       deleteRemote :=
         map snd (filter (fun e => negb (changedSince (lastSyncTime s)
                                           (remoteTime (snd e)))) I);
       conflicts := [] |}.
Proof.
  split; apply plan_ext; simpl.
  - rewrite uploads_of_plan, <- flat_map_filter. apply flat_map_ext_all.
    intros [k lf]. unfold planLocalEntry, changedSince. simpl.
    destruct ((lastSyncTime s =? 0) || (mtime lf >? lastSyncTime s)); reflexivity.
  - rewrite downloads_of_plan. simpl. rewrite app_nil_r.
    apply flat_map_nil. intros [k lf]. unfold planLocalEntry. simpl.
    destruct ((lastSyncTime s =? 0) || (mtime lf >? lastSyncTime s)); reflexivity.
  - rewrite deleteLocal_of_plan, <- flat_map_filter. apply flat_map_ext_all.
    intros [k lf]. unfold planLocalEntry, changedSince. simpl.
    destruct ((lastSyncTime s =? 0) || (mtime lf >? lastSyncTime s)); reflexivity.
  - now rewrite deleteRemote_of_plan.
  - apply conflicts_of_plan.
  - now rewrite uploads_of_plan.
  - rewrite downloads_of_plan. simpl. rewrite <- flat_map_filter.
    apply flat_map_ext_all.
    intros [k rf]. unfold planRemoteEntry, changedSince, remoteTime. simpl.
    destruct ((lastSyncTime s =? 0) || (orZero (driveMtime rf) >? lastSyncTime s));
      reflexivity.
  - now rewrite deleteLocal_of_plan.
  - rewrite deleteRemote_of_plan, <- flat_map_filter. apply flat_map_ext_all.
    intros [k rf]. unfold planRemoteEntry, changedSince, remoteTime. simpl.
    destruct ((lastSyncTime s =? 0) || (orZero (driveMtime rf) >? lastSyncTime s));
      reflexivity.
  - apply conflicts_of_plan.
Qed.

End OneSidedPlans.

(** ** More about strings *)

Section StringFacts.

Lemma append_empty_r (a : string) : a ++ "" = a.
Proof. induction a as [|c r IH]; simpl; [reflexivity|now rewrite IH]. Qed.

Lemma append_assoc (a b c : string) : (a ++ b) ++ c = a ++ b ++ c.
Proof. induction a as [|x r IH]; simpl; [reflexivity|now rewrite IH]. Qed.

Lemma length_append (a b : string) :
  String.length (a ++ b) = (String.length a + String.length b)%nat.
Proof. induction a as [|x r IH]; simpl; [reflexivity|now rewrite IH]. Qed.

Lemma prefix_empty (a : string) : String.prefix "" a = true.
Proof. destruct a; reflexivity. Qed.

Lemma prefix_app (a : string) :
  forall b c, String.prefix a b = true -> String.prefix a (b ++ c) = true.
Proof.
  induction a as [|x r IH]; intros b c H.
  - apply prefix_empty.
  - destruct b as [|y b']; simpl in H; [discriminate|].
    simpl. destruct (ascii_dec x y); [now apply IH|discriminate].
Qed.

Lemma substring_all (a : string) : String.substring 0 (String.length a) a = a.
Proof. induction a as [|x r IH]; simpl; [reflexivity|now rewrite IH]. Qed.

Lemma substring_skip (a b : string) (m : nat) :
  String.substring (String.length a) m (a ++ b) = String.substring 0 m b.
Proof. induction a as [|x r IH]; simpl; [reflexivity|exact IH]. Qed.

(** [(p + e).endsWith(e)] *)
Lemma endsWith_app (p e : string) : Str.endsWith (p ++ e) e = true.
Proof.
  unfold Str.endsWith. rewrite length_append.
  replace (String.length p + String.length e - String.length e)%nat
    with (String.length p) by lia.
  rewrite substring_skip, substring_all, String.eqb_refl, andb_true_r.
  apply Nat.leb_le. lia.
Qed.

Lemma split_parts_clean sep (a : string) :
  forall x, In x (Str.split sep a) -> Str.occurs sep x = false.
Proof.
  induction a as [|c r IH]; simpl; intros x Hx.
  - destruct Hx as [<-|[]]. reflexivity.
  - destruct (Ascii.eqb c sep) eqn:Hc.
    + destruct Hx as [<-|Hx]; [reflexivity|now apply IH].
    + destruct (Str.split sep r) as [|h t] eqn:Hr.
      * destruct Hx as [<-|[]]. simpl. now rewrite Hc.
      * destruct Hx as [<-|Hx].
        -- simpl. rewrite Hc. apply IH. now left.
        -- apply IH. now right.
Qed.

Lemma join_snoc (sep : string) (init : list string) (l : string) :
  init <> [] -> Str.join sep (init ++ [l]) = Str.join sep init ++ sep ++ l.
Proof.
  unfold Str.join. induction init as [|x r IH]; intros Hne; [contradiction|].
  destruct r as [|y r'].
  - reflexivity.
  - change (String.concat sep ((x :: y :: r') ++ [l]))
      with (x ++ sep ++ String.concat sep ((y :: r') ++ [l])).
    rewrite IH by discriminate.
    change (String.concat sep (x :: y :: r'))
      with (x ++ sep ++ String.concat sep (y :: r')).
    now rewrite !append_assoc.
Qed.

End StringFacts.

(** ** The exclusion filter, continued *)

Section FilterProperties.

Variable s : GSyncSettings.

(** With no excluded extension configured, everything below an excluded
    path is excluded as well. *)
Theorem excluded_folder_covers_descendants (d rest : string) :
  excludedExtensions s = [] ->
  shouldExclude s d = true ->
  shouldExclude s (d ++ "/" ++ rest) = true.
Proof.
  intros Hext Hd.
  change (d ++ "/" ++ rest) with (d ++ String Str.slash rest).
  unfold shouldExclude in *. rewrite Hext in *. cbn [existsb] in *.
  destruct (existsb (fun folder => folderRule folder d) (excludedFolders s)) eqn:Hf.
  - apply existsb_exists in Hf as [folder [Hin Hrule]].
    assert (H : existsb (fun folder => folderRule folder (d ++ String Str.slash rest))
                  (excludedFolders s) = true).
    { apply existsb_exists. exists folder. split; [exact Hin|].
      unfold folderRule, Str.startsWith in *.
      apply orb_true_iff in Hrule as [H|H];
        apply orb_true_iff; [left|right]; now apply prefix_app. }
    now rewrite H.
  - destruct (existsb (fun folder => folderRule folder (d ++ String Str.slash rest))
                (excludedFolders s)); [reflexivity|].
    destruct (negb (includeHiddenFiles s)); [|discriminate].
    rewrite split_app, existsb_app, Hd. reflexivity.
Qed.

(** The extension rule is a test on the end of the path: any path that
    ends with a configured extension is excluded. *)
Theorem excluded_extension_is_a_suffix (p ext : string) :
  In ext (excludedExtensions s) -> shouldExclude s (p ++ ext) = true.
Proof.
  intros Hin. unfold shouldExclude.
  destruct (existsb _ (excludedFolders s)); [reflexivity|].
  assert (H : existsb (fun e => Str.endsWith (p ++ ext) e) (excludedExtensions s)
              = true).
  { apply existsb_exists. exists ext. split; [exact Hin|apply endsWith_app]. }
  now rewrite H.
Qed.

End FilterProperties.

(** ** The name of the conflict copy, continued *)

Lemma conflictCopyPath_shape (p : string) (t : Z) :
  exists base ext,
    p = base ++ ext /\
    conflictCopyPath p t = base ++ "_conflict_" ++ StrOps.ofZ t ++ ext /\
    (ext = "" \/ exists e, ext = "." ++ e /\ Str.occurs Str.dot e = false) /\
    conflictCopyPath p t <> p.
Proof.
  assert (Hneq : forall base ext,
             base ++ "_conflict_" ++ StrOps.ofZ t ++ ext <> base ++ ext).
  { intros base ext H. apply (f_equal String.length) in H.
    rewrite !length_append in H. simpl in H. lia. }
  pose proof (join_split Str.dot p) as Hjoin.
  pose proof (split_nonempty Str.dot p) as Hne.
  pose proof (split_parts_clean Str.dot p) as Hclean.
  unfold conflictCopyPath.
  revert Hjoin Hclean.
  rewrite (app_removelast_last "" Hne).
  generalize (removelast (Str.split Str.dot p)) (last (Str.split Str.dot p) "").
  intros init l Hjoin Hclean.
  destruct init as [|x r].
  - unfold Str.join in Hjoin. simpl in Hjoin. subst l.
    change (1 <? Z.of_nat (List.length ([] ++ [p])%list)) with false.
    cbv iota. unfold Str.join. cbn [app String.concat].
    exists p, "". repeat split.
    + symmetry. apply append_empty_r.
    + now left.
    + intros H. apply (Hneq p ""). rewrite (append_empty_r p). exact H.
  - assert (Hlen : (1 <? Z.of_nat (List.length ((x :: r) ++ [l])%list)) = true).
    { rewrite length_app. simpl. apply Z.ltb_lt. lia. }
    rewrite Hlen. unfold StrOps.popLast. rewrite last_last, removelast_last.
    change "." with (String Str.dot "") in *.
    rewrite join_snoc in Hjoin by discriminate.
    exists (Str.join (String Str.dot "") (x :: r)), (String Str.dot "" ++ l).
    repeat split.
    + now rewrite Hjoin.
    + right. exists l. split; [reflexivity|]. apply Hclean.
      apply in_or_app. right. now left.
    + rewrite <- Hjoin. apply Hneq.
Qed.

(** The copy's name is the conflict path with the marker and the time
    stamp inserted before its last dot-free part, or at the end when the
    path has no dot; it is never the conflict path itself. *)
Theorem conflictCopyPath_inserts (p : string) (t : Z) :
  exists base ext,
    p = base ++ ext /\
    conflictCopyPath p t = base ++ "_conflict_" ++ StrOps.ofZ t ++ ext /\
    (ext = "" \/ exists e, ext = "." ++ e /\ Str.occurs Str.dot e = false) /\
    conflictCopyPath p t <> p.
Proof. exact (conflictCopyPath_shape p t). Qed.

Section AskPolicy.

Context {S : Type}.
Variable env : Env S.


End AskPolicy.


(** ** MIME types and parent folders *)

Section MimeAndParents.

Lemma lowerChar_idem (c : ascii) : StrOps.lowerChar (StrOps.lowerChar c) = StrOps.lowerChar c.
Proof. destruct c as [[] [] [] [] [] [] [] []]; reflexivity. Qed.

Lemma lowerChar_dot (c : ascii) :
  Ascii.eqb (StrOps.lowerChar c) Str.dot = Ascii.eqb c Str.dot.
Proof. destruct c as [[] [] [] [] [] [] [] []]; reflexivity. Qed.

Lemma toLowerCase_idem (a : string) :
  StrOps.toLowerCase (StrOps.toLowerCase a) = StrOps.toLowerCase a.
Proof.
  induction a as [|c r IH]; simpl; [reflexivity|].
  now rewrite lowerChar_idem, IH.
Qed.

Lemma occurs_dot_toLowerCase (a : string) :
  Str.occurs Str.dot (StrOps.toLowerCase a) = Str.occurs Str.dot a.
Proof.
  induction a as [|c r IH]; simpl; [reflexivity|].
  now rewrite lowerChar_dot, IH.
Qed.

(** The MIME type of a path depends on nothing but its last extension,
    letter case aside. *)
Theorem mime_type_by_extension (base ext : string) :
  Str.occurs Str.dot ext = false ->
  getMimeType (base ++ "." ++ ext) = getMimeType ("." ++ StrOps.toLowerCase ext).
Proof.
  intros Hext. unfold getMimeType.
  change (base ++ "." ++ ext) with (base ++ String Str.dot ext).
  change ("." ++ StrOps.toLowerCase ext)
    with ("" ++ String Str.dot (StrOps.toLowerCase ext)).
  rewrite !split_app, (split_single _ _ Hext).
  rewrite (split_single Str.dot (StrOps.toLowerCase ext))
    by now rewrite occurs_dot_toLowerCase.
  unfold StrOps.popLast. rewrite !last_last, toLowerCase_idem. reflexivity.
Qed.

Lemma lastIndexOf_absent c (a : string) :
  Str.occurs c a = false -> StrOps.lastIndexOf c a = -1.
Proof.
  induction a as [|x r IH]; simpl; [reflexivity|].
  intros H. apply orb_false_iff in H as [Hx Hr].
  rewrite (IH Hr), Hx. reflexivity.
Qed.

Lemma lastIndexOf_child c (d n : string) :
  Str.occurs c n = false ->
  StrOps.lastIndexOf c (d ++ String c n) = Z.of_nat (String.length d).
Proof.
  intros Hn. induction d as [|x r IH].
  - simpl. rewrite (lastIndexOf_absent c n Hn), Ascii.eqb_refl. reflexivity.
  - change (StrOps.lastIndexOf c (String x r ++ String c n))
      with (let i := StrOps.lastIndexOf c (r ++ String c n) in
            if i >=? 0 then i + 1 else if Ascii.eqb x c then 0 else -1).
    rewrite IH. cbv zeta.
    destruct (Z.geb_spec (Z.of_nat (String.length r)) 0); [|lia].
    simpl String.length. lia.
Qed.

Lemma substring_prefix (d e : string) :
  String.substring 0 (String.length d) (d ++ e) = d.
Proof. induction d as [|x r IH]; simpl; [now destruct e|now rewrite IH]. Qed.

(** The folder [uploadFile] and [downloadFile] take as the parent of a
    path: empty for a name without slash, and [d] for the name [n] in
    [d]. *)
Theorem parentPath_of_child (n : string) :
  Str.occurs Str.slash n = false ->
  StrOps.parentPath n = "" /\
  forall d, StrOps.parentPath (d ++ "/" ++ n) = d.
Proof.
  intros Hn. unfold StrOps.parentPath, StrOps.substring0. split.
  - rewrite (lastIndexOf_absent _ _ Hn). simpl. now destruct n.
  - intros d. change (d ++ "/" ++ n) with (d ++ String Str.slash n).
    rewrite (lastIndexOf_child _ d n Hn), Nat2Z.id. apply substring_prefix.
Qed.

End MimeAndParents.

(** ** Progress *)

Section Progress.

Context {S : Type}.
Variable env : Env S.

Lemma statuses_app t1 t2 : statuses (t1 ++ t2) = (statuses t1 ++ statuses t2)%list.
Proof.
  induction t1 as [|ev r IH]; simpl; [reflexivity|].
  destruct ev; simpl; now rewrite IH.
Qed.

Lemma progressLog_app t1 t2 :
  progressLog (t1 ++ t2) = (progressLog t1 ++ progressLog t2)%list.
Proof. unfold progressLog. now rewrite statuses_app, map_app. Qed.

Lemma progress_call {A} (c : Call A) : preserves (S := S) progressOf (call env c).
Proof.
  intros w. unfold call, progressOf.
  destruct (perform env c (ext w)) as [r s']. simpl.
  rewrite progressLog_app. apply app_nil_r.
Qed.

Lemma progress_consoleError msg : preserves (S := S) progressOf (consoleError msg).
Proof.
  intros w. unfold progressOf. simpl. rewrite progressLog_app. apply app_nil_r.
Qed.

Lemma progress_consoleErrorWith msg e :
  preserves (S := S) progressOf (consoleErrorWith msg e).
Proof.
  intros w. unfold progressOf. simpl. rewrite progressLog_app. apply app_nil_r.
Qed.

Lemma progress_consoleLog msg : preserves (S := S) progressOf (consoleLog msg).
Proof.
  intros w. unfold progressOf. simpl. rewrite progressLog_app. apply app_nil_r.
Qed.

Ltac silent :=
  unfold debugLog, now;
  repeat first
    [ preserve_step
    | apply progress_call
    | apply progress_consoleError
    | apply progress_consoleErrorWith
    | apply progress_consoleLog ].

Lemma progress_uploadFile f : preserves (S := S) progressOf (uploadFile env f).
Proof. unfold uploadFile, uploadAttempt. silent. Qed.

Lemma progress_downloadFile f : preserves (S := S) progressOf (downloadFile env f).
Proof. unfold downloadFile, downloadAttempt. silent. Qed.

Lemma progress_deleteLocalFile f :
  preserves (S := S) progressOf (deleteLocalFile env f).
Proof. unfold deleteLocalFile, deleteLocalAttempt. silent. Qed.

Lemma progress_deleteRemoteFile f :
  preserves (S := S) progressOf (deleteRemoteFile env f).
Proof. unfold deleteRemoteFile, deleteRemoteAttempt. silent. Qed.

Lemma progress_resolveConflict c :
  preserves (S := S) progressOf (resolveConflict env c).
Proof.
  unfold resolveConflict, keepLocalCopy. silent;
    first [ apply progress_uploadFile | apply progress_downloadFile ].
Qed.

Lemma ticks_S p k t :
  ticks p (Datatypes.S k) t = (Some (p + 1), Some t) :: ticks (p + 1) k t.
Proof.
  unfold ticks. simpl. f_equal.
  rewrite <- seq_shift, map_map. apply map_ext. intros i.
  f_equal. f_equal. lia.
Qed.

Lemma ticks_app p k1 k2 t :
  (ticks p k1 t ++ ticks (p + Z.of_nat k1) k2 t)%list = ticks p (k1 + k2) t.
Proof.
  revert p. induction k1 as [|k IH]; intros p.
  - simpl. now replace (p + 0) with p by lia.
  - rewrite ticks_S. simpl Nat.add. rewrite ticks_S. simpl. f_equal.
    rewrite <- IH. f_equal. f_equal. lia.
Qed.

Lemma counts_ret n t p : counts (S := S) n t p (ret p).
Proof.
  intros w. exists 0%nat. split; [lia|]. simpl. split.
  - now rewrite app_nil_r.
  - left. f_equal. lia.
Qed.

Lemma counts_bind n1 n2 t p (m : M (S := S) Z) (f : Z -> M Z) :
  counts n1 t p m -> (forall q, counts n2 t q (f q)) ->
  counts (n1 + n2) t p (bind m f).
Proof.
  intros Hm Hf w. unfold bind.
  destruct (Hm w) as (k1 & Hk1 & Hlog1 & Hres1).
  destruct (m w) as [[q|e] w1]; simpl in *.
  - destruct Hres1 as [Hq|[e He]]; [|discriminate].
    injection Hq as ->.
    destruct (Hf (p + Z.of_nat k1) w1) as (k2 & Hk2 & Hlog2 & Hres2).
    exists (k1 + k2)%nat. split; [lia|]. split.
    + rewrite Hlog2, Hlog1, <- app_assoc, ticks_app. reflexivity.
    + destruct Hres2 as [H|H]; [left|right; exact H].
      rewrite H. f_equal. lia.
  - exists k1. split; [lia|]. split; [exact Hlog1|]. right. now exists e.
Qed.

Lemma counts_forEach {A} (body : A -> Z -> M (S := S) Z) t :
  (forall x p, counts 1 t p (body x p)) ->
  forall items p, counts (List.length items) t p (forEach items body p).
Proof.
  intros Hbody. induction items as [|x r IH]; intros p; simpl.
  - apply counts_ret.
  - apply (counts_bind 1 (List.length r)); [apply Hbody|exact IH].
Qed.

(** A step that announces the entry, acts on it silently and returns the
    advanced counter. *)
Lemma counts_step msg t p (act : M (S := S) unit) :
  preserves progressOf act ->
  counts 1 t p
    (updateStatus (statusProgress msg (p + 1) t) ;; act ;; ret (p + 1))%comp.
Proof.
  intros Hact w. exists 1%nat. split; [lia|].
  pose (w1 := Build_World (settings w) (isSyncing w)
                (trace w ++ [EvStatus (statusProgress msg (p + 1) t)]) (ext w)).
  assert (Hw1 : progressOf w1 = (progressOf w ++ ticks p 1 t)%list).
  { unfold progressOf, w1. simpl. rewrite progressLog_app. reflexivity. }
  change ((updateStatus (statusProgress msg (p + 1) t) ;; act ;; ret (p + 1))%comp w)
    with (match act w1 with
          | (Ok _, w2) => (Ok (p + 1), w2)
          | (Throw e, w2) => (Throw e, w2)
          end).
  specialize (Hact w1).
  destruct (act w1) as [[[]|e] w2]; simpl in *.
  - split; [congruence|]. left. reflexivity.
  - split; [congruence|]. right. now exists e.
Qed.

Lemma counts_transferLoops plan :
  counts (List.length (conflicts plan) + List.length (uploads plan)
          + List.length (downloads plan)) (planTotal plan) 0
    (transferLoops env plan).
Proof.
  unfold transferLoops. cbv zeta.
  rewrite <- Nat.add_assoc.
  apply counts_bind; [|intros q; apply counts_bind; [|intros q']];
    apply counts_forEach; intros x p.
  - apply counts_step, progress_resolveConflict.
  - unfold uploadStep. destruct (isFolder x).
    + intros w. destruct (counts_ret 0 (planTotal plan) p w) as (k & Hk & H).
      exists k. split; [lia|exact H].
    + apply counts_step, progress_uploadFile.
  - unfold downloadStep. destruct (isFolder x).
    + intros w. destruct (counts_ret 0 (planTotal plan) p w) as (k & Hk & H).
      exists k. split; [lia|exact H].
    + apply counts_step, progress_downloadFile.
Qed.

Lemma counts_deleteLoops plan p :
  counts (List.length (deleteLocal plan) + List.length (deleteRemote plan))
    (planTotal plan) p (deleteLoops env plan p).
Proof.
  unfold deleteLoops. cbv zeta.
  apply counts_bind; [|intros q]; apply counts_forEach; intros x p0.
  - apply counts_step, progress_deleteLocalFile.
  - apply counts_step, progress_deleteRemoteFile.
Qed.

(** The progress a run reports counts up from one without a gap, once per
    entry it reaches, and never passes [total]. *)
Theorem progress_counts_up (plan : SyncPlan) (L R : Index) (w : World S) :
  exists k,
    Z.of_nat k <= planTotal plan /\
    progressLog (trace (snd (executeSyncPlan env plan L R w)))
    = (progressLog (trace w) ++ ticks 0 k (planTotal plan))%list.
Proof.
  assert (Htotal : planTotal plan = Z.of_nat (planEntries plan)).
  { unfold planTotal, planEntries. lia. }
  rewrite executeSyncPlan_split.
  destruct (counts_transferLoops plan w) as (k1 & Hk1 & Hlog1 & Hres1).
  destruct (transferLoops env plan w) as [[p|e] w1]; simpl in *.
  - destruct Hres1 as [Hp|[e He]]; [|discriminate]. injection Hp as Hp.
    destruct (counts_deleteLoops plan p w1) as (k2 & Hk2 & Hlog2 & _).
    exists (k1 + k2)%nat. split.
    + rewrite Htotal. unfold planEntries. lia.
    + transitivity (progressOf (snd (deleteLoops env plan p w1))).
      * unfold progressOf.
        destruct (deleteLoops env plan p w1) as [[q|e] w2]; reflexivity.
      * rewrite Hlog2, Hlog1, <- app_assoc, <- ticks_app, Hp. reflexivity.
  - exists k1. split.
    + rewrite Htotal. unfold planEntries. lia.
    + exact Hlog1.
Qed.

End Progress.

(** ** Deleting a local folder *)

Section LocalFolders.

Context {S : Type}.
Variable env : Env S.

Lemma callLog_app t1 t2 : callLog (t1 ++ t2) = (callLog t1 ++ callLog t2)%list.
Proof.
  induction t1 as [|ev r IH]; simpl; [reflexivity|].
  destruct ev as [| | | |[A c]]; simpl; now rewrite IH.
Qed.

Lemma calls_debugLog msg : preserves (S := S) callsOf (debugLog msg).
Proof.
  intros w. unfold debugLog, bind, gets, callsOf.
  destruct (debugMode (settings w)); simpl; [|reflexivity].
  rewrite callLog_app. apply app_nil_r.
Qed.

Lemma deleteLocalFile_nonempty (f : FileMetadata) (w : World S)
    (l : list string * list string) (s1 s2 : S) :
  isFolder f = true ->
  perform env (AdapterExists (path f)) (ext w) = (Ok true, s1) ->
  perform env (AdapterList (path f)) s1 = (Ok l, s2) ->
  fst l <> [] \/ snd l <> [] ->
  deleteLocalFile env f w
  = debugLog ("Deleted local: " ++ path f)
      (Build_World (settings w) (isSyncing w)
         ((trace w ++ [EvCall (Issued (AdapterExists (path f)))])
            ++ [EvCall (Issued (AdapterList (path f)))])%list
         s2).
Proof.
  intros Hf Hex Hlist Hne.
  assert (Hempty : ((List.length (fst l) =? 0) && (List.length (snd l) =? 0))%nat
                   = false).
  { destruct l as [[|x fs] [|y ds]]; simpl in *; try reflexivity.
    destruct Hne as [H|H]; now elim H. }
  unfold deleteLocalFile, deleteLocalAttempt. rewrite Hf.
  unfold tryCatch, bind, call. rewrite Hex. cbn [ext settings isSyncing trace].
  rewrite Hlist. rewrite Hempty. unfold ret.
  unfold debugLog, bind, gets. cbn [settings].
  destruct (debugMode (settings w)); reflexivity.
Qed.

(** A local folder that still has something in it is looked at and left
    where it is: the listing is the last call, and no [rmdir] follows. *)
Theorem nonempty_folder_is_kept (f : FileMetadata) (w : World S)
    (l : list string * list string) (s1 s2 : S) :
  isFolder f = true ->
  perform env (AdapterExists (path f)) (ext w) = (Ok true, s1) ->
  perform env (AdapterList (path f)) s1 = (Ok l, s2) ->
  fst l <> [] \/ snd l <> [] ->
  fst (deleteLocalFile env f w) = Ok tt /\
  callsOf (snd (deleteLocalFile env f w))
  = (callsOf w ++ [("adapter.exists " ++ path f)%string;
                   ("adapter.list " ++ path f)%string])%list /\
  ext (snd (deleteLocalFile env f w)) = s2.
Proof.
  intros Hf Hex Hlist Hne.
  rewrite (deleteLocalFile_nonempty f w l s1 s2 Hf Hex Hlist Hne).
  split; [|split].
  - unfold debugLog, bind, gets. cbn [settings].
    destruct (debugMode (settings w)); reflexivity.
  - rewrite calls_debugLog. unfold callsOf. cbn [trace].
    rewrite !callLog_app. simpl. now rewrite <- app_assoc.
  - unfold debugLog, bind, gets. cbn [settings].
    destruct (debugMode (settings w)); reflexivity.
Qed.

End LocalFolders.

(** ** The session, continued *)

Section SessionMore.

Context {S X : Type}.
Variable env : Env S.
Variable obs : World S -> X.

(** [obs] looks at the settings only, and not at the field [f] writes. *)
Hypothesis obs_settings :
  forall w w' : World S, settings w = settings w' -> obs w = obs w'.

Lemma obs_plugin_only : plugin_only obs.
Proof. intros s b t t' e e'. now apply obs_settings. Qed.

Lemma preserves_setIsSyncing b : preserves obs (setIsSyncing (S := S) b).
Proof. intros w. now apply obs_settings. Qed.

Lemma preserves_notice msg : preserves obs (notice (S := S) msg).
Proof. intros w. now apply obs_settings. Qed.

Lemma preserves_updateStatus st : preserves obs (updateStatus (S := S) st).
Proof. intros w. now apply obs_settings. Qed.

Lemma preserves_consoleError msg : preserves obs (consoleError (S := S) msg).
Proof. intros w. now apply obs_settings. Qed.

Lemma preserves_consoleErrorWith msg e :
  preserves obs (consoleErrorWith (S := S) msg e).
Proof. intros w. now apply obs_settings. Qed.

Lemma preserves_saveSettings : preserves obs (saveSettings env).
Proof.
  unfold saveSettings. apply preserves_bind; [apply preserves_gets|intros s].
  apply preserves_call, obs_plugin_only.
Qed.

Lemma preserves_syncFailed_obs e : preserves obs (syncFailed (S := S) e).
Proof.
  unfold syncFailed.
  apply preserves_bind; [apply preserves_consoleErrorWith|intros _].
  apply preserves_bind; [apply preserves_updateStatus|intros _].
  apply preserves_notice.
Qed.

Hypothesis obs_ignores_watermark :
  forall (w : World S) t,
    obs (Build_World (set_lastSyncTime (settings w) t) (isSyncing w) (trace w) (ext w))
    = obs w.

Lemma preserves_syncCommit : preserves obs (syncCommit env).
Proof.
  intros w. unfold syncCommit. unfold bind at 1. unfold now at 1, gets at 1.
  unfold bind at 1. unfold gets at 1. unfold bind at 1.
  unfold setSettings at 1, modify at 1.
  rewrite <- (obs_ignores_watermark w (dateNow env (ext w))).
  apply (preserves_bind obs).
  - apply preserves_saveSettings.
  - intros _. apply preserves_bind; [apply preserves_updateStatus|intros _].
    apply preserves_notice.
Qed.

(** What the phases keep, [sync] keeps. *)
Lemma sync_keeps (w : World S) :
  obs (snd (syncPhases env (snd (syncStart w)))) = obs w ->
  obs (snd (sync env w)) = obs w.
Proof.
  intros Hphases. rewrite sync_unfold.
  destruct (isSyncing w); [apply preserves_notice|].
  destruct (negb (authenticatedAt (settings w) (dateNow env (ext w))));
    [apply preserves_notice|].
  unfold tryFinally, tryCatch, bind.
  destruct (syncPhases env (snd (syncStart w))) as [[[]|e] w1]; simpl in Hphases.
  - pose proof (preserves_syncCommit w1) as Hc.
    destruct (syncCommit env w1) as [[[]|e] w2]; simpl in Hc.
    + simpl. rewrite <- Hphases, <- Hc. now apply obs_settings.
    + pose proof (preserves_syncFailed_obs e w2) as Hf.
      destruct (syncFailed e w2) as [r w3]. simpl in *.
      rewrite <- Hphases, <- Hc, <- Hf. now apply obs_settings.
  - pose proof (preserves_syncFailed_obs e w1) as Hf.
    destruct (syncFailed e w1) as [r w3]. simpl in *.
    rewrite <- Hphases, <- Hf. now apply obs_settings.
Qed.

(** The phases after the sync folder is known. *)
Lemma phases_after_folder :
  preserves obs
    (updateStatus (statusMsg Syncing "Scanning local files...") ;;
     localIndex <- buildLocalFileIndex env ;;
     updateStatus (statusMsg Syncing "Scanning remote files...") ;;
     s <- gets settings ;;
     remoteIndex <- buildRemoteFileIndex env (syncFolderId s) ;;
     updateStatus (statusMsg Syncing "Planning sync...") ;;
     s <- gets settings ;;
     let plan := createSyncPlan s localIndex remoteIndex in
     executeSyncPlan env plan localIndex remoteIndex)%comp.
Proof.
  apply preserves_bind; [apply preserves_updateStatus|intros _].
  apply preserves_bind;
    [apply preserves_buildLocalFileIndex, obs_plugin_only|intros li].
  apply preserves_bind; [apply preserves_updateStatus|intros _].
  apply preserves_bind; [apply preserves_gets|intros s1].
  apply preserves_bind;
    [apply preserves_buildRemoteFileIndex, obs_plugin_only|intros ri].
  apply preserves_bind; [apply preserves_updateStatus|intros _].
  apply preserves_bind; [apply preserves_gets|intros s2].
  apply preserves_executeSyncPlan, obs_plugin_only.
Qed.

Lemma phases_keep :
  (forall (w : World S) id,
      obs (Build_World (set_syncFolderId (settings w) id) (isSyncing w)
             (trace w) (ext w)) = obs w) ->
  preserves obs (syncPhases env).
Proof.
  intros Hid. unfold syncPhases.
  apply preserves_bind; [apply preserves_gets|intros s].
  apply preserves_bind; [|intros _; apply phases_after_folder].
  destruct (String.eqb (syncFolderId s) ""); [|apply preserves_ret].
  apply preserves_bind; [apply preserves_updateStatus|intros _].
  apply preserves_bind; [apply preserves_call, obs_plugin_only|intros id].
  intros w. unfold bind at 1. unfold gets at 1. unfold bind at 1.
  unfold setSettings at 1, modify at 1.
  rewrite <- (Hid w id). apply preserves_saveSettings.
Qed.

End SessionMore.

Section SessionTheorems.

Context {S : Type}.
Variable env : Env S.

Lemma syncFailed_returns e (w : World S) : fst (syncFailed e w) = Ok tt.
Proof. reflexivity. Qed.

Lemma sync_returns (w : World S) : fst (sync env w) = Ok tt.
Proof.
  rewrite sync_unfold.
  destruct (isSyncing w); [reflexivity|].
  destruct (negb (authenticatedAt (settings w) (dateNow env (ext w))));
    [reflexivity|].
  unfold tryFinally, tryCatch.
  destruct ((syncPhases env ;; syncCommit env)%comp (snd (syncStart w)))
    as [[[]|e] w1]; reflexivity.
Qed.


(** The access token and its expiry aside, which the Drive service may
    refresh during any of its requests, a run of [sync] writes
    [lastSyncTime] and [syncFolderId] and no other setting, and it keeps a
    sync folder id that is already known. *)
Theorem sync_settings_frame (w : World S) :
  forgetRunState (forgetAccess (settings (snd (sync env w))))
  = forgetRunState (forgetAccess (settings w)) /\
  (syncFolderId (settings w) <> "" ->
   syncFolderId (settings (snd (sync env w))) = syncFolderId (settings w)).
Proof.
  split.
  - apply (sync_keeps env (fun w => forgetRunState (forgetAccess (settings w)))).
    + intros w1 w2 H. now rewrite H.
    + reflexivity.
    + rewrite (phases_keep env
                 (fun w => forgetRunState (forgetAccess (settings w)))).
      * reflexivity.
      * intros w1 w2 H. now rewrite H.
      * reflexivity.
  - intros Hid.
    apply (sync_keeps env (fun w => syncFolderId (settings w))).
    + intros w1 w2 H. now rewrite H.
    + reflexivity.
    + unfold syncPhases. unfold bind at 1. unfold gets at 1.
      cbv iota beta.
      assert (Hs : settings (snd (syncStart w)) = settings w) by reflexivity.
      rewrite Hs.
      destruct (String.eqb_spec (syncFolderId (settings w)) "") as [He|_];
        [contradiction|].
      unfold bind at 1. unfold ret at 1. cbv iota beta.
      rewrite (phases_after_folder env (fun w => syncFolderId (settings w))).
      * reflexivity.
      * intros w1 w2 H. now rewrite H.
Qed.

Lemma forceUploadAll_unfold (w : World S) :
  forceUploadAll env w =
  if negb (authenticatedAt (settings w) (dateNow env (ext w)))
  then notice "Please configure Google Drive authentication first" w
  else
    let w1 := snd (sync env (forceStart w)) in
    (Ok tt,
     if lastSyncTime (settings w1) =? 0
     then Build_World (set_lastSyncTime (settings w1) (lastSyncTime (settings w)))
            (isSyncing w1) (trace w1) (ext w1)
     else w1).
Proof.
  unfold forceUploadAll. unfold bind at 1.
  unfold isAuthenticated, bind at 1, gets at 1, bind at 1, now, gets at 1, ret at 1.
  destruct (negb (authenticatedAt (settings w) (dateNow env (ext w))));
    [reflexivity|].
  unfold bind at 1. unfold gets at 1. cbv iota beta zeta.
  unfold bind at 1. unfold setSettings at 1, modify at 1. cbv iota beta.
  unfold bind at 1. unfold notice at 1, log at 1, modify at 1. cbv iota beta.
  cbn [settings isSyncing trace ext].
  change (Build_World (set_lastSyncTime (settings w) 0) (isSyncing w)
            (trace w ++ [EvNotice "Starting full upload..."]) (ext w))
    with (forceStart w).
  unfold bind at 1. pose proof (sync_returns (forceStart w)) as Hr.
  destruct (sync env (forceStart w)) as [[[]|e] w1]; simpl in Hr; [|discriminate].
  unfold bind, gets. cbv iota beta. cbn [snd].
  destruct (lastSyncTime (settings w1) =? 0); reflexivity.
Qed.

(** "Force Upload All": [lastSyncTime] ends as it was before the command
    unless the run it starts gets through [executeSyncPlan]; then it is
    the completion time of that run. *)
Theorem force_upload_watermark (w : World S) :
  watermark (snd (forceUploadAll env w)) =
  if negb (authenticatedAt (settings w) (dateNow env (ext w))) || isSyncing w
  then watermark w
  else match syncPhases env (snd (syncStart (forceStart w))) with
       | (Ok _, w2) =>
           if dateNow env (ext w2) =? 0 then watermark w else dateNow env (ext w2)
       | (Throw _, _) => watermark w
       end.
Proof.
  rewrite forceUploadAll_unfold.
  destruct (negb (authenticatedAt (settings w) (dateNow env (ext w)))) eqn:Hauth;
    [reflexivity|].
  cbv zeta. cbn [snd orb].
  assert (Hw : watermark (snd (sync env (forceStart w))) =
    if isSyncing w then 0
    else match syncPhases env (snd (syncStart (forceStart w))) with
         | (Ok _, w2) => dateNow env (ext w2)
         | (Throw _, _) => 0
         end).
  { rewrite sync_unfold.
    change (isSyncing (forceStart w)) with (isSyncing w).
    destruct (isSyncing w); [reflexivity|].
    change (authenticatedAt (settings (forceStart w))
              (dateNow env (ext (forceStart w))))
      with (authenticatedAt (settings w) (dateNow env (ext w))).
    rewrite Hauth. unfold watermark.
    rewrite tryFinally_settings. fold (watermark (S := S)).
    change (lastSyncTime (settings ?x)) with (watermark x).
    rewrite sync_body_watermark.
    destruct (syncPhases env (snd (syncStart (forceStart w)))) as [[[]|e] w2];
      reflexivity. }
  fold (watermark (snd (sync env (forceStart w)))).
  destruct (watermark (snd (sync env (forceStart w))) =? 0) eqn:Hz.
  - unfold watermark at 1. cbn [settings lastSyncTime set_lastSyncTime].
    fold (watermark w). rewrite Hw in Hz.
    destruct (isSyncing w); [reflexivity|].
    destruct (syncPhases env (snd (syncStart (forceStart w)))) as [[[]|e] w2];
      [now rewrite Hz|reflexivity].
  - rewrite Hw in Hz |- *.
    destruct (isSyncing w); [discriminate|].
    destruct (syncPhases env (snd (syncStart (forceStart w)))) as [[[]|e] w2];
      [now rewrite Hz|discriminate].
Qed.

End SessionTheorems.

(** ** What a run without a watermark removes *)

Section Removals.

Context {S : Type}.
Variable env : Env S.

Lemma deletions_app t1 t2 :
  deletions (t1 ++ t2) = (deletions t1 ++ deletions t2)%list.
Proof.
  induction t1 as [|ev r IH]; simpl; [reflexivity|].
  destruct ev as [| | | |[A c]]; simpl; try exact IH.
  destruct (isDeletion c); simpl; now rewrite IH.
Qed.

Lemma deleted_log ev :
  match ev with EvCall _ => False | _ => True end ->
  preserves (S := S) deleted (log ev).
Proof.
  intros Hev w. unfold log, modify, deleted. simpl.
  rewrite deletions_app.
  destruct ev; simpl; try apply app_nil_r. contradiction.
Qed.

Lemma deleted_call {A} (c : Call A) :
  isDeletion c = false -> preserves deleted (call env c).
Proof.
  intros Hc w. unfold call, deleted.
  destruct (perform env c (ext w)) as [r s']. simpl.
  rewrite deletions_app. simpl. rewrite Hc. apply app_nil_r.
Qed.

Lemma deleted_modify (f : World S -> World S) :
  (forall w, trace (f w) = trace w) -> preserves deleted (modify f).
Proof. intros Hf w. unfold modify, deleted. simpl. now rewrite Hf. Qed.

Ltac quiet :=
  unfold notice, consoleError, consoleErrorWith, consoleLog, updateStatus, debugLog,
    saveSettings, now, setSettings, setIsSyncing;
  repeat first
    [ preserve_step
    | apply deleted_call; reflexivity
    | apply deleted_log; exact I
    | apply deleted_modify; reflexivity ].

Lemma deleted_uploadFile f : preserves deleted (uploadFile env f).
Proof. unfold uploadFile, uploadAttempt. quiet. Qed.

Lemma deleted_downloadFile f : preserves deleted (downloadFile env f).
Proof. unfold downloadFile, downloadAttempt. quiet. Qed.

Lemma deleted_resolveConflict c : preserves deleted (resolveConflict env c).
Proof.
  unfold resolveConflict, keepLocalCopy. quiet;
    first [ apply deleted_uploadFile | apply deleted_downloadFile ].
Qed.

Lemma deleted_forEach {A} (items : list A) (body : A -> Z -> M Z) :
  (forall x p, preserves (S := S) deleted (body x p)) ->
  forall p, preserves deleted (forEach items body p).
Proof.
  intros Hb. induction items as [|x r IH]; intros p; simpl.
  - apply preserves_ret.
  - apply preserves_bind; [apply Hb|exact IH].
Qed.

(** A plan without deletion entries is executed without a removal. *)
Lemma deleted_executeSyncPlan plan L R :
  deleteLocal plan = [] -> deleteRemote plan = [] ->
  preserves deleted (executeSyncPlan env plan L R).
Proof.
  intros HdL HdR. unfold executeSyncPlan. cbv zeta. rewrite HdL, HdR.
  apply preserves_bind; [apply deleted_forEach; intros x p|intros ?].
  { unfold conflictStep. quiet. apply deleted_resolveConflict. }
  apply preserves_bind; [apply deleted_forEach; intros x p|intros ?].
  { unfold uploadStep. quiet. apply deleted_uploadFile. }
  apply preserves_bind; [apply deleted_forEach; intros x p|intros ?].
  { unfold downloadStep. quiet. apply deleted_downloadFile. }
  apply preserves_bind; [apply preserves_ret|intros ?].
  apply preserves_bind; [apply preserves_ret|intros ?].
  apply preserves_ret.
Qed.

Lemma deleted_processFiles files :
  forall index, preserves deleted (processFiles env files index).
Proof.
  induction files as [|f r IH]; intros index; simpl.
  - apply preserves_ret.
  - apply preserves_bind; [unfold processFile; quiet|exact (fun a => IH a)].
Qed.

Lemma deleted_buildLocalFileIndex : preserves deleted (buildLocalFileIndex env).
Proof. unfold buildLocalFileIndex. quiet. apply deleted_processFiles. Qed.

Lemma deleted_indexRemoteNode :
  forall n basePath index,
    preserves deleted (indexRemoteNode env basePath index n).
Proof.
  fix IH 1. intros [file listing] basePath index. simpl.
  destruct (String.eqb (dfMimeType file) FOLDER_MIME); [|apply preserves_ret].
  apply preserves_bind; [|intros ?; apply preserves_ret].
  apply preserves_bind; [apply deleted_call; reflexivity|intros _].
  generalize (@JsMap.empty FileMetadata).
  induction listing as [|n' r IHr]; intros acc.
  - apply preserves_ret.
  - apply preserves_bind; [apply IH|exact (fun a => IHr a)].
Qed.

Lemma deleted_indexRemoteNodes ns :
  forall basePath acc,
    preserves deleted (indexRemoteNodes env basePath ns acc).
Proof.
  induction ns as [|n r IH]; intros basePath acc; simpl.
  - apply preserves_ret.
  - apply preserves_bind; [apply deleted_indexRemoteNode|intros a; apply IH].
Qed.

Lemma deleted_buildRemoteFileIndex id :
  preserves deleted (buildRemoteFileIndex env id).
Proof. unfold buildRemoteFileIndex. quiet. apply deleted_indexRemoteNodes. Qed.

(** A step that keeps the watermark and removes nothing, followed by
    steps that remove nothing when the watermark is zero. *)
Lemma zero_bind {A B} (m : M (S := S) A) (k : A -> M B) :
  preserves watermark m -> preserves deleted m ->
  (forall a w, watermark w = 0 -> deleted (snd (k a w)) = deleted w) ->
  forall w, watermark w = 0 -> deleted (snd (bind m k w)) = deleted w.
Proof.
  intros Hw Hd Hk w Hz. unfold bind.
  specialize (Hw w). specialize (Hd w).
  destruct (m w) as [[a|e] w1]; simpl in *; [|exact Hd].
  rewrite Hk; [exact Hd|congruence].
Qed.

Lemma zero_syncPhases w :
  watermark w = 0 -> deleted (snd (syncPhases env w)) = deleted w.
Proof.
  revert w. unfold syncPhases.
  apply zero_bind; [apply preserves_gets|apply preserves_gets|intros s].
  apply zero_bind.
  { destruct (String.eqb (syncFolderId s) ""); [|apply preserves_ret].
    apply preserves_bind; [apply preserves_log, watermark_plugin_only|intros _].
    apply preserves_bind; [apply preserves_call, watermark_plugin_only|intros id].
    apply preserves_store_folder_id. }
  { quiet. }
  intros _.
  apply zero_bind;
    [apply preserves_log, watermark_plugin_only|apply deleted_log; exact I|intros _].
  apply zero_bind;
    [apply preserves_buildLocalFileIndex, watermark_plugin_only
    |apply deleted_buildLocalFileIndex|intros li].
  apply zero_bind;
    [apply preserves_log, watermark_plugin_only|apply deleted_log; exact I|intros _].
  apply zero_bind; [apply preserves_gets|apply preserves_gets|intros s1].
  apply zero_bind;
    [apply preserves_buildRemoteFileIndex, watermark_plugin_only
    |apply deleted_buildRemoteFileIndex|intros ri].
  apply zero_bind;
    [apply preserves_log, watermark_plugin_only|apply deleted_log; exact I|intros _].
  intros w Hz. unfold bind at 1. unfold gets at 1. cbv iota beta zeta.
  destruct (zero_watermark_plan (settings w) li ri Hz) as [HdL HdR].
  now apply deleted_executeSyncPlan.
Qed.

Lemma zero_sync w :
  watermark w = 0 -> deleted (snd (sync env w)) = deleted w.
Proof.
  intros Hz. rewrite sync_unfold.
  destruct (isSyncing w); [apply deleted_log; exact I|].
  destruct (negb (authenticatedAt (settings w) (dateNow env (ext w))));
    [apply deleted_log; exact I|].
  assert (Hstart : deleted (snd (syncStart w)) = deleted w).
  { unfold syncStart. apply preserves_bind; [|intros _]; quiet. }
  assert (Hcommit : preserves deleted (syncCommit env))
    by (unfold syncCommit; quiet).
  assert (Hfailed : forall e, preserves (S := S) deleted (syncFailed e))
    by (intros e; unfold syncFailed; quiet).
  pose proof (zero_syncPhases (snd (syncStart w)) Hz) as Hp.
  rewrite Hstart in Hp. clear Hstart.
  unfold tryFinally, tryCatch, bind.
  destruct (syncPhases env (snd (syncStart w))) as [[[]|e] w1]; cbn [snd] in Hp.
  - specialize (Hcommit w1).
    destruct (syncCommit env w1) as [[[]|e] w2]; cbn [snd] in Hcommit.
    + cbn. unfold deleted in *. cbn [trace]. congruence.
    + specialize (Hfailed e w2).
      destruct (syncFailed e w2) as [r w3]. cbn [snd] in Hfailed.
      cbn. unfold deleted in *. cbn [trace]. congruence.
  - specialize (Hfailed e w1).
    destruct (syncFailed e w1) as [r w3]. cbn [snd] in Hfailed.
    cbn. unfold deleted in *. cbn [trace]. congruence.
Qed.

Lemma resetSyncState_world (w : World S) :
  watermark (snd (resetSyncState env w)) = 0 /\
  syncFolderId (settings (snd (resetSyncState env w))) = "" /\
  forgetRunState (settings (snd (resetSyncState env w)))
  = forgetRunState (settings w) /\
  deleted (snd (resetSyncState env w)) = deleted w.
Proof.
  set (w1 := Build_World (set_syncFolderId (set_lastSyncTime (settings w) 0) "")
               (isSyncing w) (trace w) (ext w)).
  assert (Hrun : resetSyncState env w
                 = (saveSettings env ;;
                    notice "Sync state reset. Next sync will be a full sync.")%comp w1)
    by reflexivity.
  rewrite Hrun. clear Hrun.
  assert (Hs : settings (snd ((saveSettings env ;;
                 notice "Sync state reset. Next sync will be a full sync.")%comp w1))
               = settings w1).
  { apply (preserves_bind (fun w => settings w)).
    - apply preserves_saveSettings. intros x y H. exact H.
    - intros _. apply preserves_log, settings_plugin_only. }
  assert (Hd : deleted (snd ((saveSettings env ;;
                 notice "Sync state reset. Next sync will be a full sync.")%comp w1))
               = deleted w1).
  { apply (preserves_bind (S := S) deleted); [|intros _]; quiet. }
  unfold watermark. rewrite Hs, Hd. repeat split.
Qed.

(** Without a watermark nothing is removed: a run of [sync] that starts
    with [lastSyncTime] zero, the command "Force Upload All" whatever the
    watermark is, and the run that follows "Reset Sync State" issue no
    [rmdir], no [trash] and no Drive [moveToTrash]. *)
Theorem nothing_removed_without_watermark (w : World S) :
  (lastSyncTime (settings w) = 0 -> deleted (snd (sync env w)) = deleted w) /\
  deleted (snd (forceUploadAll env w)) = deleted w /\
  deleted (snd (sync env (snd (resetSyncState env w)))) = deleted w.
Proof.
  split; [exact (zero_sync w)|]. split.
  - rewrite forceUploadAll_unfold.
    destruct (negb (authenticatedAt (settings w) (dateNow env (ext w))));
      [apply deleted_log; exact I|].
    cbv zeta. cbn [snd].
    assert (Hs : deleted (snd (sync env (forceStart w))) = deleted w).
    { rewrite zero_sync; [|reflexivity].
      unfold forceStart, deleted. simpl. rewrite deletions_app. apply app_nil_r. }
    destruct (lastSyncTime (settings (snd (sync env (forceStart w)))) =? 0);
      exact Hs.
  - destruct (resetSyncState_world w) as (Hz & _ & _ & Hd).
    now rewrite zero_sync.
Qed.

End Removals.

(** ** Tokens *)

Section AuthFacts.

Context {S : Type}.
Variable env : Env S.
Variable net : Net S.

Lemma saveSettings_settings (w : World S) :
  settings (snd (saveSettings env w)) = settings w.
Proof.
  apply (preserves_saveSettings env (fun w => settings w)).
  intros w1 w2 H. exact H.
Qed.

(** The stores of a successful refresh, up to [saveSettings]. *)
Lemma refresh_store (resp : TokenResponse) (w : World S) :
  exists w',
    (assign (fun s => set_accessToken s (trAccessToken resp)) ;;
     t <- now env ;;
     assign (fun s => set_tokenExpiry s (t + trExpiresIn resp * 1000)) ;;
     saveSettings env ;;
     ret true)%comp w
    = (match fst (saveSettings env w') with
       | Ok _ => Ok true
       | Throw e => Throw e
       end, snd (saveSettings env w')) /\
    settings w' =
      set_tokenExpiry (set_accessToken (settings w) (trAccessToken resp))
        (dateNow env (ext w) + trExpiresIn resp * 1000) /\
    trace w' = trace w.
Proof.
  exists (Build_World
            (set_tokenExpiry (set_accessToken (settings w) (trAccessToken resp))
               (dateNow env (ext w) + trExpiresIn resp * 1000))
            (isSyncing w) (trace w) (ext w)).
  split; [|split; reflexivity].
  unfold bind at 1. unfold assign at 1, bind at 1, gets at 1,
    setSettings at 1, modify at 1. cbv iota beta.
  unfold bind at 1. unfold now at 1, gets at 1. cbv iota beta.
  unfold bind at 1. unfold assign at 1, bind at 1, gets at 1,
    setSettings at 1, modify at 1. cbv iota beta.
  cbn [settings isSyncing trace ext].
  unfold bind at 1.
  match goal with
  | |- context [saveSettings env ?x] => destruct (saveSettings env x) as [[[]|e] w2]
  end; reflexivity.
Qed.

(** [refreshAccessToken] never throws, writes no setting but the access
    token and its expiry, and answers [true] only after the token endpoint
    has answered 200, with the token of that answer stored and its expiry
    counted from the [Date.now()] read after the answer. *)
Theorem refreshAccessToken_spec (credentials : option OAuthCredentials)
    (w : World S) :
  (exists b, fst (refreshAccessToken env net credentials w) = Ok b) /\
  forgetAccess (settings (snd (refreshAccessToken env net credentials w)))
  = forgetAccess (settings w) /\
  (fst (refreshAccessToken env net credentials w) = Ok true ->
   exists c resp s1,
     credentials = Some c /\
     tokenRequest net (RefreshGrant c (refreshToken (settings w))) (ext w)
     = (Ok resp, s1) /\
     trStatus resp = 200 /\
     accessToken (settings (snd (refreshAccessToken env net credentials w)))
     = trAccessToken resp /\
     tokenExpiry (settings (snd (refreshAccessToken env net credentials w)))
     = dateNow env s1 + trExpiresIn resp * 1000).
Proof.
  remember (refreshAccessToken env net credentials w) as r eqn:Hr.
  unfold refreshAccessToken in Hr. unfold bind at 1 in Hr.
  unfold gets at 1 in Hr. cbv iota beta in Hr.
  destruct credentials as [c|];
    [|subst r; split; [now exists false|split; [reflexivity|discriminate]]].
  destruct (String.eqb (refreshToken (settings w)) "");
    [subst r; split; [now exists false|split; [reflexivity|discriminate]]|].
  unfold tryCatch in Hr. unfold bind at 1 in Hr. unfold request at 1 in Hr.
  destruct (tokenRequest net (RefreshGrant c (refreshToken (settings w))) (ext w))
    as [[resp|e] s1] eqn:Hreq; cbv iota beta in Hr;
    [|subst r; split; [now exists false|split; [reflexivity|discriminate]]].
  destruct (trStatus resp =? 200) eqn:Hst; cbn [negb] in Hr;
    [|subst r; split; [now exists false|split; [reflexivity|discriminate]]].
  destruct (refresh_store resp
              (Build_World (settings w) (isSyncing w) (trace w) s1))
    as (w' & Hrun & Hset & _).
  rewrite Hrun in Hr. clear Hrun.
  pose proof (saveSettings_settings w') as Hsave.
  destruct (saveSettings env w') as [[[]|e] w2]; cbn [fst snd] in *; subst r;
    cbn [fst snd].
  - split; [now exists true|]. rewrite Hsave, Hset. split; [reflexivity|].
    intros _. exists c, resp, s1.
    split; [reflexivity|]. split; [exact Hreq|].
    split; [now apply Z.eqb_eq|]. split; reflexivity.
  - split; [now exists false|]. cbn. rewrite Hsave, Hset.
    split; [reflexivity|discriminate].
Qed.

Lemma refresh_returns credentials (w : World S) :
  exists b, fst (refreshAccessToken env net credentials w) = Ok b.
Proof.
  unfold refreshAccessToken. unfold bind at 1. unfold gets at 1.
  cbv iota beta.
  destruct credentials as [c|]; [|now exists false].
  destruct (String.eqb (refreshToken (settings w)) ""); [now exists false|].
  unfold tryCatch. unfold bind at 1. unfold request at 1.
  destruct (tokenRequest net (RefreshGrant c (refreshToken (settings w))) (ext w))
    as [[resp|e] s1]; cbv iota beta; [|now exists false].
  destruct (trStatus resp =? 200); cbn [negb]; [|now exists false].
  destruct (refresh_store resp
              (Build_World (settings w) (isSyncing w) (trace w) s1))
    as (w' & Hrun & _).
  rewrite Hrun.
  destruct (saveSettings env w') as [[[]|e] w2]; cbn;
    [now exists true|now exists false].
Qed.

(** [getValidAccessToken] never throws; a token it returns is the one in
    the settings when it returns; without an access token it answers
    [null] at once; and a token with more than five minutes left is
    returned as it is, with no request made. *)
Theorem getValidAccessToken_spec (credentials : option OAuthCredentials)
    (w : World S) :
  (exists o,
     fst (getValidAccessToken env net credentials w) = Ok o /\
     forall t, o = Some t ->
       t = accessToken (settings (snd (getValidAccessToken env net credentials w)))) /\
  (accessToken (settings w) = "" ->
   getValidAccessToken env net credentials w = (Ok None, w)) /\
  (accessToken (settings w) <> "" ->
   dateNow env (ext w) < tokenExpiry (settings w) - 300000 ->
   getValidAccessToken env net credentials w
   = (Ok (Some (accessToken (settings w))), w)).
Proof.
  remember (getValidAccessToken env net credentials w) as r eqn:Hr.
  unfold getValidAccessToken in Hr. unfold bind at 1 in Hr.
  unfold gets at 1 in Hr. cbv iota beta in Hr.
  destruct (String.eqb_spec (accessToken (settings w)) "") as [He|Hne].
  { subst r. split; [exists None; split; [reflexivity|discriminate]|].
    split; [reflexivity|contradiction]. }
  unfold bind at 1 in Hr. unfold now at 1 in Hr. unfold gets at 1 in Hr.
  cbv iota beta in Hr.
  destruct (dateNow env (ext w) >=? tokenExpiry (settings w) - 300000) eqn:Hexp.
  - split; [|split; [contradiction|intros _ Hlt; lia]].
    unfold bind at 1 in Hr.
    destruct (refresh_returns credentials w) as [b Hb].
    destruct (refreshAccessToken env net credentials w) as [r0 w1].
    cbn [fst] in Hb. subst r0.
    destruct b; cbn [negb] in Hr; subst r.
    + eexists. split; [reflexivity|]. now intros t [= <-].
    + exists None. split; [reflexivity|discriminate].
  - subst r. split; [|split; [contradiction|reflexivity]].
    eexists. split; [reflexivity|]. now intros t [= <-].
Qed.

(** [revokeAccess] leaves no token, no expiry and no sync folder id in the
    settings, whether or not the revocation request or the save succeeds;
    [lastSyncTime] is as it was, and [isAuthenticated] is false
    afterwards. *)
Theorem revokeAccess_clears (w : World S) :
  let s' := settings (snd (revokeAccess env net w)) in
  accessToken s' = "" /\ refreshToken s' = "" /\ tokenExpiry s' = 0 /\
  syncFolderId s' = "" /\ lastSyncTime s' = lastSyncTime (settings w) /\
  forall t, authenticatedAt s' t = false.
Proof.
  cbv zeta.
  assert (Hs : settings (snd (revokeAccess env net w)) =
               set_syncFolderId
                 (set_tokenExpiry
                    (set_refreshToken (set_accessToken (settings w) "") "") 0) "").
  { unfold revokeAccess. unfold bind at 1. unfold gets at 1. cbv iota beta.
    unfold bind at 1.
    assert (H1 : exists w1,
      (if negb (String.eqb (accessToken (settings w)) "")
       then tryCatch (request (revokeRequest net (accessToken (settings w))))
              (fun _ => ret tt)
       else ret tt) w = (Ok tt, w1) /\ settings w1 = settings w).
    { destruct (negb (String.eqb (accessToken (settings w)) ""));
        [|now exists w].
      unfold tryCatch, request.
      destruct (revokeRequest net (accessToken (settings w)) (ext w))
        as [[[]|e] s1]; eexists; split; reflexivity. }
    destruct H1 as (w1 & -> & Hw1).
    unfold bind at 1. unfold assign at 1, bind at 1, gets at 1,
      setSettings at 1, modify at 1. cbv iota beta.
    unfold bind at 1. unfold assign at 1, bind at 1, gets at 1,
      setSettings at 1, modify at 1. cbv iota beta.
    unfold bind at 1. unfold assign at 1, bind at 1, gets at 1,
      setSettings at 1, modify at 1. cbv iota beta.
    unfold bind at 1. unfold assign at 1, bind at 1, gets at 1,
      setSettings at 1, modify at 1. cbv iota beta.
    cbn [settings isSyncing trace ext]. rewrite Hw1.
    unfold bind.
    match goal with
    | |- context [saveSettings env ?x] =>
        pose proof (saveSettings_settings x) as Hsave;
        destruct (saveSettings env x) as [[[]|e] w2]
    end; exact Hsave. }
  rewrite Hs. repeat split.
Qed.

(** The stores of a successful code exchange, up to [saveSettings]. *)
Lemma exchange_settings (c : OAuthCredentials) (code v : string) (w : World S) :
  let r := exchangeCodeForTokens env net c code v w in
  (refreshToken (settings w) <> "" -> refreshToken (settings (snd r)) <> "") /\
  (fst r = Ok tt ->
   exists resp s1,
     tokenRequest net (CodeGrant c code v) (ext w) = (Ok resp, s1) /\
     trStatus resp = 200 /\
     accessToken (settings (snd r)) = trAccessToken resp /\
     refreshToken (settings (snd r))
     = match usableId (trRefreshToken resp) with
       | Some t => t
       | None => refreshToken (settings w)
       end /\
     tokenExpiry (settings (snd r)) = dateNow env s1 + trExpiresIn resp * 1000).
Proof.
  cbv zeta.
  remember (exchangeCodeForTokens env net c code v w) as r eqn:Hr.
  unfold exchangeCodeForTokens in Hr.
  unfold bind at 1 in Hr. unfold request at 1 in Hr.
  destruct (tokenRequest net (CodeGrant c code v) (ext w))
    as [[resp|e] s1] eqn:Hreq; cbv iota beta in Hr;
    [|subst r; split; [auto|discriminate]].
  destruct (trStatus resp =? 200) eqn:Hst; cbn [negb] in Hr;
    [|subst r; split; [auto|discriminate]].
  set (w0 := Build_World (settings w) (isSyncing w) (trace w) s1) in Hr.
  set (w' := Build_World
     (set_tokenExpiry
        (set_refreshToken (set_accessToken (settings w) (trAccessToken resp))
           (match usableId (trRefreshToken resp) with
            | Some r => r
            | None => refreshToken (settings w)
            end))
        (dateNow env s1 + trExpiresIn resp * 1000))
     (isSyncing w) (trace w) s1).
  assert (Hrun :
    (assign (fun s => set_accessToken s (trAccessToken resp)) ;;
     assign (fun s =>
               match usableId (trRefreshToken resp) with
               | Some r => set_refreshToken s r
               | None => set_refreshToken s (refreshToken s)
               end) ;;
     t <- now env ;;
     assign (fun s => set_tokenExpiry s (t + trExpiresIn resp * 1000)) ;;
     saveSettings env ;;
     notice "Successfully connected to Google Drive!")%comp w0
    = (saveSettings env ;; notice "Successfully connected to Google Drive!")%comp w').
  { unfold bind at 1. unfold assign at 1, bind at 1, gets at 1,
      setSettings at 1, modify at 1. cbv iota beta.
    unfold bind at 1. unfold assign at 1, bind at 1, gets at 1,
      setSettings at 1, modify at 1. cbv iota beta.
    unfold bind at 1. unfold now at 1, gets at 1. cbv iota beta.
    unfold bind at 1. unfold assign at 1, bind at 1, gets at 1,
      setSettings at 1, modify at 1. cbv iota beta.
    unfold w', w0. cbn [settings isSyncing trace ext].
    destruct (usableId (trRefreshToken resp)); reflexivity. }
  rewrite Hrun in Hr. clear Hrun.
  assert (Hfin : settings (snd r) = settings w').
  { subst r. unfold bind. pose proof (saveSettings_settings w') as Hsave.
    destruct (saveSettings env w') as [[[]|e] w2]; exact Hsave. }
  rewrite Hfin. unfold w'. cbn [settings]. split.
  - intros Hne. cbn.
    destruct (usableId (trRefreshToken resp)) as [t|] eqn:Hu; [|exact Hne].
    unfold usableId in Hu. destruct (trRefreshToken resp) as [t0|]; [|discriminate].
    destruct (String.eqb_spec t0 ""); [discriminate|]. congruence.
  - intros _. exists resp, s1.
    split; [reflexivity|]. split; [now apply Z.eqb_eq|].
    split; [reflexivity|]. split; reflexivity.
Qed.

(** [completeAuthFlow] never throws. Without credentials or without a
    started flow it answers [false], keeps the code verifier and changes
    no setting; otherwise the verifier is gone afterwards, whatever the
    exchange did. A refresh token that is there is never replaced by an
    empty one, and the answer [true] means that the token endpoint
    answered 200 and its token is stored. *)
Theorem completeAuthFlow_spec (credentials : option OAuthCredentials)
    (codeVerifier : option string) (code : string) (w : World S) :
  let r := completeAuthFlow env net credentials codeVerifier code w in
  exists ok v',
    fst r = Ok (ok, v') /\
    (credentials = None \/ usableId codeVerifier = None ->
     ok = false /\ v' = codeVerifier /\ settings (snd r) = settings w) /\
    (credentials <> None -> usableId codeVerifier <> None -> v' = None) /\
    (refreshToken (settings w) <> "" -> refreshToken (settings (snd r)) <> "") /\
    (ok = true ->
     exists c v resp s1,
       credentials = Some c /\ usableId codeVerifier = Some v /\
       tokenRequest net (CodeGrant c code v) (ext w) = (Ok resp, s1) /\
       trStatus resp = 200 /\
       accessToken (settings (snd r)) = trAccessToken resp).
Proof.
  cbv zeta. unfold completeAuthFlow.
  destruct credentials as [c|].
  2:{ exists false, codeVerifier. cbn. repeat split; auto; try discriminate.
      intros H. now elim H. }
  destruct (usableId codeVerifier) as [v|] eqn:Hv.
  2:{ exists false, codeVerifier. cbn. repeat split; auto; try discriminate.
      intros _ H. now elim H. }
  unfold tryCatch, bind.
  destruct (exchange_settings c code v w) as [Hkeep Hok]. cbv zeta in Hkeep, Hok.
  destruct (exchangeCodeForTokens env net c code v w) as [[[]|e] w1];
    cbn [fst snd] in *.
  - exists true, None. cbn [fst snd]. split; [reflexivity|].
    split; [intros [H|H]; discriminate|].
    split; [reflexivity|]. split; [exact Hkeep|].
    intros _. destruct (Hok eq_refl) as (resp & s1 & H1 & H2 & H3 & _).
    exists c, v, resp, s1. auto.
  - exists false, None. cbn. split; [reflexivity|].
    split; [intros [H|H]; discriminate|].
    split; [reflexivity|]. split; [exact Hkeep|discriminate].
Qed.

(** [makeRequest] without an access token throws "Not authenticated with
    Google Drive" before any request is made, and a response it returns
    has a status below 400. *)
Theorem makeRequest_spec (credentials : option OAuthCredentials)
    (url method : string) (body : option string) (headers : JsMap.t string)
    (contentType : option string) (w : World S) :
  (accessToken (settings w) = "" ->
   makeRequest env net credentials url method body headers contentType w
   = (Throw "Not authenticated with Google Drive", w)) /\
  (forall resp w',
     makeRequest env net credentials url method body headers contentType w
     = (Ok resp, w') -> hrStatus resp < 400).
Proof.
  split.
  - intros He. unfold makeRequest, getAccessToken. unfold bind at 1 2.
    unfold getValidAccessToken. unfold bind at 1. unfold gets at 1.
    cbv iota beta. rewrite He. reflexivity.
  - intros resp w'. unfold makeRequest. unfold bind at 1.
    destruct (getAccessToken env net credentials w) as [[token|e] w1];
      [|discriminate].
    cbv zeta. unfold bind at 1. unfold request at 1.
    match goal with
    | |- context [requestUrl net ?r (ext w1)] =>
        destruct (requestUrl net r (ext w1)) as [[resp0|e] s1]
    end; cbv iota beta; [|discriminate].
    destruct (hrStatus resp0 >=? 400) eqn:Hst.
    + unfold bind, consoleError, log, modify, throw. discriminate.
    + unfold ret. intros [= <- _]. lia.
Qed.

End AuthFacts.

(** ** Paged listings *)

Section PaginationFacts.

Context {S : Type}.
Variable listFiles :
  string -> option string -> M (S := S) (list DriveFile * option string).
Variable page : option string -> list DriveFile * option string.
Variable folderId : string.

Hypothesis listFiles_answers :
  forall tok w, fst (listFiles folderId tok w) = Ok (page tok).

Lemma listAllFilesFrom_paged tok n files :
  Paged page tok n files ->
  forall fuel acc w, (n <= fuel)%nat ->
    fst (listAllFilesFrom listFiles fuel folderId tok acc w)
    = Ok (Some (acc ++ files)%list).
Proof.
  induction 1 as [tok Hlast|tok next n rest Hnext Hrest IH];
    intros fuel acc w Hfuel.
  - destruct fuel as [|fuel]; [lia|]. simpl. unfold bind.
    pose proof (listFiles_answers tok w) as Ha.
    destruct (listFiles folderId tok w) as [[res|e] w1]; simpl in Ha;
      [|discriminate].
    injection Ha as ->. now rewrite Hlast.
  - destruct fuel as [|fuel]; [lia|]. simpl. unfold bind.
    pose proof (listFiles_answers tok w) as Ha.
    destruct (listFiles folderId tok w) as [[res|e] w1]; simpl in Ha;
      [|discriminate].
    injection Ha as ->. rewrite Hnext.
    rewrite IH; [|lia]. now rewrite app_assoc.
Qed.

End PaginationFacts.

(** [listAllFiles] follows the page tokens to the end: against a server
    whose listing ends after [n] pages, the loop returns without running
    out of pages to ask for, with the files of all pages in the order of
    the pages. *)
Theorem listAllFiles_drains {S : Type}
    (listFiles : string -> option string -> M (S := S) (list DriveFile * option string))
    (page : option string -> list DriveFile * option string)
    (folderId : string) (n fuel : nat) (files : list DriveFile) (w : World S) :
  (forall tok w0, fst (listFiles folderId tok w0) = Ok (page tok)) ->
  Paged page None n files ->
  (n <= fuel)%nat ->
  fst (listAllFiles listFiles fuel folderId w) = Ok (Some files).
Proof.
  intros Ha Hp Hf. unfold listAllFiles.
  now rewrite (listAllFilesFrom_paged listFiles page folderId Ha None n files Hp).
Qed.

(** ** The lists of the settings tab *)

Module ListSettingFacts.

Import ListSetting.

Lemma split_not_nil sep s : split sep s <> [].
Proof.
  destruct s as [|c r]; simpl; [discriminate|].
  destruct (c =? sep)%N; [discriminate|].
  destruct (split sep r); discriminate.
Qed.

Lemma split_whole sep x : occurs sep x = false -> split sep x = [x].
Proof.
  unfold occurs. induction x as [|c r IH]; simpl; [reflexivity|].
  intros H. apply orb_false_elim in H as [Hc Hr].
  rewrite N.eqb_sym, Hc, (IH Hr). reflexivity.
Qed.

Lemma split_at sep x s :
  occurs sep x = false -> split sep (x ++ sep :: s)%list = x :: split sep s.
Proof.
  unfold occurs. induction x as [|c r IH]; simpl.
  - intros _. now rewrite N.eqb_refl.
  - intros H. apply orb_false_elim in H as [Hc Hr].
    rewrite N.eqb_sym, Hc, (IH Hr). reflexivity.
Qed.

Lemma split_parts sep s p : In p (split sep s) -> occurs sep p = false.
Proof.
  unfold occurs. revert p. induction s as [|c r IH]; simpl; intros p.
  - intros [<-|[]]. reflexivity.
  - destruct (c =? sep)%N eqn:Hc.
    + intros [<-|H]; [reflexivity|auto].
    + destruct (split sep r) as [|h t].
      * intros [<-|[]]. simpl. now rewrite N.eqb_sym, Hc.
      * intros [<-|H].
        -- simpl. rewrite N.eqb_sym, Hc. apply IH. now left.
        -- apply IH. now right.
Qed.

Lemma trims_after_space s :
  map trim (split comma (space :: s)) = map trim (split comma s).
Proof.
  simpl. destruct (split comma s) as [|h t] eqn:Hs.
  - now elim (split_not_nil comma s).
  - reflexivity.
Qed.

Lemma nonEmpty_clean x : clean x -> nonEmpty x = true.
Proof. intros [Hne _]. destruct x; [contradiction|reflexivity]. Qed.

Lemma parse_single x : clean x -> parse x = [x].
Proof.
  intros Hx. pose proof (nonEmpty_clean x Hx) as Hne.
  destruct Hx as (_ & Htrim & Hc). unfold parse.
  rewrite (split_whole comma x Hc). simpl. now rewrite Htrim, Hne.
Qed.

Lemma parse_cons x rest :
  clean x -> parse (x ++ [comma; space] ++ rest)%list = x :: parse rest.
Proof.
  intros Hx. pose proof (nonEmpty_clean x Hx) as Hne.
  destruct Hx as (_ & Htrim & Hc). unfold parse.
  change (x ++ [comma; space] ++ rest)%list with (x ++ comma :: space :: rest)%list.
  rewrite (split_at comma x _ Hc). cbn [map]. rewrite trims_after_space, Htrim.
  cbn [filter]. now rewrite Hne.
Qed.

Lemma parse_show_clean xs : Forall clean xs -> parse (show xs) = xs.
Proof.
  induction 1 as [|x r Hx Hr IH]; [reflexivity|].
  unfold show in *. destruct r as [|y r].
  - simpl. now apply parse_single.
  - change (join [comma; space] (x :: y :: r))
      with (x ++ [comma; space] ++ join [comma; space] (y :: r))%list.
    rewrite (parse_cons x _ Hx). now rewrite IH.
Qed.

(** *** What [trim] leaves *)

Lemma trimStart_headOk a : headOk (trimStart a).
Proof.
  induction a as [|c r IH]; simpl; [exact I|].
  destruct (isSpace c) eqn:Hc; [exact IH|exact Hc].
Qed.

Lemma trimStart_of_headOk a : headOk a -> trimStart a = a.
Proof. destruct a as [|c r]; simpl; [reflexivity|]. now intros ->. Qed.

Lemma trimEnd_headOk a : headOk a -> headOk (trimEnd a).
Proof.
  destruct a as [|c r]; simpl; [exact id|]. intros Hc.
  destruct (trimEnd r); [rewrite Hc|]; exact Hc.
Qed.

Lemma trimEnd_idem a : trimEnd (trimEnd a) = trimEnd a.
Proof.
  induction a as [|c r IH]; simpl; [reflexivity|].
  destruct (trimEnd r) as [|d r'] eqn:Hr.
  - destruct (isSpace c) eqn:Hc; simpl; [reflexivity|now rewrite Hc].
  - change (trimEnd (c :: d :: r'))
      with (match trimEnd (d :: r') with
            | [] => if isSpace c then [] else [c]
            | r'' => c :: r''
            end).
    now rewrite IH.
Qed.

Lemma trim_idem a : trim (trim a) = trim a.
Proof.
  unfold trim.
  rewrite (trimStart_of_headOk (trimEnd (trimStart a))).
  - apply trimEnd_idem.
  - apply trimEnd_headOk, trimStart_headOk.
Qed.

Lemma occurs_trimStart c a :
  occurs c a = false -> occurs c (trimStart a) = false.
Proof.
  unfold occurs. induction a as [|d r IH]; simpl; [auto|].
  intros H. destruct (isSpace d); [|exact H].
  apply orb_false_elim in H as [_ Hr]. auto.
Qed.

Lemma occurs_trimEnd c a :
  occurs c a = false -> occurs c (trimEnd a) = false.
Proof.
  unfold occurs. induction a as [|d r IH]; simpl; [auto|].
  intros H. apply orb_false_elim in H as [Hd Hr]. specialize (IH Hr).
  destruct (trimEnd r) as [|e r'].
  - destruct (isSpace d); simpl; [reflexivity|now rewrite Hd].
  - simpl in *. now rewrite Hd, IH.
Qed.

End ListSettingFacts.

(** What the settings tab shows for a list parses back to that list:
    [parse (show xs)] is [xs] when every item is non-empty, trimmed and
    free of commas. *)
Theorem list_setting_round_trip (xs : list ListSetting.Text) :
  Forall ListSetting.clean xs ->
  ListSetting.parse (ListSetting.show xs) = xs.
Proof. exact (ListSettingFacts.parse_show_clean xs). Qed.

(** Every item the settings tab stores is non-empty, trimmed and free of
    commas, so a stored list is shown and parsed back unchanged. *)
Theorem list_setting_is_stable (value : ListSetting.Text) :
  Forall ListSetting.clean (ListSetting.parse value) /\
  ListSetting.parse (ListSetting.show (ListSetting.parse value))
  = ListSetting.parse value.
Proof.
  assert (Hc : Forall ListSetting.clean (ListSetting.parse value)).
  { apply Forall_forall. intros x Hx. unfold ListSetting.parse in Hx.
    apply filter_In in Hx as [Hin Hne].
    apply in_map_iff in Hin as (p & <- & Hp).
    split; [|split].
    - intros H. rewrite H in Hne. discriminate.
    - apply ListSettingFacts.trim_idem.
    - unfold ListSetting.trim.
      apply ListSettingFacts.occurs_trimEnd, ListSettingFacts.occurs_trimStart.
      exact (ListSettingFacts.split_parts _ _ _ Hp). }
  split; [exact Hc|]. now apply ListSettingFacts.parse_show_clean.
Qed.

(** ** Instances

    Each theorem above that has a hypothesis, applied to a concrete
    input. *)

Lemma plan_paths_distinct_witness :
  NoDup (planPaths (createSyncPlan Scenario.watermark500
                      [("c.md", Scenario.localC)] [("c.md", Scenario.remoteC)])).
Proof.
  apply (plan_paths_distinct Scenario.watermark500
           [("c.md", Scenario.localC)] [("c.md", Scenario.remoteC)]).
  - apply single_index_ok. reflexivity.
  - apply single_index_ok. reflexivity.
Defined.

Lemma first_run_never_deletes_witness :
  deleteLocal (createSyncPlan DEFAULT_SETTINGS
                 [("a.md", Scenario.localA)] [("b.md", Scenario.remoteB)]) = [] /\
  deleteRemote (createSyncPlan DEFAULT_SETTINGS
                  [("a.md", Scenario.localA)] [("b.md", Scenario.remoteB)]) = [].
Proof.
  apply (first_run_never_deletes DEFAULT_SETTINGS
           [("a.md", Scenario.localA)] [("b.md", Scenario.remoteB)]).
  reflexivity.
Defined.

Lemma local_only_entry_decision_witness :
  In Scenario.localA
    (deleteLocal (createSyncPlan Scenario.watermark500
                    [("a.md", Scenario.localA)] [])).
Proof.
  apply (local_only_entry_decision Scenario.watermark500
           [("a.md", Scenario.localA)] [] "a.md" Scenario.localA).
  - reflexivity.
  - reflexivity.
Defined.

Lemma remote_only_entry_decision_witness :
  In Scenario.remoteB
    (deleteRemote (createSyncPlan Scenario.watermark500
                     [] [("b.md", Scenario.remoteB)])).
Proof.
  apply (remote_only_entry_decision Scenario.watermark500
           [] [("b.md", Scenario.remoteB)] "b.md" Scenario.remoteB).
  - reflexivity.
  - reflexivity.
Defined.

Lemma both_files_decision_witness :
  In Scenario.remoteC
    (downloads (createSyncPlan Scenario.watermark500
                  [("c.md", Scenario.localC)] [("c.md", Scenario.remoteC)])).
Proof.
  apply (both_files_decision Scenario.watermark500
           [("c.md", Scenario.localC)] [("c.md", Scenario.remoteC)]
           "c.md" Scenario.localC Scenario.remoteC).
  - apply single_index_ok. reflexivity.
  - apply single_index_ok. reflexivity.
  - reflexivity.
  - reflexivity.
  - reflexivity.
  - reflexivity.
Defined.

Lemma deletion_provenance_witness :
  (forall f,
     In f (deleteLocal (createSyncPlan Scenario.watermark500
                          [("a.md", Scenario.localA)] [("b.md", Scenario.remoteB)])) ->
     JsMap.get [("a.md", Scenario.localA)] (path f) = Some f /\
     JsMap.get [("b.md", Scenario.remoteB)] (path f) = None /\
     lastSyncTime Scenario.watermark500 <> 0 /\
     mtime f <= lastSyncTime Scenario.watermark500) /\
  (forall f,
     In f (deleteRemote (createSyncPlan Scenario.watermark500
                           [("a.md", Scenario.localA)] [("b.md", Scenario.remoteB)])) ->
     JsMap.get [("b.md", Scenario.remoteB)] (path f) = Some f /\
     JsMap.get [("a.md", Scenario.localA)] (path f) = None /\
     lastSyncTime Scenario.watermark500 <> 0 /\
     remoteTime f <= lastSyncTime Scenario.watermark500).
Proof.
  apply (deletion_provenance Scenario.watermark500
           [("a.md", Scenario.localA)] [("b.md", Scenario.remoteB)]).
  - apply single_index_ok. reflexivity.
  - apply single_index_ok. reflexivity.
Defined.

Lemma excluded_folder_covers_descendants_witness :
  shouldExclude DEFAULT_SETTINGS ".obsidian/plugins/x.json" = true.
Proof.
  apply (excluded_folder_covers_descendants DEFAULT_SETTINGS
           ".obsidian" "plugins/x.json").
  - reflexivity.
  - reflexivity.
Defined.

Lemma excluded_extension_is_a_suffix_witness :
  shouldExclude Examples.excludeTmp "notes/draft.tmp" = true.
Proof.
  apply (excluded_extension_is_a_suffix Examples.excludeTmp "notes/draft" ".tmp").
  simpl. tauto.
Defined.

Lemma mime_type_by_extension_witness :
  getMimeType "Notes/Plan.MD" = getMimeType ".md".
Proof.
  apply (mime_type_by_extension "Notes/Plan" "MD"). reflexivity.
Defined.

Lemma parentPath_of_child_witness :
  StrOps.parentPath "a.md" = "" /\
  forall d, StrOps.parentPath (d ++ "/" ++ "a.md") = d.
Proof.
  apply (parentPath_of_child "a.md"). reflexivity.
Defined.

Lemma nonempty_folder_is_kept_witness :
  fst (deleteLocalFile Sim.env Examples.obsidianFolder Scenario.worldVault) = Ok tt /\
  callsOf (snd (deleteLocalFile Sim.env Examples.obsidianFolder Scenario.worldVault))
  = ["adapter.exists .obsidian"; "adapter.list .obsidian"] /\
  ext (snd (deleteLocalFile Sim.env Examples.obsidianFolder Scenario.worldVault))
  = Sim.tick (Sim.tick (ext Scenario.worldVault)).
Proof.
  apply (nonempty_folder_is_kept Sim.env Examples.obsidianFolder Scenario.worldVault
           ([".obsidian/app.json"], [])
           (Sim.tick (ext Scenario.worldVault))
           (Sim.tick (Sim.tick (ext Scenario.worldVault)))).
  - reflexivity.
  - reflexivity.
  - reflexivity.
  - left. discriminate.
Defined.

Lemma listAllFiles_drains_witness :
  fst (listAllFiles Examples.pagedListFiles 5 "root-id" Examples.quietWorld)
  = Ok (Some [Examples.fileA; Examples.fileB]).
Proof.
  apply (listAllFiles_drains Examples.pagedListFiles Examples.twoPages
           "root-id" 2 5 [Examples.fileA; Examples.fileB] Examples.quietWorld).
  - intros tok w0. reflexivity.
  - apply (PagedMore Examples.twoPages None "page-2" 1 [Examples.fileB]).
    + reflexivity.
    + apply (PagedLast Examples.twoPages (Some "page-2")). reflexivity.
  - lia.
Defined.

Lemma list_setting_round_trip_witness :
  ListSetting.parse (ListSetting.units ".obsidian, .git, .trash")
  = map ListSetting.units [".obsidian"; ".git"; ".trash"].
Proof.
  apply (list_setting_round_trip
           (map ListSetting.units [".obsidian"; ".git"; ".trash"])).
  repeat constructor; discriminate.
Defined.
